(** * The OpenSearch action store: codec, filter compiler, index router

    A shallow embedding of [src/utils.ts], [src/action.ts] and
    [src/engine.ts] (class [OpenSearchEngine]) together with the properties
    of the specification that concern them.

    Layout:
    - [JS]      : JavaScript values as the code sees them (JSON trees, objects
                  as association lists in enumeration order, truthiness,
                  [JSON.stringify]).
    - [Cyclic]  : [removeSensitiveKeys] / [breakCircularReferences] over a
                  store of objects and arrays, where reference identity and
                  cycles exist.
    - [Utils]   : the same traversal on tree-shaped values, and the
                  map/list codec [transformObjectToArray] /
                  [transformArrayToObject].
    - [Luxon]   : the calendar operations the engine asks of luxon.
    - [Codec]   : [serialize] / [deserialize].
    - [Engine]  : the configuration fields of the engine instance.
    - [Compiler]: [buildFindManyQuery].
    - [Router]  : [getIndexName] / [getIndexNameRange].
    - [Schema]  : [OpenSearchActionSchema].
    - [Facade]  : [create] / [createMany] against a recorded client.
    - [Spec]    : the predicates and sample inputs the properties are
                  stated with.
    - [Laws], [StoreLaws] : predicates for the laws of the key remover and
                  of the map/list codec.
    - [Compare] : [deepCompareObjects] of [src/utils.ts].
    - [Mapping] : [INDEX_MAPPING] of [src/mapping.ts].
    - [Maintenance], [MaintenanceSpec] : [createIndexTemplates],
                  [upsertIndexTemplates], [updateIndexMapping].
    - [Path]    : [get] of [src/utils.ts].
    - [Scope], [Calendar], [FacadeSpec], [Naming], [SchemaSpec] :
                  predicates for the laws of the compiler, the router, the
                  facade and the schema.
    - [Setup], [Search] : the constructor and [findMany].
    The properties follow, one section per component. *)

From Stdlib Require Import ZArith List String Ascii Bool Lia DecimalString.
Import ListNotations.
Open Scope string_scope.
Open Scope list_scope.

(* ===================================================================== *)
(** ** JavaScript values *)
(* ===================================================================== *)

Module JS.

(** A JSON-shaped JavaScript value.  Numbers are integers: the code under
    study never computes with them, it only prints them. *)
#[local] Unset Elimination Schemes.
Inductive json : Type :=
| JNull
| JBool (b : bool)
| JNum (n : Z)
| JStr (s : string)
| JArr (elems : list json)
| JObj (props : list (string * json)).
#[local] Set Elimination Schemes.

(** A JavaScript object used as a map: its own enumerable string keys in
    enumeration order. *)
Definition obj (V : Type) : Type := list (string * V).

Fixpoint obj_get {V : Type} (o : obj V) (k : string) : option V :=
  match o with
  | [] => None
  | (k', v) :: rest => if String.eqb k' k then Some v else obj_get rest k
  end.

(** [o[k] = v]: an existing key keeps its place, a new key goes last. *)
Fixpoint obj_set {V : Type} (o : obj V) (k : string) (v : V) : obj V :=
  match o with
  | [] => [(k, v)]
  | (k', v') :: rest =>
      if String.eqb k' k then (k', v) :: rest else (k', v') :: obj_set rest k v
  end.

(** [o[k] = v] for a [v] that is a primitive or [null]: under the key
    [__proto__] every object inherits an accessor, whose setter stores no
    property for such a value ([null] only detaches the prototype); under
    any other key the property is set. *)
Definition obj_assign {V : Type} (o : obj V) (k : string) (v : V) : obj V :=
  if String.eqb k "__proto__" then o else obj_set o k v.

(** The names of the properties that every object inherits from
    [Object.prototype]: a read of [o[k]] finds them when [o] has no
    property [k] of its own. *)
Definition inheritedNames : list string :=
  ["__proto__"; "constructor"; "hasOwnProperty"; "isPrototypeOf";
   "propertyIsEnumerable"; "toLocaleString"; "toString"; "valueOf";
   "__defineGetter__"; "__defineSetter__"; "__lookupGetter__";
   "__lookupSetter__"].

Definition inherited (k : string) : bool :=
  existsb (String.eqb k) inheritedNames.

Definition obj_keys {V : Type} (o : obj V) : list string := map fst o.

(** [typeof v === "string"] *)
Definition is_string (v : json) : bool :=
  match v with JStr _ => true | _ => false end.

(** Truthiness of a string: only the empty string is falsy. *)
Definition truthy_str (s : string) : bool := negb (String.eqb s "").

(** Truthiness of an optional string ([undefined] is falsy). *)
Definition truthy_opt (o : option string) : bool :=
  match o with Some s => truthy_str s | None => false end.

Definition truthy_num (n : Z) : bool := negb (n =? 0)%Z.

Definition truthy (v : json) : bool :=
  match v with
  | JNull => false
  | JBool b => b
  | JNum n => truthy_num n
  | JStr s => truthy_str s
  | JArr _ | JObj _ => true
  end.

(** *** JSON.stringify *)

Definition dquote : ascii := ascii_of_nat 34.
Definition backslash : ascii := ascii_of_nat 92.

Definition hex_digit (n : nat) : ascii :=
  nth n ["0"; "1"; "2"; "3"; "4"; "5"; "6"; "7"; "8"; "9";
         "a"; "b"; "c"; "d"; "e"; "f"]%char "0"%char.

Definition escape_char (c : ascii) : string :=
  let n := nat_of_ascii c in
  if Nat.eqb n 34 then String backslash (String dquote "")
  else if Nat.eqb n 92 then String backslash (String backslash "")
  else if Nat.eqb n 8 then String backslash "b"
  else if Nat.eqb n 12 then String backslash "f"
  else if Nat.eqb n 10 then String backslash "n"
  else if Nat.eqb n 13 then String backslash "r"
  else if Nat.eqb n 9 then String backslash "t"
  else if Nat.ltb n 32 then
    String backslash
      (String "u" (String "0" (String "0"
         (String (hex_digit (n / 16)) (String (hex_digit (n mod 16)) "")))))
  else String c "".

Fixpoint escape (s : string) : string :=
  match s with
  | EmptyString => EmptyString
  | String c rest => (escape_char c ++ escape rest)%string
  end.

Definition quote (s : string) : string :=
  String dquote (escape s ++ String dquote "")%string.

(** The text of an integer of magnitude below [10^21]: its decimal digits.
    (From [10^21] on JavaScript prints a number in exponent form, which is
    not modelled; the properties that depend on the text of a number keep
    below that bound.) *)
Definition number_to_string (n : Z) : string :=
  NilZero.string_of_int (Z.to_int n).

Fixpoint JSON_stringify (v : json) : string :=
  match v with
  | JNull => "null"
  | JBool true => "true"
  | JBool false => "false"
  | JNum n => number_to_string n
  | JStr s => quote s
  | JArr elems =>
      ("[" ++ String.concat "," (map JSON_stringify elems) ++ "]")%string
  | JObj props =>
      ("{" ++ String.concat ","
                (map (fun kv => let '(k, x) := kv in
                                (quote k ++ ":" ++ JSON_stringify x)%string)
                     props)
           ++ "}")%string
  end.

(** Structural induction that reaches inside arrays and objects. *)
Section JsonInd.
Variable P : json -> Prop.
Hypothesis Hnull : P JNull.
Hypothesis Hbool : forall b, P (JBool b).
Hypothesis Hnum : forall n, P (JNum n).
Hypothesis Hstr : forall s, P (JStr s).
Hypothesis Harr : forall elems, Forall P elems -> P (JArr elems).
Hypothesis Hobj :
  forall props, Forall (fun kv => P (snd kv)) props -> P (JObj props).

Fixpoint json_deep_ind (v : json) : P v :=
  match v with
  | JNull => Hnull
  | JBool b => Hbool b
  | JNum n => Hnum n
  | JStr s => Hstr s
  | JArr elems =>
      Harr elems
        ((fix go (l : list json) : Forall P l :=
            match l with
            | [] => Forall_nil P
            | x :: r => Forall_cons x (json_deep_ind x) (go r)
            end) elems)
  | JObj props =>
      Hobj props
        ((fix go (l : list (string * json))
            : Forall (fun kv => P (snd kv)) l :=
            match l with
            | [] => Forall_nil _
            | kv :: r =>
                Forall_cons kv
                  (match kv as p return P (snd p) with
                   | (_, x) => json_deep_ind x
                   end)
                  (go r)
            end) props)
  end.
End JsonInd.

End JS.

(* ===================================================================== *)
(** ** utils.ts over a store: reference identity and cycles *)
(* ===================================================================== *)

Module Cyclic.

(** Objects and arrays live in a store and are referred to by address, so
    that two references can be compared with [===] and a value can contain
    itself. *)
Definition addr := nat.

Inductive prim : Type :=
| PUndefined
| PNull
| PNaN
| PBool (b : bool)
| PNum (n : Z)
| PStr (s : string).

Inductive value : Type :=
| VPrim (p : prim)
| VRef (a : addr).

Inductive cell : Type :=
| CObj (props : list (string * value))
| CArr (elems : list value).

Definition store := list cell.

(** What the traversal builds: fresh objects and arrays, which nothing else
    refers to, with the primitives of the input at the leaves. *)
#[local] Unset Elimination Schemes.
Inductive result : Type :=
| RPrim (p : prim)
| RArr (elems : list result)
| RObj (props : list (string * result)).
#[local] Set Elimination Schemes.

Definition prim_eqb (p q : prim) : bool :=
  match p, q with
  | PUndefined, PUndefined => true
  | PNull, PNull => true
  | PNaN, PNaN => true
  | PBool a, PBool b => Bool.eqb a b
  | PNum a, PNum b => (a =? b)%Z
  | PStr a, PStr b => String.eqb a b
  | _, _ => false
  end.

(** [Array.prototype.includes] compares with SameValueZero: [NaN] equals
    itself, references are equal when they are the same reference. *)
Definition same_value_zero (x y : value) : bool :=
  match x, y with
  | VPrim p, VPrim q => prim_eqb p q
  | VRef a, VRef b => Nat.eqb a b
  | _, _ => false
  end.

(** [x === y]: as above except that [NaN] differs from itself. *)
Definition strict_eq (x y : value) : bool :=
  match x, y with
  | VPrim PNaN, VPrim PNaN => false
  | _, _ => same_value_zero x y
  end.

Definition includes (l : list value) (x : value) : bool :=
  existsb (same_value_zero x) l.

(** How a run of the traversal ends.  The recursion of the source is not
    structural (a store may hold cycles), so the model is driven by fuel:
    [OutOfFuel] says that the recursion went deeper than the fuel given;
    [Dangling] that an address has no cell in the store. *)
Inductive run (A : Type) : Type :=
| Done (a : A)
| OutOfFuel
| Dangling.
Arguments Done {A} a.
Arguments OutOfFuel {A}.
Arguments Dangling {A}.

Definition run_bind {A B : Type} (r : run A) (f : A -> run B) : run B :=
  match r with
  | Done a => f a
  | OutOfFuel => OutOfFuel
  | Dangling => Dangling
  end.

Definition run_map {A B : Type} (f : A -> B) (r : run A) : run B :=
  run_bind r (fun a => Done (f a)).

(** [l.map(f)], element after element. *)
Fixpoint mapM {A B : Type} (f : A -> run B) (l : list A) : run (list B) :=
  match l with
  | [] => Done []
  | x :: rest =>
      run_bind (f x) (fun y =>
      run_bind (mapM f rest) (fun ys => Done (y :: ys)))
  end.

(** [removeSensitiveKeys(object, keys, parents)].  An absent [keys] or
    [parents] argument is the empty list: [keys?.includes] and
    [parents?.includes] are then falsy and [parents || []] is empty. *)
Fixpoint removeSensitiveKeys (fuel : nat) (st : store) (object : value)
    (keys : list string) (parents : list value) {struct fuel}
  : run result :=
  match fuel with
  | O => OutOfFuel
  | S fuel' =>
      match object with
      | VPrim p => Done (RPrim p)
      | VRef a =>
          match nth_error st a with
          | None => Dangling
          | Some (CArr elems) =>
              (* if the whole object is an array *)
              run_map RArr
                (mapM (fun elem =>
                         removeSensitiveKeys fuel' st elem keys
                           (parents ++ [object]))
                      elems)
          | Some (CObj props) =>
              run_map RObj
                (fold_left
                   (fun acc kv =>
                      let '(key, v) := kv in
                      run_bind acc (fun sanitized =>
                        (* remove the key *)
                        if existsb (String.eqb key) keys then Done sanitized
                        (* object[key] is a circular reference *)
                        else if includes parents v || strict_eq v object
                        then Done sanitized
                        else
                          match v with
                          | VPrim p =>
                              (* sanitized[key] = object[key] *)
                              Done (JS.obj_assign sanitized key (RPrim p))
                          | VRef b =>
                              match nth_error st b with
                              | None => Dangling
                              | Some (CArr velems) =>
                                  run_bind
                                    (mapM (fun elem =>
                                             removeSensitiveKeys fuel' st elem
                                               keys (parents ++ [object]))
                                          (filter
                                             (fun elem =>
                                                negb (strict_eq elem object))
                                             velems))
                                    (fun rs =>
                                       Done (JS.obj_set sanitized key (RArr rs)))
                              | Some (CObj _) =>
                                  run_bind
                                    (removeSensitiveKeys fuel' st v keys
                                       (parents ++ [object]))
                                    (fun r => Done (JS.obj_set sanitized key r))
                              end
                          end))
                   props (Done []))
          end
      end
  end.

Definition breakCircularReferences (fuel : nat) (st : store) (object : value)
    (parents : list value) : run result :=
  removeSensitiveKeys fuel st object [] parents.

(** *** Stores used in the tests of the repository and in the analysis *)

(** [obj = {a: 1, b: "two", c: null}; obj.d = obj] *)
Definition st_self_object : store :=
  [CObj [("a", VPrim (PNum 1)); ("b", VPrim (PStr "two"));
         ("c", VPrim PNull); ("d", VRef 0)]].

(** [obj.d = {c: 3, e: obj, f: "four"}] *)
Definition st_nested_object : store :=
  [CObj [("a", VPrim (PNum 1)); ("b", VPrim (PStr "two"));
         ("c", VPrim PNull); ("d", VRef 1)];
   CObj [("c", VPrim (PNum 3)); ("e", VRef 0); ("f", VPrim (PStr "four"))]].

(** [obj.d = [obj]] *)
Definition st_object_in_own_array : store :=
  [CObj [("a", VPrim (PNum 1)); ("d", VRef 1)];
   CArr [VRef 0]].

(** [const a = []; a.push(a)] *)
Definition st_self_array : store := [CArr [VRef 0]].

(** [o = {d: [[o]]}]: the cycle passes through two arrays. *)
Definition st_array_in_array : store :=
  [CObj [("d", VRef 1)]; CArr [VRef 2]; CArr [VRef 0]].

(** [o = {c: {d: [o]}}]: an array element is an ancestor that is not the
    array's direct owner. *)
Definition st_ancestor_in_array : store :=
  [CObj [("a", VPrim (PNum 1)); ("c", VRef 1)];
   CObj [("d", VRef 2)];
   CArr [VRef 0]].

End Cyclic.

(* ===================================================================== *)
(** ** utils.ts on tree-shaped values, and the map/list codec *)
(* ===================================================================== *)

Module Utils.
Import JS.

(** [removeSensitiveKeys] on a value of type [json].  Such a value is a
    tree: no property or element is reference-identical to an enclosing
    object, so the tests [parents?.includes(object[key])],
    [object[key] === object] and [elem !== object] of the source never fire
    and [parents] is not carried.  The traversal is otherwise the one of
    [Cyclic.removeSensitiveKeys], and the two agree on every store that
    holds a tree (lemma [removeSensitiveKeys_tree_sized] below).  An array
    or an object is stored by an object literal with a computed key,
    [{...sanitized, [key]: copy}], which defines the property whatever its
    name; [null] and the primitives are stored by the assignment
    [sanitized[key] = object[key]]. *)
Fixpoint removeSensitiveKeys (object : json) (keys : list string) : json :=
  match object with
  | JArr elems => JArr (map (fun elem => removeSensitiveKeys elem keys) elems)
  | JObj props =>
      JObj
        (fold_left
           (fun sanitized kv =>
              let '(k, v) := kv in
              if existsb (String.eqb k) keys then sanitized
              else
                match v with
                | JArr velems =>
                    obj_set sanitized k
                      (JArr (map (fun elem => removeSensitiveKeys elem keys)
                                 velems))
                | JObj _ => obj_set sanitized k (removeSensitiveKeys v keys)
                | _ => obj_assign sanitized k v  (* sanitized[key] = object[key] *)
                end)
           props [])
  | _ => object
  end.

Definition breakCircularReferences (object : json) : json :=
  removeSensitiveKeys object [].

(** One element of a flattened metadata map. *)
Record KV : Type := mkKV { key : string; value : string }.

(** [typeof value === "string" ? value
      : JSON.stringify(breakCircularReferences(value))] *)
Definition stringify_leaf (v : json) : string :=
  match v with
  | JStr s => s
  | _ => JSON_stringify (breakCircularReferences v)
  end.

Definition transformObjectToArray (o : option (obj json)) : option (list KV) :=
  match o with
  | None => None
  | Some props =>
      Some (map (fun kv => let '(k, v) := kv in mkKV k (stringify_leaf v))
                props)
  end.

(** [arr.reduce((obj, item) => { obj[item.key] = item.value; return obj },
    {})]: every value is a string.  The keys of the object built are
    listed in the order in which they were first assigned, which is the
    order of enumeration as long as the keys that are array indices come
    first and in ascending order. *)
Definition transformArrayToObject (arr : option (list KV)) : option (obj json) :=
  match arr with
  | None => None
  | Some items =>
      Some (fold_left (fun o item => obj_assign o (key item) (JStr (value item)))
                      items [])
  end.

End Utils.

(* ===================================================================== *)
(** ** The calendar operations asked of luxon *)
(* ===================================================================== *)

Module Luxon.

(** A [DateTime] in the UTC zone. *)
Record DateTime : Type := mkDateTime {
  year : Z; month : Z; day : Z;
  hour : Z; minute : Z; second : Z; millisecond : Z
}.

Definition isLeapYear (y : Z) : bool :=
  ((y mod 4 =? 0) && negb (y mod 100 =? 0) || (y mod 400 =? 0))%Z.

Definition daysInMonth (y m : Z) : Z :=
  if (m =? 2)%Z then (if isLeapYear y then 29 else 28)%Z
  else if ((m =? 4) || (m =? 6) || (m =? 9) || (m =? 11))%Z then 30%Z
  else 31%Z.

Definition isValid (d : DateTime) : bool :=
  ((0 <=? year d) && (year d <=? 9999)
   && (1 <=? month d) && (month d <=? 12)
   && (1 <=? day d) && (day d <=? daysInMonth (year d) (month d))
   && (0 <=? hour d) && (hour d <=? 23)
   && (0 <=? minute d) && (minute d <=? 59)
   && (0 <=? second d) && (second d <=? 59)
   && (0 <=? millisecond d) && (millisecond d <=? 999))%Z.

(** Days between 1970-01-01 and the given civil date. *)
Definition daysFromCivil (y m d : Z) : Z :=
  (let y' := if m <=? 2 then y - 1 else y in
   let era := y' / 400 in
   let yoe := y' - era * 400 in
   let mp := (m + 9) mod 12 in
   let doy := (153 * mp + 2) / 5 + d - 1 in
   let doe := yoe * 365 + yoe / 4 - yoe / 100 + doy in
   era * 146097 + doe - 719468)%Z.

(** [+dt]: milliseconds since the epoch. *)
Definition toMillis (d : DateTime) : Z :=
  ((((daysFromCivil (year d) (month d) (day d) * 24 + hour d) * 60
     + minute d) * 60 + second d) * 1000 + millisecond d)%Z.

(** [dt.plus({months: n})]: the month is shifted, the year carries, and the
    day is clamped to the length of the month reached. *)
Definition plusMonths (d : DateTime) (n : Z) : DateTime :=
  (let total := year d * 12 + (month d - 1) + n in
   let y := total / 12 in
   let m := total mod 12 + 1 in
   mkDateTime y m (Z.min (day d) (daysInMonth y m))
              (hour d) (minute d) (second d) (millisecond d))%Z.

Definition minusMonths (d : DateTime) (n : Z) : DateTime := plusMonths d (- n).

(** *** Printing *)

Fixpoint zeros (n : nat) : string :=
  match n with O => "" | S k => String "0" (zeros k) end.

Definition padStart (width : nat) (s : string) : string :=
  (zeros (width - String.length s) ++ s)%string.

Definition digits (n : Z) : string :=
  NilZero.string_of_uint (N.to_uint (Z.to_N n)).

Definition formatYear (y : Z) : string :=
  if ((0 <=? y) && (y <=? 9999))%Z then padStart 4 (digits y)
  else if (y <? 0)%Z then ("-" ++ padStart 6 (digits (- y)))%string
  else ("+" ++ padStart 6 (digits y))%string.

(** [dt.toISO()] in the UTC zone: [YYYY-MM-DDTHH:mm:ss.SSSZ]. *)
Definition toISO (d : DateTime) : string :=
  (formatYear (year d) ++ "-" ++ padStart 2 (digits (month d)) ++ "-"
   ++ padStart 2 (digits (day d)) ++ "T"
   ++ padStart 2 (digits (hour d)) ++ ":"
   ++ padStart 2 (digits (minute d)) ++ ":"
   ++ padStart 2 (digits (second d)) ++ "."
   ++ padStart 3 (digits (millisecond d)) ++ "Z")%string.

(** [dt.toFormat("yyyy")] and [dt.toFormat("LL")]. *)
Definition toFormat_yyyy (d : DateTime) : string := padStart 4 (digits (year d)).
Definition toFormat_LL (d : DateTime) : string := padStart 2 (digits (month d)).

(** *** Parsing *)

Definition digitValue (c : ascii) : option Z :=
  let n := nat_of_ascii c in
  if (Nat.leb 48 n && Nat.leb n 57)%bool then Some (Z.of_nat (n - 48)) else None.

(** Reads exactly [n] decimal digits. *)
Fixpoint readDigits (n : nat) (acc : Z) (s : string) : option (Z * string) :=
  match n with
  | O => Some (acc, s)
  | S k =>
      match s with
      | EmptyString => None
      | String c rest =>
          match digitValue c with
          | None => None
          | Some v => readDigits k (acc * 10 + v)%Z rest
          end
      end
  end.

Definition expect (c : ascii) (s : string) : option string :=
  match s with
  | String c' rest => if Ascii.eqb c c' then Some rest else None
  | EmptyString => None
  end.

Definition bind {A B : Type} (o : option A) (f : A -> option B) : option B :=
  match o with Some a => f a | None => None end.

(** [DateTime.fromISO(text, {zone: "utc"})] belongs to luxon, not to this
    repository, and reads every form of ISO 8601 (a date alone, a week or
    ordinal date, a local time, an offset, ...), giving the instant in
    UTC.  The functions of the engine that call it take it as a
    parameter of this type; [None] stands for luxon's invalid
    [DateTime]. *)
Definition reader : Type := string -> option DateTime.

(** The reading of the one form that [toISO] prints: the extended format
    with the [Z] designator, [YYYY-MM-DDTHH:mm:ss] followed by an optional
    [.SSS] and by [Z], for the years 0 to 9999.  On these texts it gives
    what [DateTime.fromISO] gives; it reads no other text.  The properties
    use it to say which instant such a text denotes, and as the reader
    when they evaluate the engine on texts of this form. *)
Definition readUTC : reader := fun s =>
  bind (readDigits 4 0 s) (fun '(y, s) =>
  bind (expect "-" s) (fun s =>
  bind (readDigits 2 0 s) (fun '(mo, s) =>
  bind (expect "-" s) (fun s =>
  bind (readDigits 2 0 s) (fun '(d, s) =>
  bind (expect "T" s) (fun s =>
  bind (readDigits 2 0 s) (fun '(h, s) =>
  bind (expect ":" s) (fun s =>
  bind (readDigits 2 0 s) (fun '(mi, s) =>
  bind (expect ":" s) (fun s =>
  bind (readDigits 2 0 s) (fun '(se, s) =>
  bind (match expect "." s with
        | Some s' => readDigits 3 0 s'
        | None => Some (0%Z, s)
        end) (fun '(ms, s) =>
  match s with
  | "Z" =>
      let d := mkDateTime y mo d h mi se ms in
      if isValid d then Some d else None
  | _ => None
  end)))))))))))).

(** The clock: each [DateTime.fromObject({}, {zone: "utc"})] reads it once.
    A clock is the sequence of readings still to come. *)
Record Clock : Type := mkClock { reading : nat -> DateTime; reads : nat }.

Definition now (c : Clock) : DateTime * Clock :=
  (reading c (reads c), mkClock (reading c) (S (reads c))).

(** *** Interval.splitBy *)

(** The loop of [Interval.splitBy(dur)] for [dur = {months: 1}]:
    [while (s < this.e) { added = this.start.plus(dur * idx);
       next = +added > +this.e ? this.e : added;
       results.push(Interval.fromDateTimes(s, next)); s = next; idx += 1 }].
    [None] when the fuel does not cover the loop. *)
Fixpoint splitByMonthLoop (fuel : nat) (start e s : DateTime) (idx : Z)
  : option (list (DateTime * DateTime)) :=
  if (toMillis s <? toMillis e)%Z then
    match fuel with
    | O => None
    | S fuel' =>
        let added := plusMonths start idx in
        let next := if (toMillis added >? toMillis e)%Z then e else added in
        option_map (cons (s, next))
                   (splitByMonthLoop fuel' start e next (idx + 1)%Z)
    end
  else Some [].

(** [Interval.fromDateTimes(start, end).splitBy({month: 1})]; an interval
    built from an invalid [DateTime], or whose end precedes its start, is
    invalid and splits into nothing. *)
Definition splitByMonth (fuel : nat) (start e : option DateTime)
  : option (list (DateTime * DateTime)) :=
  match start, e with
  | Some s, Some e' =>
      if (toMillis e' <? toMillis s)%Z then Some []
      else splitByMonthLoop fuel s e' s 1%Z
  | _, _ => Some []
  end.

End Luxon.

(* ===================================================================== *)
(** ** The document codec: serialize and deserialize *)
(* ===================================================================== *)

Module Codec.
Import JS Utils.

(** A JavaScript number carried through untouched by the codec. *)
Definition number := Z.

Record Framework : Type := mkFramework {
  fw_name : option string; fw_version : option string
}.

Record ActionInfo : Type := mkActionInfo {
  act_id : option string; act_type : string; act_verb : string;
  act_object : option string
}.

Record CostComponent : Type := mkCostComponent {
  cc_type : option string; cc_key : string; cc_amount : number
}.

(** *** The application-facing [Action] *)

Record Agent : Type := mkAgent {
  ag_id : option string; ag_type : string; ag_name : option string;
  ag_meta : option (obj json)
}.

Record Response : Type := mkResponse {
  rs_status : option string; rs_time : option number;
  rs_body : option (obj json); rs_headers : option (obj json)
}.

Record Change : Type := mkChange {
  ch_model : string; ch_operation : string;
  ch_id : option string; ch_path : option string;
  ch_before : option json; ch_after : option json;
  ch_meta : option (obj json)
}.

Record Cost : Type := mkCost {
  co_amount : number; co_currency : string;
  co_components : option (list CostComponent);
  co_meta : option (obj json)
}.

Record Action : Type := mkAction {
  a_id : option string;
  a_timestamp : string;
  a_companyId : option string;
  a_clientId : option string;
  a_app : option string;
  a_environment : option string;
  a_framework : option Framework;
  a_sessionId : option string;
  a_traceIds : option (list string);
  a_action : ActionInfo;
  a_agents : list Agent;
  a_targets : option (list Agent);
  a_request : option (obj json);
  a_response : option Response;
  a_changes : option (list Change);
  a_cost : option Cost;
  a_meta : option (obj json)
}.

(** *** The engine-facing [OpenSearchAction] *)

Record OsAgent : Type := mkOsAgent {
  os_ag_id : option string; os_ag_type : string; os_ag_name : option string;
  os_ag_meta : option (list KV)
}.

Record RequestEntry : Type := mkRequestEntry {
  rq_key : string; rq_parent : option string; rq_value : string
}.

Record OsResponse : Type := mkOsResponse {
  os_rs_status : option string; os_rs_time : option number;
  os_rs_body : option (list KV); os_rs_headers : option (list KV)
}.

Record OsChange : Type := mkOsChange {
  os_ch_model : string; os_ch_operation : string;
  os_ch_id : option string; os_ch_path : option string;
  os_ch_before : option string; os_ch_after : option string;
  os_ch_meta : option (list KV)
}.

Record OsCost : Type := mkOsCost {
  os_co_amount : number; os_co_currency : string;
  os_co_components : option (list CostComponent);
  os_co_meta : option (list KV)
}.

Record OpenSearchAction : Type := mkOpenSearchAction {
  os_id : option string;
  os_timestamp : string;
  os_companyId : option string;
  os_clientId : option string;
  os_app : option string;
  os_environment : option string;
  os_framework : option Framework;
  os_sessionId : option string;
  os_traceIds : option (list string);
  os_action : ActionInfo;
  os_agents : list OsAgent;
  os_targets : option (list OsAgent);
  os_request : option (list RequestEntry);
  os_response : option OsResponse;
  os_changes : option (list OsChange);
  os_cost : option OsCost;
  os_meta : option (list KV)
}.

(** *** serialize *)

(** [{...agent, meta: transformObjectToArray(agent.meta)}] *)
Definition serialize_agent (agent : Agent) : OsAgent :=
  mkOsAgent (ag_id agent) (ag_type agent) (ag_name agent)
            (transformObjectToArray (ag_meta agent)).

(** The body of the [flatMap] over [Object.entries(action.request)]. *)
Definition flatten_request_entry (kv : string * json) : list RequestEntry :=
  let '(k, v) := kv in
  match v with
  | JObj nested =>
      (* value !== null && typeof value === "object" && !Array.isArray(value) *)
      map (fun nkv =>
             let '(nestedKey, nestedValue) := nkv in
             mkRequestEntry nestedKey (Some k)
               (match nestedValue with
                | JStr s => s
                | _ => JSON_stringify (breakCircularReferences v)
                end))
          nested
  | _ => [mkRequestEntry k None (stringify_leaf v)]
  end.

(** [Object.entries(action.request).flatMap(...).filter((v) => v?.value)] *)
Definition serialize_request (request : obj json) : list RequestEntry :=
  filter (fun e => truthy_str (rq_value e))
         (flat_map flatten_request_entry request).

Definition serialize_response (r : Response) : OsResponse :=
  mkOsResponse (rs_status r) (rs_time r)
               (transformObjectToArray (rs_body r))
               (transformObjectToArray (rs_headers r)).

(** [x ? (typeof x === "string" ? x : JSON.stringify(...)) : undefined] *)
Definition serialize_before_after (x : option json) : option string :=
  match x with
  | Some v => if truthy v then Some (stringify_leaf v) else None
  | None => None
  end.

Definition serialize_change (change : Change) : OsChange :=
  mkOsChange (ch_model change) (ch_operation change)
             (ch_id change) (ch_path change)
             (serialize_before_after (ch_before change))
             (serialize_before_after (ch_after change))
             (transformObjectToArray (ch_meta change)).

Definition serialize_cost (c : Cost) : OsCost :=
  mkOsCost (co_amount c) (co_currency c) (co_components c)
           (transformObjectToArray (co_meta c)).

Definition serialize (action : Action) : OpenSearchAction :=
  mkOpenSearchAction
    (a_id action) (a_timestamp action) (a_companyId action)
    (a_clientId action) (a_app action) (a_environment action)
    (a_framework action) (a_sessionId action) (a_traceIds action)
    (a_action action)
    (map serialize_agent (a_agents action))
    (option_map (map serialize_agent) (a_targets action))
    (option_map serialize_request (a_request action))
    (option_map serialize_response (a_response action))
    (option_map (map serialize_change) (a_changes action))
    (option_map serialize_cost (a_cost action))
    (transformObjectToArray (a_meta action)).

(** *** deserialize *)

Definition deserialize_agent (agent : OsAgent) : Agent :=
  mkAgent (os_ag_id agent) (os_ag_type agent) (os_ag_name agent)
          (transformArrayToObject (os_ag_meta agent)).

(** One step of the [reduce] that rebuilds [request].  The accumulator only
    ever holds strings and the objects created here.  [None] says that
    the step does not end with the accumulator extended:
    - the module is strict code, so assigning a property on a string found
      at [obj[item.parent]] throws a [TypeError];
    - when the accumulator has no property [item.parent] of its own and
      that name is one every object inherits ([toString], [constructor],
      [__proto__], ...), [obj[item.parent]] is the inherited object, a
      method of [Object.prototype] or [Object.prototype] itself, and the
      entry is written there, to an object shared by every object of the
      program, or the write throws; this model does not follow it. *)
Definition unflatten_request_step (acc : option (obj json)) (item : RequestEntry)
  : option (obj json) :=
  match acc with
  | None => None
  | Some o =>
      if negb (truthy_opt (rq_parent item)) then
        Some (obj_assign o (rq_key item) (JStr (rq_value item)))
      else
        let p := match rq_parent item with Some p => p | None => "" end in
        if inherited p
           && match obj_get o p with Some _ => false | None => true end
        then None
        else
        let o1 :=
          match obj_get o p with
          | Some v => if truthy v then o else obj_set o p (JObj [])
          | None => obj_set o p (JObj [])
          end in
        match obj_get o1 p with
        | Some (JObj inner) =>
            Some (obj_set o1 p
                    (JObj (obj_assign inner (rq_key item)
                                      (JStr (rq_value item)))))
        | _ => None
        end
  end.

Definition deserialize_request (entries : list RequestEntry)
  : option (obj json) :=
  fold_left unflatten_request_step entries (Some []).

Definition deserialize_response (r : OsResponse) : Response :=
  mkResponse (os_rs_status r) (os_rs_time r)
             (transformArrayToObject (os_rs_body r))
             (transformArrayToObject (os_rs_headers r)).

Definition deserialize_change (change : OsChange) : Change :=
  mkChange (os_ch_model change) (os_ch_operation change)
           (os_ch_id change) (os_ch_path change)
           (option_map JStr (os_ch_before change))
           (option_map JStr (os_ch_after change))
           (transformArrayToObject (os_ch_meta change)).

Definition deserialize_cost (c : OsCost) : Cost :=
  mkCost (os_co_amount c) (os_co_currency c) (os_co_components c)
         (transformArrayToObject (os_co_meta c)).

(** [None] when rebuilding [request] gives [None]. *)
Definition deserialize (action : OpenSearchAction) : option Action :=
  match
    match os_request action with
    | None => Some None
    | Some entries => option_map Some (deserialize_request entries)
    end
  with
  | None => None
  | Some request =>
      Some (mkAction
              (os_id action) (os_timestamp action) (os_companyId action)
              (os_clientId action) (os_app action) (os_environment action)
              (os_framework action) (os_sessionId action) (os_traceIds action)
              (os_action action)
              (map deserialize_agent (os_agents action))
              (option_map (map deserialize_agent) (os_targets action))
              request
              (option_map deserialize_response (os_response action))
              (option_map (map deserialize_change) (os_changes action))
              (option_map deserialize_cost (os_cost action))
              (transformArrayToObject (os_meta action)))
  end.

End Codec.

(* ===================================================================== *)
(** ** The engine instance *)
(* ===================================================================== *)

Module Engine.

(** The configuration fields of [OpenSearchEngine] that the modelled methods
    read. *)
Record config : Type := mkConfig {
  _indexPattern : string;
  _defaultStartMonthsAgo : Z;
  _defaultPageSize : Z
}.

(** The field initialisers of the class. *)
Definition default : config :=
  mkConfig "actions_{companyId}_{year}_{month}" 6 25.

End Engine.

(* ===================================================================== *)
(** ** The filter compiler: buildFindManyQuery *)
(* ===================================================================== *)

Module Compiler.
Import JS Luxon Engine.

(** Query clauses of the search engine's DSL, as the compiler builds them. *)
#[local] Unset Elimination Schemes.
Inductive Query : Type :=
| Term (field : string) (v : json)           (* { term: { [field]: v } } *)
| Terms (field : string) (vs : list json)    (* { terms: { [field]: vs } } *)
| Range (field : string) (gte lt : option json)
| BoolMust (clauses : list Query)            (* { bool: { must: [...] } } *)
| BoolShould (clauses : list Query)          (* { bool: { should: [...] } } *)
| Nested (path : string) (query : Query).    (* { nested: { path, query } } *)
#[local] Set Elimination Schemes.

(** A filter that is either one value or an array of values. *)
Inductive oneOrMany (A : Type) : Type :=
| One (a : A)
| Many (l : list A).
Arguments One {A} a.
Arguments Many {A} l.

(** [Array.isArray(x) ? x : [x]] *)
Definition asArray {A : Type} (x : oneOrMany A) : list A :=
  match x with One a => [a] | Many l => l end.

Record FrameworkFilter : Type := mkFrameworkFilter {
  ff_name : option string; ff_version : option string
}.

Record ActionFilter : Type := mkActionFilter {
  af_id : option string; af_type : option string;
  af_verb : option string; af_object : option string
}.

(** The candidate shape shared by [agents] and [targets]. *)
Record EntityFilter : Type := mkEntityFilter {
  ef_id : option string; ef_type : option string; ef_name : option string;
  ef_meta : option (obj json)
}.

Record ChangeFilter : Type := mkChangeFilter {
  cf_model : option string; cf_operation : option string;
  cf_id : option string; cf_path : option string;
  cf_before : option string; cf_after : option string;
  cf_meta : option (obj json)
}.

Record TimeFilter : Type := mkTimeFilter {
  tf_gte : option Z; tf_lt : option Z
}.

Record ResponseFilter : Type := mkResponseFilter {
  rf_status : option (oneOrMany string);
  rf_time : option TimeFilter;
  rf_body : option (oneOrMany (obj json));
  rf_headers : option (oneOrMany (obj json))
}.

Record FindActionFilters : Type := mkFilters {
  companyId : string;
  start : option string;
  end_ : option string;
  id : option (oneOrMany string);
  clientId : option (oneOrMany string);
  app : option (oneOrMany string);
  environment : option (oneOrMany string);
  sessionId : option (oneOrMany string);
  traceIds : option (oneOrMany string);
  framework : option (oneOrMany FrameworkFilter);
  action : option (oneOrMany ActionFilter);
  agents : option (oneOrMany EntityFilter);
  targets : option (oneOrMany EntityFilter);
  request : option (oneOrMany (obj json));
  response : option ResponseFilter;
  changes : option (oneOrMany ChangeFilter);
  meta : option (oneOrMany (obj json));
  query : option string
}.

Record FindActionOptions : Type := mkOptions {
  page : option Z; limit : option Z;
  sortBy : option string; sortDirection : option string
}.

(** *** The two idioms the source repeats at every group *)

(** [xs.length === 1 ? xs[0] : { bool: { must: xs } }] *)
Definition collapseMust (xs : list Query) : Query :=
  match xs with [x] => x | _ => BoolMust xs end.

(** [xs.length === 1 ? xs[0] : { bool: { should: xs } }] *)
Definition collapseShould (xs : list Query) : Query :=
  match xs with [x] => x | _ => BoolShould xs end.

(** [if (xs.length) out.push(q)] *)
Definition pushIfAny (out xs : list Query) (q : Query) : list Query :=
  match xs with [] => out | _ => out ++ [q] end.

(** [if (xs.length === 1) out.push(xs[0]);
     else if (xs.length) out.push({ bool: { must: xs } })] *)
Definition pushMust (out xs : list Query) : list Query :=
  pushIfAny out xs (collapseMust xs).

Definition pushShould (out xs : list Query) : list Query :=
  pushIfAny out xs (collapseShould xs).

(** [if (o?.[key]) xs.push({ term: { [field]: o[key] } })] for a string
    property. *)
Definition termIfSet (field : string) (v : option string) : list Query :=
  match v with
  | Some s => if truthy_str s then [Term field (JStr s)] else []
  | None => []
  end.

(** *** Always-present clauses and scalar sets *)

(** [dt.toISO()], which is [null] on an invalid [DateTime]. *)
Definition toISO_json (d : option DateTime) : json :=
  match d with Some d' => JStr (toISO d') | None => JNull end.

Definition timestampRange (fromISO : reader) (cfg : config) (clock : Clock)
    (filters : FindActionFilters) : Query :=
  let '(gte, clock1) :=
    match start filters with
    | Some s =>
        if truthy_str s then (toISO_json (fromISO s), clock)
        else let '(t, c) := now clock in
             (JStr (toISO (minusMonths t (_defaultStartMonthsAgo cfg))), c)
    | None =>
        let '(t, c) := now clock in
        (JStr (toISO (minusMonths t (_defaultStartMonthsAgo cfg))), c)
    end in
  let lt :=
    match end_ filters with
    | Some s =>
        if truthy_str s then toISO_json (fromISO s)
        else JStr (toISO (fst (now clock1)))
    | None => JStr (toISO (fst (now clock1)))
    end in
  Range "timestamp" (Some gte) (Some lt).

Definition scalarField (filters : FindActionFilters) (key : string)
  : option (oneOrMany string) :=
  if String.eqb key "id" then id filters
  else if String.eqb key "clientId" then clientId filters
  else if String.eqb key "app" then app filters
  else if String.eqb key "environment" then environment filters
  else if String.eqb key "sessionId" then sessionId filters
  else if String.eqb key "traceIds" then traceIds filters
  else None.

(** [if (filters[key]) must.push({ terms: { [key]: asArray(filters[key]) } })] *)
Definition scalarSetClause (filters : FindActionFilters) (key : string)
  : list Query :=
  match scalarField filters key with
  | Some (One s) => if truthy_str s then [Terms key [JStr s]] else []
  | Some (Many l) => [Terms key (map JStr l)]
  | None => []
  end.

(** *** framework and action *)

Definition frameworkField (f : FrameworkFilter) (key : string) : option string :=
  if String.eqb key "name" then ff_name f
  else if String.eqb key "version" then ff_version f
  else None.

Definition frameworkMust (f : FrameworkFilter) : list Query :=
  flat_map (fun key => termIfSet ("framework." ++ key) (frameworkField f key))
           ["name"; "version"].

Definition frameworkClause (fs : oneOrMany FrameworkFilter) : list Query :=
  pushShould []
    (fold_left (fun frameworkShould f => pushMust frameworkShould (frameworkMust f))
               (asArray fs) []).

Definition actionField (a : ActionFilter) (key : string) : option string :=
  if String.eqb key "id" then af_id a
  else if String.eqb key "type" then af_type a
  else if String.eqb key "verb" then af_verb a
  else if String.eqb key "object" then af_object a
  else None.

Definition actionMust (a : ActionFilter) : list Query :=
  flat_map
    (fun key =>
       termIfSet ("action." ++
                  (if String.eqb key "object" then "object.keyword" else key))
                 (actionField a key))
    ["id"; "type"; "verb"; "object"].

Definition actionClause (acts : oneOrMany ActionFilter) : list Query :=
  pushShould []
    (fold_left (fun actionShould a => pushMust actionShould (actionMust a))
               (asArray acts) []).

(** *** agents and targets *)

Definition entityField (e : EntityFilter) (key : string) : option string :=
  if String.eqb key "id" then ef_id e
  else if String.eqb key "type" then ef_type e
  else if String.eqb key "name" then ef_name e
  else None.

(** The [forEach] over [Object.keys(x.meta)] that fills [xMetaMust]: two
    terms are pushed for every key, into one array. *)
Definition metaTerms (path : string) (m : obj json) : list Query :=
  flat_map (fun kv => let '(k, v) := kv in
                      [Term (path ++ ".key") (JStr k);
                       Term (path ++ ".value.keyword") v])
           m.

(** [if (x.meta && Object.keys(x.meta).length) { ...;
       if (xMetaMust.length) xMust.push({ nested: { path, query: ... } }) }] *)
Definition nestedMetaClause (path : string) (m : option (obj json))
  : list Query :=
  match m with
  | Some props =>
      match props with
      | [] => []
      | _ => pushIfAny [] (metaTerms path props)
               (Nested path (collapseMust (metaTerms path props)))
      end
  | None => []
  end.

Definition entityMust (entity : string) (e : EntityFilter) : list Query :=
  flat_map (fun key => termIfSet (entity ++ "." ++ key) (entityField e key))
           ["id"; "type"; "name"]
  ++ nestedMetaClause (entity ++ ".meta") (ef_meta e).

(** [if (xShould.length) must.push({ nested: { path: entity, query: ... } })] *)
Definition entityClause (entity : string) (es : oneOrMany EntityFilter)
  : list Query :=
  let entityShould :=
    fold_left (fun acc e => pushMust acc (entityMust entity e)) (asArray es) [] in
  pushIfAny [] entityShould (Nested entity (collapseShould entityShould)).

(** *** request *)

Fixpoint indexed (i : nat) (l : list json) : obj json :=
  match l with
  | [] => []
  | x :: rest => (NilZero.string_of_uint (Nat.to_uint i), x) :: indexed (S i) rest
  end.

(** The own enumerable properties of a value that is truthy and whose
    [typeof] is ["object"]: those of an object, or the indices of an
    array.  [None] for every other value. *)
Definition objectEntries (v : json) : option (obj json) :=
  match v with
  | JObj props => Some props
  | JArr elems => Some (indexed 0 elems)
  | _ => None
  end.

Definition requestMust (r : obj json) : list Query :=
  flat_map
    (fun kv =>
       let '(k, v) := kv in
       match objectEntries v with
       | Some inner =>
           (* it's a parent *)
           map (fun ikv =>
                  let '(innerKey, innerValue) := ikv in
                  Nested "request"
                    (BoolMust [Term "request.key" (JStr innerKey);
                               Term "request.parent" (JStr k);
                               Term "request.value.keyword" innerValue]))
               inner
       | None =>
           [Nested "request"
              (BoolMust [Term "request.key" (JStr k);
                         Term "request.value.keyword" v])]
       end)
    r.

Definition requestClause (rs : oneOrMany (obj json)) : list Query :=
  pushShould []
    (fold_left (fun requestShould r => pushMust requestShould (requestMust r))
               (asArray rs) []).

(** *** response *)

Definition responseStatus (s : option (oneOrMany string)) : list Query :=
  match s with
  | Some (Many l) => [Terms "response.status" (map JStr l)]
  | Some (One x) => if truthy_str x then [Term "response.status" (JStr x)] else []
  | None => []
  end.

Definition truthy_time (t : option Z) : bool :=
  match t with Some n => truthy_num n | None => false end.

Definition responseTime (t : option TimeFilter) : list Query :=
  match t with
  | Some tf =>
      if truthy_time (tf_gte tf) || truthy_time (tf_lt tf) then
        [Range "response.time"
           (if truthy_time (tf_gte tf) then option_map JNum (tf_gte tf) else None)
           (if truthy_time (tf_lt tf) then option_map JNum (tf_lt tf) else None)]
      else []
  | None => []
  end.

(** [body] and [headers]: every key of one map goes into one shared
    [nested] clause. *)
Definition responseMapClause (path : string) (ms : option (oneOrMany (obj json)))
  : list Query :=
  match ms with
  | Some maps =>
      pushShould []
        (fold_left
           (fun acc m =>
              pushIfAny acc (metaTerms path m)
                (Nested path (collapseMust (metaTerms path m))))
           (asArray maps) [])
  | None => []
  end.

Definition responseClause (r : ResponseFilter) : list Query :=
  pushMust []
    (responseStatus (rf_status r)
     ++ responseTime (rf_time r)
     ++ responseMapClause "response.body" (rf_body r)
     ++ responseMapClause "response.headers" (rf_headers r)).

(** *** changes *)

Definition changeField (c : ChangeFilter) (key : string) : option string :=
  if String.eqb key "model" then cf_model c
  else if String.eqb key "operation" then cf_operation c
  else if String.eqb key "id" then cf_id c
  else if String.eqb key "path" then cf_path c
  else if String.eqb key "before" then cf_before c
  else if String.eqb key "after" then cf_after c
  else None.

Definition changeMust (c : ChangeFilter) : list Query :=
  flat_map
    (fun key =>
       termIfSet ("changes." ++
                  (if existsb (String.eqb key) ["path"; "before"; "after"]
                   then key ++ ".keyword" else key))
                 (changeField c key))
    ["model"; "operation"; "id"; "path"; "before"; "after"]
  ++ nestedMetaClause "changes.meta" (cf_meta c).

Definition changesClause (cs : oneOrMany ChangeFilter) : list Query :=
  let changesShould :=
    fold_left (fun acc c => pushMust acc (changeMust c)) (asArray cs) [] in
  pushIfAny [] changesShould (Nested "changes" (collapseShould changesShould)).

(** *** meta *)

(** One independent [nested] clause per key. *)
Definition metaMust (m : obj json) : list Query :=
  map (fun kv => let '(k, v) := kv in
                 Nested "meta"
                   (BoolMust [Term "meta.key" (JStr k);
                              Term "meta.value.keyword" v]))
      m.

Definition metaClause (ms : oneOrMany (obj json)) : list Query :=
  pushShould []
    (fold_left (fun metaShould m => pushMust metaShould (metaMust m))
               (asArray ms) []).

(** *** The compiler *)

Definition whenSet {A : Type} (o : option A) (f : A -> list Query) : list Query :=
  match o with Some a => f a | None => [] end.

Definition buildFindManyQuery (fromISO : reader) (cfg : config)
    (clock : Clock) (options : FindActionOptions)
    (filters : FindActionFilters) : list Query :=
  [Term "companyId" (JStr (companyId filters));
   timestampRange fromISO cfg clock filters]
  ++ flat_map (scalarSetClause filters)
       ["id"; "clientId"; "app"; "environment"; "sessionId"; "traceIds"]
  ++ whenSet (framework filters) frameworkClause
  ++ whenSet (action filters) actionClause
  ++ whenSet (agents filters) (entityClause "agents")
  ++ whenSet (targets filters) (entityClause "targets")
  ++ whenSet (request filters) requestClause
  ++ whenSet (response filters) responseClause
  ++ whenSet (changes filters) changesClause
  ++ whenSet (meta filters) metaClause.

End Compiler.

(* ===================================================================== *)
(** ** The index router: getIndexName and getIndexNameRange *)
(* ===================================================================== *)

Module Router.
Import JS Luxon Engine.

(** What a replacement text stands for at one match of a pattern without
    capture groups: [$$] is a dollar sign, [$&] the matched text, [$`] the
    text before the match and [$'] the text after it; a dollar sign
    followed by anything else, and every other character, stands for
    itself. *)
Fixpoint substitution (rep matched before after : string) : string :=
  match rep with
  | EmptyString => EmptyString
  | String c tail =>
      if Ascii.eqb c "$" then
        match tail with
        | String d rest =>
            if Ascii.eqb d "$"
            then String "$" (substitution rest matched before after)
            else if Ascii.eqb d "&"
            then (matched ++ substitution rest matched before after)%string
            else if Ascii.eqb d "`"
            then (before ++ substitution rest matched before after)%string
            else if Ascii.eqb d "'"
            then (after ++ substitution rest matched before after)%string
            else String c (substitution tail matched before after)
        | EmptyString => String c EmptyString
        end
      else String c (substitution tail matched before after)
  end.

Fixpoint dropChars (n : nat) (s : string) : string :=
  match n, s with
  | S k, String _ rest => dropChars k rest
  | _, _ => s
  end.

(** [s.replace(/pat/g, rep)] for a literal, non-empty pattern [pat]: every
    occurrence, scanning left to right.  [seen] is the text already
    scanned and [skip] counts the characters of a matched occurrence still
    to be dropped. *)
Fixpoint replaceAllFrom (pat rep seen s : string) (skip : nat) : string :=
  match s with
  | EmptyString => EmptyString
  | String c rest =>
      match skip with
      | S k => replaceAllFrom pat rep (seen ++ String c "") rest k
      | O =>
          if String.prefix pat s
          then (substitution rep pat seen (dropChars (String.length pat) s)
                ++ replaceAllFrom pat rep (seen ++ String c "") rest
                     (String.length pat - 1))%string
          else String c (replaceAllFrom pat rep (seen ++ String c "") rest 0)
      end
  end.

Definition replaceAll (pat rep s : string) : string :=
  replaceAllFrom pat rep "" s 0.

Definition fillPattern (cfg : config) (company yyyy mm : string) : string :=
  replaceAll "{month}" mm
    (replaceAll "{year}" yyyy
       (replaceAll "{companyId}" company (_indexPattern cfg))).

(** [getIndexName(action)].  [new Date(action.timestamp)] is modelled on
    the timestamps of the form that [toISO] prints, which [Luxon.readUTC]
    reads as [Date] does; every other text counts as an invalid date here,
    on which both getters give [NaN]. *)
Definition getIndexName (cfg : config) (timestamp : string)
    (company : option string) : string :=
  let '(yearText, monthText) :=
    match readUTC timestamp with
    | Some d =>
        let m := digits (month d) in
        (digits (year d),
         if Nat.eqb (String.length m) 1 then ("0" ++ m)%string else m)
    | None => ("NaN", "NaN")
    end in
  fillPattern cfg
    (match company with Some c => if truthy_str c then c else "" | None => "" end)
    yearText monthText.

(** The number of month steps that certainly covers the loop of
    [splitBy] between two dates. *)
Definition monthSpan (s e : option DateTime) : nat :=
  match s, e with
  | Some s', Some e' =>
      Z.to_nat ((year e' - year s') * 12 + (month e' - month s') + 2)
  | _, _ => O
  end.

(** [getIndexNameRange({companyId, start, end})]; [None] only if the
    bound [monthSpan] did not cover the loop. *)
Definition getIndexNameRange (fromISO : reader) (cfg : config)
    (clock : Clock) (company : string) (start_ end_ : option string)
  : option string :=
  let '(startDate, clock1) :=
    match start_ with
    | Some s =>
        if truthy_str s then (fromISO s, clock)
        else let '(t, c) := now clock in
             (Some (minusMonths t (_defaultStartMonthsAgo cfg)), c)
    | None =>
        let '(t, c) := now clock in
        (Some (minusMonths t (_defaultStartMonthsAgo cfg)), c)
    end in
  let endDate :=
    match end_ with
    | Some s => if truthy_str s then fromISO s else Some (fst (now clock1))
    | None => Some (fst (now clock1))
    end in
  option_map
    (fun intervals =>
       String.concat ","
         (map (fun d : DateTime * DateTime =>
                 fillPattern cfg company
                   (toFormat_yyyy (snd d)) (toFormat_LL (snd d)))
              intervals))
    (splitByMonth (monthSpan startDate endDate) startDate endDate).

End Router.

(* ===================================================================== *)
(** ** The schema of a stored action (action.ts) *)
(* ===================================================================== *)

Module Schema.
Import JS.

(** The zod combinators used by [OpenSearchActionSchema], as checks on a
    raw value.  An object schema accepts unknown keys. *)
Definition z_string (v : json) : bool := is_string v.

Definition z_number (v : json) : bool :=
  match v with JNum _ => true | _ => false end.

Definition z_array (elem : json -> bool) (v : json) : bool :=
  match v with JArr l => forallb elem l | _ => false end.

Definition z_object (fields : obj json -> bool) (v : json) : bool :=
  match v with JObj o => fields o | _ => false end.

Definition required (o : obj json) (k : string) (check : json -> bool) : bool :=
  match obj_get o k with Some v => check v | None => false end.

Definition optional (o : obj json) (k : string) (check : json -> bool) : bool :=
  match obj_get o k with Some v => check v | None => true end.

Definition keyValueSchema : json -> bool :=
  z_object (fun o => required o "key" z_string && required o "value" z_string).

Definition entitySchema : json -> bool :=
  z_object (fun o =>
    optional o "id" z_string && required o "type" z_string
    && optional o "name" z_string
    && optional o "meta" (z_array keyValueSchema)).

Definition OpenSearchActionSchema : json -> bool :=
  z_object (fun o =>
    optional o "id" z_string
    && required o "timestamp" z_string
    && optional o "companyId" z_string
    && optional o "clientId" z_string
    && optional o "app" z_string
    && optional o "environment" z_string
    && optional o "framework"
         (z_object (fun f =>
            optional f "name" z_string && optional f "version" z_string))
    && optional o "sessionId" z_string
    && optional o "traceIds" (z_array z_string)
    && required o "action"
         (z_object (fun a =>
            optional a "id" z_string && required a "type" z_string
            && required a "verb" z_string && optional a "object" z_string))
    && required o "agents" (z_array entitySchema)
    && optional o "targets" (z_array entitySchema)
    && optional o "request"
         (z_array (z_object (fun r =>
            required r "key" z_string && optional r "parent" z_string
            && required r "value" z_string)))
    && optional o "response"
         (z_object (fun r =>
            optional r "status" z_string && optional r "time" z_number
            && optional r "body" (z_array keyValueSchema)
            && optional r "headers" (z_array keyValueSchema)))
    && optional o "changes"
         (z_array (z_object (fun c =>
            required c "model" z_string && required c "operation" z_string
            && optional c "id" z_string && optional c "path" z_string
            && optional c "before" z_string && optional c "after" z_string
            && optional c "meta" (z_array keyValueSchema))))
    && optional o "cost"
         (z_object (fun c =>
            required c "amount" z_number && required c "currency" z_string
            && optional c "components"
                 (z_array (z_object (fun p =>
                    optional p "type" z_string && required p "key" z_string
                    && required p "amount" z_number)))
            && optional c "meta" (z_array keyValueSchema)))
    && optional o "meta" (z_array keyValueSchema)).

End Schema.

(* ===================================================================== *)
(** ** The engine facade: create and createMany *)
(* ===================================================================== *)

Module Facade.
Import JS Engine.

(** What the engine asks of the search client. *)
Inductive clientRequest : Type :=
| IndexRequest (id : json) (index : string) (body : json) (refresh : bool)
| BulkRequest (body : list json).

(** The world around the engine: the UUID generator behind [v4()], the
    requests sent to the client so far, and whether the cluster accepts a
    request. *)
Record world : Type := mkWorld {
  uuid : nat -> string;
  drawn : nat;
  sent : list clientRequest;
  accepts : clientRequest -> bool
}.

(** How an [async] method settles. *)
Inductive outcome (A : Type) : Type :=
| Resolved (a : A)
| ValidationError        (* [OpenSearchActionSchema.parse] threw *)
| ClientError.           (* the client call failed and the promise rejects *)
Arguments Resolved {A} a.
Arguments ValidationError {A}.
Arguments ClientError {A}.

(** What the caller of a method gets when the call comes back: the value
    the method returned, or the exception it threw.  An [async] method
    never throws at its caller: it returns a promise at once, and what its
    body throws rejects that promise. *)
Inductive completion (A : Type) : Type :=
| Returns (promise : outcome A)
| Throws.
Arguments Returns {A} promise.
Arguments Throws {A}.

(** The call of an [async] method whose body settles as [settled]. *)
Definition async {A : Type} (settled : outcome A * world)
  : completion A * world :=
  (Returns (fst settled), snd settled).

(** [v4()] *)
Definition v4 (w : world) : string * world :=
  (uuid w (drawn w), mkWorld (uuid w) (S (drawn w)) (sent w) (accepts w)).

Definition send (w : world) (r : clientRequest) : bool * world :=
  (accepts w r, mkWorld (uuid w) (drawn w) (sent w ++ [r]) (accepts w)).

(** A property of a validated action read as an optional string. *)
Definition stringProp (action : json) (k : string) : option string :=
  match action with
  | JObj o => match obj_get o k with Some (JStr s) => Some s | _ => None end
  | _ => None
  end.

(** [action.id || id] *)
Definition idOrFresh (action : json) (fresh : string) : json :=
  match stringProp action "id" with
  | Some s => if truthy_str s then JStr s else JStr fresh
  | None => JStr fresh
  end.

(** [{ ...action, id: action.id || id }] *)
Definition withId (action : json) (fresh : string) : json :=
  match action with
  | JObj o => JObj (obj_set o "id" (idOrFresh action fresh))
  | _ => JObj [("id", idOrFresh action fresh)]
  end.

Definition getIndexName (cfg : config) (action : json) : string :=
  Router.getIndexName cfg
    (match stringProp action "timestamp" with Some t => t | None => "" end)
    (stringProp action "companyId").

Definition create (cfg : config) (w : world) (action : json)
  : outcome json * world :=
  (* validate *)
  if negb (Schema.OpenSearchActionSchema action) then (ValidationError, w)
  else
    let '(fresh, w1) := v4 w in
    let body := withId action fresh in
    let '(ok, w2) :=
      send w1 (IndexRequest (idOrFresh action fresh)
                            (getIndexName cfg action) body true) in
    if ok then (Resolved body, w2) else (ClientError, w2).

(** The [forEach] of [createMany]: it fills [bulk] and [dbActions], and a
    failed validation throws out of the whole loop. *)
Fixpoint collectBulk (cfg : config) (w : world) (actions : list json)
    (bulk dbActions : list json) : option (list json * list json) * world :=
  match actions with
  | [] => (Some (bulk, dbActions), w)
  | action :: rest =>
      if negb (Schema.OpenSearchActionSchema action) then (None, w)
      else
        let '(fresh, w1) := v4 w in
        let body := withId action fresh in
        collectBulk cfg w1 rest
          (bulk ++ [JObj [("index",
                           JObj [("_index", JStr (getIndexName cfg action));
                                 ("_id", idOrFresh action fresh)])];
                    body])
          (dbActions ++ [body])
  end.

Definition createMany (cfg : config) (w : world) (actions : list json)
  : outcome (list json) * world :=
  match collectBulk cfg w actions [] [] with
  | (None, w1) => (ValidationError, w1)
  | (Some (bulk, dbActions), w1) =>
      let '(ok, w2) := send w1 (BulkRequest bulk) in
      if ok then (Resolved dbActions, w2) else (ClientError, w2)
  end.

End Facade.

(* ===================================================================== *)
(** ** Predicates used to state the properties *)
(* ===================================================================== *)

Module Spec.
Import JS Compiler.

(** A clause tree in which every [bool.must] and [bool.should] array holds
    at least two clauses. *)
Fixpoint wellCollapsed (q : Query) : bool :=
  match q with
  | BoolMust qs | BoolShould qs =>
      Nat.leb 2 (List.length qs) && forallb wellCollapsed qs
  | Nested _ q' => wellCollapsed q'
  | Term _ _ | Terms _ _ | Range _ _ _ => true
  end.

(** [filters] with its free-text [query] replaced. *)
Definition withQuery (filters : FindActionFilters) (q : option string)
  : FindActionFilters :=
  mkFilters (companyId filters) (start filters) (end_ filters) (id filters)
    (clientId filters) (app filters) (environment filters)
    (sessionId filters) (traceIds filters) (framework filters)
    (action filters) (agents filters) (targets filters) (request filters)
    (response filters) (changes filters) (meta filters) q.

(** A filter that carries nothing but the company. *)
Definition onlyCompany (company : string) : FindActionFilters :=
  mkFilters company None None None None None None None None None None None
            None None None None None None.


(** The per-key clause the metadata combinator is specified to emit. *)
Definition perKeyClause (path : string) (kv : string * json) : Query :=
  Nested path (BoolMust [Term (path ++ ".key") (JStr (fst kv));
                         Term (path ++ ".value.keyword") (snd kv)]).

(** *** The bounds of the timestamp range, in the words of the
    specification *)

(** The bound the filters give: a text that is not empty.  An absent bound
    and an empty one both leave the default in place. *)
Definition given (bound : option string) : option string :=
  match bound with
  | Some s => if truthy_str s then Some s else None
  | None => None
  end.



(** *** Singleton collapse, in the words of the specification *)

(** What a group of clauses emits: nothing when it holds no clause, its one
    clause bare, and the boolean combinator around two clauses or more. *)
Definition collapsed (combinator : list Query -> Query) (group : list Query)
  : list Query :=
  match group with
  | [] => []
  | [x] => [x]
  | _ => [combinator group]
  end.

(** An AND group and an OR group. *)
Definition allOf : list Query -> list Query := collapsed BoolMust.
Definition anyOf : list Query -> list Query := collapsed BoolShould.

(** What a group emits, wrapped in [nested(path)]. *)
Definition within (path : string) (group : list Query) : list Query :=
  map (Nested path) group.

(** The OR group over the candidates of a filter, each candidate being the
    AND group of the clauses [clausesOf] reads from it. *)
Definition anyCandidate {A : Type} (clausesOf : A -> list Query)
    (candidates : oneOrMany A) : list Query :=
  anyOf (flat_map (fun candidate => allOf (clausesOf candidate))
                  (asArray candidates)).

(** The AND group of the terms of one metadata sub-filter, under its
    nested path. *)
Definition metaGroup (path : string) (m : option (obj json)) : list Query :=
  match m with
  | Some props => within path (allOf (metaTerms path props))
  | None => []
  end.

(** The OR group over the maps of [response.body] or [response.headers],
    each map being a metadata sub-filter. *)
Definition mapsGroup (path : string) (ms : option (oneOrMany (obj json)))
  : list Query :=
  match ms with
  | Some maps =>
      anyOf (flat_map (fun m => metaGroup path (Some m)) (asArray maps))
  | None => []
  end.

(** The AND group of the [response] filter. *)
Definition responseGroup (r : ResponseFilter) : list Query :=
  allOf (responseStatus (rf_status r)
         ++ responseTime (rf_time r)
         ++ mapsGroup "response.body" (rf_body r)
         ++ mapsGroup "response.headers" (rf_headers r)).

(** The whole list, group by group: the always-present clauses, the scalar
    sets, and then every filter as the groups the specification describes. *)
Definition groupedClauses (fromISO : Luxon.reader) (cfg : Engine.config)
    (clock : Luxon.Clock) (filters : FindActionFilters) : list Query :=
  [Term "companyId" (JStr (companyId filters));
   timestampRange fromISO cfg clock filters]
  ++ flat_map (scalarSetClause filters)
       ["id"; "clientId"; "app"; "environment"; "sessionId"; "traceIds"]
  ++ whenSet (framework filters) (anyCandidate frameworkMust)
  ++ whenSet (action filters) (anyCandidate actionMust)
  ++ whenSet (agents filters)
       (fun es => within "agents" (anyCandidate (entityMust "agents") es))
  ++ whenSet (targets filters)
       (fun es => within "targets" (anyCandidate (entityMust "targets") es))
  ++ whenSet (request filters) (anyCandidate requestMust)
  ++ whenSet (response filters) responseGroup
  ++ whenSet (changes filters)
       (fun cs => within "changes" (anyCandidate changeMust cs))
  ++ whenSet (meta filters) (anyCandidate metaMust).

(** The number a string of decimal digits denotes. *)
Fixpoint digitsValue (s : string) (acc : Z) : option Z :=
  match s with
  | EmptyString => Some acc
  | String c rest =>
      match Luxon.digitValue c with
      | Some v => digitsValue rest (acc * 10 + v)%Z
      | None => None
      end
  end.

(** [n], printed and padded to [width], has [width] digits and reads back
    as [n]. *)
Definition padReadsBack (width : nat) (n : Z) : bool :=
  let p := Luxon.padStart width (Luxon.digits n) in
  Nat.eqb (String.length p) width
  && match digitsValue p 0 with Some v => (v =? n)%Z | None => false end.

(** A clock that always shows 2024-10-15T01:02:03.004Z. *)
Definition sampleClock : Luxon.Clock :=
  Luxon.mkClock (fun _ => Luxon.mkDateTime 2024 10 15 1 2 3 4) 0.

(** A property of a raw action. *)
Definition prop (v : json) (k : string) : option json :=
  match v with JObj o => obj_get o k | _ => None end.

(** [body] has the properties of [action], except possibly [id]. *)
Definition sameButId (action body : json) : Prop :=
  forall k : string, k <> "id" -> prop body k = prop action k.

(** The [id] of [body]: the non-empty [id] of [action] when it has one,
    the generated one when [action] has no [id] or an empty one. *)
Definition idSettled (action body : json) (fresh : string) : Prop :=
  (forall s : string,
      Facade.stringProp action "id" = Some s -> s <> "" ->
      prop body "id" = Some (JStr s))
  /\ (Facade.stringProp action "id" = None
      \/ Facade.stringProp action "id" = Some "" ->
      prop body "id" = Some (JStr fresh)).

(** The header the bulk body carries in front of a document. *)
Definition bulkHeader (cfg : Engine.config) (action : json) (fresh : string)
  : json :=
  JObj [("index",
         JObj [("_index", JStr (Facade.getIndexName cfg action));
               ("_id", Facade.idOrFresh action fresh)])].

(** A smallest action the schema accepts, without and with an [id]. *)
Definition minimalAction : json :=
  JObj [("timestamp", JStr "2024-07-01T00:00:00Z");
        ("action", JObj [("type", JStr "HTTP"); ("verb", JStr "GET")]);
        ("agents", JArr [])].

Definition actionWithId (i : string) : json :=
  JObj [("id", JStr i);
        ("timestamp", JStr "2024-07-01T00:00:00Z");
        ("action", JObj [("type", JStr "HTTP"); ("verb", JStr "GET")]);
        ("agents", JArr [])].

(** Not an action: [timestamp] is missing. *)
Definition invalidAction : json :=
  JObj [("action", JObj [("type", JStr "HTTP"); ("verb", JStr "GET")]);
        ("agents", JArr [])].

(** A world whose generator yields ["uuid-0"], ["uuid-1"], ... and whose
    cluster accepts every request. *)
Definition sampleWorld : Facade.world :=
  Facade.mkWorld
    (fun n => ("uuid-" ++ NilZero.string_of_uint (Nat.to_uint n))%string)
    0 [] (fun _ => true).

(** *** Stores that hold a tree *)

(** Two lists related element by element. *)
Fixpoint all2 {A B : Type} (R : A -> B -> Prop) (l : list A) (l' : list B)
    {struct l'} : Prop :=
  match l', l with
  | [], [] => True
  | b :: r', a :: r => R a b /\ all2 R r r'
  | _, _ => False
  end.

(** The value [v] of the store [st] is the tree [t]: its objects and
    arrays are cells of the store whose contents are, in turn, the
    subtrees of [t]. *)
Fixpoint represents (st : Cyclic.store) (v : Cyclic.value) (t : json)
    {struct t} : Prop :=
  match t with
  | JNull => v = Cyclic.VPrim Cyclic.PNull
  | JBool b => v = Cyclic.VPrim (Cyclic.PBool b)
  | JNum n => v = Cyclic.VPrim (Cyclic.PNum n)
  | JStr s => v = Cyclic.VPrim (Cyclic.PStr s)
  | JArr ts =>
      exists a elems,
        v = Cyclic.VRef a /\ nth_error st a = Some (Cyclic.CArr elems)
        /\ all2 (fun e t' => represents st e t') elems ts
  | JObj tprops =>
      exists a props,
        v = Cyclic.VRef a /\ nth_error st a = Some (Cyclic.CObj props)
        /\ all2 (fun (kv : string * Cyclic.value) (kt : string * json) =>
                   let '(k', t') := kt in
                   fst kv = k' /\ represents st (snd kv) t')
                props tprops
  end.

(** The number of nodes of a tree. *)
Fixpoint jsize (t : json) : nat :=
  match t with
  | JArr ts => S (list_sum (map jsize ts))
  | JObj props => S (list_sum (map (fun kv => let '(_, x) := kv in jsize x) props))
  | _ => 1
  end.

(** The fresh value that is the copy of a tree. *)
Fixpoint json_result (t : json) : Cyclic.result :=
  match t with
  | JNull => Cyclic.RPrim Cyclic.PNull
  | JBool b => Cyclic.RPrim (Cyclic.PBool b)
  | JNum n => Cyclic.RPrim (Cyclic.PNum n)
  | JStr s => Cyclic.RPrim (Cyclic.PStr s)
  | JArr ts => Cyclic.RArr (map json_result ts)
  | JObj props => Cyclic.RObj (map (fun kv => let '(k, x) := kv in (k, json_result x)) props)
  end.

Definition jmap (o : obj json) : obj Cyclic.result :=
  map (fun kv => let '(k, x) := kv in (k, json_result x)) o.

(** Every entry of [parents] is an object or array of the store that
    strictly contains [t]. *)
Definition ancestorsOf (st : Cyclic.store) (parents : list Cyclic.value)
    (t : json) : Prop :=
  forall p, In p parents -> exists tp, represents st p tp /\ jsize t < jsize tp.

(** [{a: 1, b: ["x", {c: null}]}] laid out in a store. *)
Definition st_tree : Cyclic.store :=
  [Cyclic.CObj [("a", Cyclic.VPrim (Cyclic.PNum 1)); ("b", Cyclic.VRef 1)];
   Cyclic.CArr [Cyclic.VPrim (Cyclic.PStr "x"); Cyclic.VRef 2];
   Cyclic.CObj [("c", Cyclic.VPrim Cyclic.PNull)]].

Definition tree_sample : json :=
  JObj [("a", JNum 1); ("b", JArr [JStr "x"; JObj [("c", JNull)]])].

(** *** Round trip of the codec *)

(** No key occurs twice. *)
Fixpoint distinct (l : list string) : bool :=
  match l with
  | [] => true
  | x :: rest => negb (existsb (String.eqb x) rest) && distinct rest
  end.

(** A value whose objects, at every depth, have distinct keys, as every
    JavaScript object does. *)
Fixpoint wfJson (v : json) : bool :=
  match v with
  | JArr elems => forallb wfJson elems
  | JObj props =>
      distinct (map fst props)
      && forallb (fun kv => let '(_, x) := kv in wfJson x) props
  | _ => true
  end.

Definition wfMap (m : option (obj json)) : bool :=
  match m with Some props => wfJson (JObj props) | None => true end.

Definition wfOpt {A : Type} (f : A -> bool) (o : option A) : bool :=
  match o with Some a => f a | None => true end.

Definition wfAgent (g : Codec.Agent) : bool := wfMap (Codec.ag_meta g).

Definition wfChange (c : Codec.Change) : bool :=
  wfOpt wfJson (Codec.ch_before c) && wfOpt wfJson (Codec.ch_after c)
  && wfMap (Codec.ch_meta c).

(** A well-formed [Action]: its maps are JavaScript objects. *)
Definition wfAction (a : Codec.Action) : bool :=
  forallb wfAgent (Codec.a_agents a)
  && wfOpt (forallb wfAgent) (Codec.a_targets a)
  && wfMap (Codec.a_request a)
  && wfOpt (fun r => wfMap (Codec.rs_body r) && wfMap (Codec.rs_headers r))
           (Codec.a_response a)
  && wfOpt (forallb wfChange) (Codec.a_changes a)
  && wfOpt (fun c => wfMap (Codec.co_meta c)) (Codec.a_cost a)
  && wfMap (Codec.a_meta a).

(** *** Keys and numbers the model covers *)

Definition notInherited (k : string) : bool := negb (inherited k).

Definition notProto (k : string) : bool := negb (String.eqb k "__proto__").

(** A value whose JSON text the model prints as [JSON.stringify] does, and
    that [breakCircularReferences] copies whole: its numbers are integers
    of magnitude below [10^21], and none of its objects has a key
    [__proto__]. *)
Fixpoint ordinaryJson (v : json) : bool :=
  match v with
  | JNum n => (Z.abs n <? 10 ^ 21)%Z
  | JArr elems => forallb ordinaryJson elems
  | JObj props =>
      forallb (fun kv => let '(k, x) := kv in notProto k && ordinaryJson x)
              props
  | _ => true
  end.

Definition ordinaryMap (m : option (obj json)) : bool :=
  match m with Some props => ordinaryJson (JObj props) | None => true end.

(** A map none of whose own keys is [__proto__]. *)
Definition protoFree (m : option (obj json)) : bool :=
  match m with
  | Some props => forallb (fun kv => notProto (fst kv)) props
  | None => true
  end.

Definition ordinaryAgent (g : Codec.Agent) : bool :=
  ordinaryMap (Codec.ag_meta g).

Definition ordinaryChange (c : Codec.Change) : bool :=
  wfOpt ordinaryJson (Codec.ch_before c)
  && wfOpt ordinaryJson (Codec.ch_after c)
  && ordinaryMap (Codec.ch_meta c).

(** An entry of [request]: its key is not [__proto__], and when its value
    is an object, which [deserialize] looks up by that key, the key is no
    inherited name at all. *)
Definition ordinaryRequestEntry (kv : string * json) : bool :=
  notProto (fst kv) && ordinaryJson (snd kv)
  && match snd kv with JObj _ => notInherited (fst kv) | _ => true end.

(** An [Action] whose maps have ordinary keys and values. *)
Definition ordinaryAction (a : Codec.Action) : bool :=
  forallb ordinaryAgent (Codec.a_agents a)
  && wfOpt (forallb ordinaryAgent) (Codec.a_targets a)
  && wfOpt (forallb ordinaryRequestEntry) (Codec.a_request a)
  && wfOpt (fun r => ordinaryMap (Codec.rs_body r)
                     && ordinaryMap (Codec.rs_headers r))
           (Codec.a_response a)
  && wfOpt (forallb ordinaryChange) (Codec.a_changes a)
  && wfOpt (fun c => ordinaryMap (Codec.co_meta c)) (Codec.a_cost a)
  && ordinaryMap (Codec.a_meta a).

(** What [serialize] would drop: an empty string in [request], a nested
    [request] object that is empty or whose name is empty, and a falsy
    [before] or [after]. *)
Definition leafKept (v : json) : bool :=
  match v with JStr s => truthy_str s | _ => true end.

Definition requestEntryKept (kv : string * json) : bool :=
  match snd kv with
  | JStr s => truthy_str s
  | JObj inner =>
      truthy_str (fst kv)
      && match inner with [] => false | _ => true end
      && forallb (fun nkv => leafKept (snd nkv)) inner
  | _ => true
  end.

Definition beforeAfterKept (x : option json) : bool :=
  match x with Some v => truthy v | None => true end.

Definition nothingDropped (a : Codec.Action) : bool :=
  wfOpt (forallb requestEntryKept) (Codec.a_request a)
  && wfOpt (forallb (fun c => beforeAfterKept (Codec.ch_before c)
                              && beforeAfterKept (Codec.ch_after c)))
           (Codec.a_changes a).

(** The JSON-string form of a leaf: a string as it is, anything else as
    its JSON text. *)
Definition jsonText (v : json) : string :=
  match v with JStr s => s | _ => JSON_stringify v end.

Definition stringifiedMap (m : obj json) : obj json :=
  map (fun kv => (fst kv, JStr (jsonText (snd kv)))) m.











(** What the round trip makes of each part of an action. *)
Definition imageAgent (g : Codec.Agent) : Codec.Agent :=
  Codec.mkAgent (Codec.ag_id g) (Codec.ag_type g) (Codec.ag_name g)
                (option_map stringifiedMap (Codec.ag_meta g)).

(** The text kept for a leaf one level down in [request]: a string as it
    is; for any other leaf, a JSON text (the one of [parent]). *)
Definition nestedText (parent : json) (nkv : string * json) : string :=
  match snd nkv with JStr s => s | _ => JSON_stringify parent end.

Definition imageRequestEntry (kv : string * json) : string * json :=
  (fst kv,
   match snd kv with
   | JObj inner =>
       JObj (map (fun nkv => (fst nkv, JStr (nestedText (snd kv) nkv))) inner)
   | v => JStr (jsonText v)
   end).

Definition imageResponse (r : Codec.Response) : Codec.Response :=
  Codec.mkResponse (Codec.rs_status r) (Codec.rs_time r)
    (option_map stringifiedMap (Codec.rs_body r))
    (option_map stringifiedMap (Codec.rs_headers r)).

Definition imageChange (c : Codec.Change) : Codec.Change :=
  Codec.mkChange (Codec.ch_model c) (Codec.ch_operation c)
    (Codec.ch_id c) (Codec.ch_path c)
    (option_map (fun v => JStr (jsonText v)) (Codec.ch_before c))
    (option_map (fun v => JStr (jsonText v)) (Codec.ch_after c))
    (option_map stringifiedMap (Codec.ch_meta c)).

Definition imageCost (c : Codec.Cost) : Codec.Cost :=
  Codec.mkCost (Codec.co_amount c) (Codec.co_currency c)
    (Codec.co_components c) (option_map stringifiedMap (Codec.co_meta c)).

Definition imageAction (a : Codec.Action) : Codec.Action :=
  Codec.mkAction
    (Codec.a_id a) (Codec.a_timestamp a) (Codec.a_companyId a)
    (Codec.a_clientId a) (Codec.a_app a) (Codec.a_environment a)
    (Codec.a_framework a) (Codec.a_sessionId a) (Codec.a_traceIds a)
    (Codec.a_action a)
    (map imageAgent (Codec.a_agents a))
    (option_map (map imageAgent) (Codec.a_targets a))
    (option_map (map imageRequestEntry) (Codec.a_request a))
    (option_map imageResponse (Codec.a_response a))
    (option_map (map imageChange) (Codec.a_changes a))
    (option_map imageCost (Codec.a_cost a))
    (option_map stringifiedMap (Codec.a_meta a)).

(** The action of the repository's mock, with a number among the metadata
    of its first agent. *)
Definition sampleAction : Codec.Action :=
  Codec.mkAction None "2024-07-01T00:00:00.000Z" (Some "company123")
    (Some "client456") (Some "testApp") (Some "production")
    (Some (Codec.mkFramework (Some "elastic") (Some "18.2.0")))
    (Some "session789") (Some ["trace1"; "trace2"])
    (Codec.mkActionInfo (Some "action123") "USER_ACTION" "CLICK"
                        (Some "BUTTON"))
    [Codec.mkAgent (Some "agent1") "pwn" (Some "anyi")
                   (Some [("role", JStr "user"); ("age", JNum 30)]);
     Codec.mkAgent (Some "agent2") "pwn" (Some "snickers")
                   (Some [("version", JStr "1.0")])]
    (Some [Codec.mkAgent (Some "target1") "stuff" (Some "target")
                         (Some [("location", JStr "header")])])
    (Some [("url", JStr "/api/submit"); ("method", JStr "POST");
           ("body", JObj [("data", JStr "test")])])
    (Some (Codec.mkResponse (Some "200") (Some 150%Z)
             (Some [("result", JStr "success")])
             (Some [("Content-Type", JStr "application/json")])))
    (Some [Codec.mkChange "model" "update" (Some "model_123")
             (Some "/status") (Some (JStr "pending"))
             (Some (JStr "completed")) (Some [("eye", JStr "ball")])])
    (Some (Codec.mkCost 45%Z "USD"
             (Some [Codec.mkCostComponent (Some "gpt-4o-mini")
                                          "promptTokens" 26%Z])
             (Some [("promptTokens", JStr "1733")])))
    (Some [("importance", JStr "high")]).

(** A smallest action with the given [request] and [meta]. *)
Definition bareAction (request meta : option (obj json)) : Codec.Action :=
  Codec.mkAction None "2024-07-01T00:00:00.000Z" None None None None None
    None None (Codec.mkActionInfo None "HTTP" "GET" None) [] None
    request None None None meta.


End Spec.

(* ===================================================================== *)
(** ** Predicates for the laws of utils.ts *)
(* ===================================================================== *)

Module Laws.
Import JS Utils.

(** The last item of a list that carries the key [k]. *)
Fixpoint lastWithKey (arr : list KV) (k : string) : option KV :=
  match arr with
  | [] => None
  | item :: rest =>
      match lastWithKey rest k with
      | Some later => Some later
      | None => if String.eqb (key item) k then Some item else None
      end
  end.

(** Some object of the value, at any depth, has one of the keys. *)
Fixpoint mentions (keys : list string) (t : json) : bool :=
  match t with
  | JArr elems => existsb (mentions keys) elems
  | JObj props =>
      existsb (fun kv => let '(k, x) := kv in
                         existsb (String.eqb k) keys || mentions keys x)
              props
  | _ => false
  end.

(** A property the key remover can store in its copy: every property but
    a [__proto__] that holds [null] or a primitive, which the assignment
    [sanitized[key] = object[key]] hands to the accessor that every object
    inherits. *)
Definition storable (kv : string * json) : bool :=
  match snd kv with
  | JArr _ | JObj _ => true
  | _ => negb (String.eqb (fst kv) "__proto__")
  end.

(** Every property of every object of the value, at any depth, is
    storable. *)
Fixpoint settable (t : json) : bool :=
  match t with
  | JArr elems => forallb settable elems
  | JObj props =>
      forallb (fun kv => let '(k, x) := kv in
                         match x with
                         | JArr _ | JObj _ => settable x
                         | _ => negb (String.eqb k "__proto__")
                         end)
              props
  | _ => true
  end.

End Laws.

Module StoreLaws.
Import JS Cyclic.

(** Some object of the copy, at any depth, has one of the keys. *)
Fixpoint mentions (keys : list string) (r : result) : bool :=
  match r with
  | RPrim _ => false
  | RArr elems => existsb (mentions keys) elems
  | RObj props =>
      existsb (fun kv => let '(k, x) := kv in
                         existsb (String.eqb k) keys || mentions keys x)
              props
  end.

(** [obj = {user: "u", password: "p", self: obj,
            items: [{password: "q", n: 1}, obj]}] *)
Definition st_secret : store :=
  [CObj [("user", VPrim (PStr "u")); ("password", VPrim (PStr "p"));
         ("self", VRef 0); ("items", VRef 1)];
   CArr [VRef 2; VRef 0];
   CObj [("password", VPrim (PStr "q")); ("n", VPrim (PNum 1))]].

(** Every cell of the store is an object, and every reference held by a
    property points into the store.  Cycles are allowed. *)
Definition objectsOnly (st : store) : bool :=
  forallb
    (fun c =>
       match c with
       | CObj props =>
           forallb (fun kv : string * value =>
                      match snd kv with
                      | VRef b => Nat.ltb b (List.length st)
                      | VPrim _ => true
                      end)
                   props
       | CArr _ => false
       end)
    st.

End StoreLaws.

(* ===================================================================== *)
(** ** utils.ts: [deepCompareObjects] *)
(* ===================================================================== *)

Module Compare.
Import JS.

(** The arguments are values of JSON documents, or [undefined] ([None]):
    no [NaN], no functions, no sparse arrays.  A property is looked up
    among the own properties of an object; what an object inherits shows
    through only for the key [__proto__], so objects with an own key of
    that name are outside the model (predicate [noProto]). *)

Inductive jstype : Type := TUndefined | TObject | TBoolean | TNumber | TString.

(** [typeof v] *)
Definition typeOf (v : option json) : jstype :=
  match v with
  | None => TUndefined
  | Some (JBool _) => TBoolean
  | Some (JNum _) => TNumber
  | Some (JStr _) => TString
  | Some JNull | Some (JArr _) | Some (JObj _) => TObject
  end.

Definition jstype_eqb (s t : jstype) : bool :=
  match s, t with
  | TUndefined, TUndefined | TObject, TObject | TBoolean, TBoolean
  | TNumber, TNumber | TString, TString => true
  | _, _ => false
  end.

(** [a === b] for two values that are not objects. *)
Definition strict_equal (a b : option json) : bool :=
  match a, b with
  | None, None => true
  | Some (JBool x), Some (JBool y) => Bool.eqb x y
  | Some (JNum x), Some (JNum y) => (x =? y)%Z
  | Some (JStr x), Some (JStr y) => String.eqb x y
  | _, _ => false
  end.

(** [l.every(f)], where [f] may throw ([None]): it stops at the first
    element on which [f] is false or throws. *)
Fixpoint every {A : Type} (f : A -> option bool) (l : list A) : option bool :=
  match l with
  | [] => Some true
  | x :: rest =>
      match f x with
      | Some true => every f rest
      | other => other
      end
  end.

(** *** Property keys *)

(** The key of the array element [i]. *)
Definition indexKey (i : N) : string := NilZero.string_of_uint (N.to_uint i).

(** A key is an array index when it is the decimal text of a number below
    [2^32 - 1], written without sign or leading zero. *)
Definition arrayIndex (k : string) : option N :=
  match NilZero.uint_of_string k with
  | Some d =>
      let i := N.of_uint d in
      if String.eqb (indexKey i) k && (i <? 4294967295)%N then Some i
      else None
  | None => None
  end.

Fixpoint insertIndex (i : N) (l : list N) : list N :=
  match l with
  | [] => [i]
  | j :: rest => if (i <=? j)%N then i :: l else j :: insertIndex i rest
  end.

(** The order in which the keys of an object are enumerated: array indices
    first, in ascending order, then the other keys in the order in which
    they were added. *)
Definition ownKeys (added : list string) : list string :=
  map indexKey
      (fold_right insertIndex []
         (flat_map (fun k => match arrayIndex k with
                             | Some i => [i]
                             | None => []
                             end)
                   added))
  ++ filter (fun k => match arrayIndex k with Some _ => false | None => true end)
            added.

(** The enumerable own keys of a value that is spread into an object
    literal: those of an object, the indices of an array, none for
    [null]. *)
Definition spreadKeys (v : option json) : list string :=
  match v with
  | Some (JObj props) => map fst props
  | Some (JArr elems) => map (fun i => indexKey (N.of_nat i)) (seq 0 (List.length elems))
  | _ => []
  end.

(** [Object.keys({ ...a, ...b })] *)
Definition unionKeys (a b : option json) : list string :=
  let ka := spreadKeys a in
  ownKeys (ka ++ filter (fun k => negb (existsb (String.eqb k) ka))
                        (spreadKeys b)).

(** [v[key]] for a value [v] with [typeof v === "object"]; the outer
    [None] is the [TypeError] of a property read on [null]. *)
Definition member (v : option json) (k : string) : option (option json) :=
  match v with
  | Some (JObj props) => Some (obj_get props k)
  | Some (JArr elems) =>
      match arrayIndex k with
      | Some i => Some (nth_error elems (N.to_nat i))
      | None =>
          if String.eqb k "length"
          then Some (Some (JNum (Z.of_nat (List.length elems))))
          else Some None
      end
  | Some JNull => None
  | _ => Some None
  end.

(** *** The comparison *)

(** [deepCompareObjects(undefined, b)]: the types differ unless [b] is
    [undefined] too, and then [a === b]. *)
Definition deepCompareUndefined (b : option json) : option bool :=
  if negb (jstype_eqb TUndefined (typeOf b)) then Some false
  else Some (strict_equal None b).

(** [deepCompareObjects(a, b)] for a defined [a]; [None] is a thrown
    [TypeError]. *)
Fixpoint deepCompare (a : json) (b : option json) {struct a} : option bool :=
  (* if types don't match *)
  if negb (jstype_eqb (typeOf (Some a)) (typeOf b)) then Some false
  else
    match a with
    (* if they're both primitives *)
    | JBool _ | JNum _ | JStr _ => Some (strict_equal (Some a) b)
    (* if they're nulls *)
    | JNull => Some (match b with Some JNull => true | _ => false end)
    (* if they're arrays *)
    | JArr elems =>
        match b with
        | Some (JArr belems) =>
            let compareWith := map deepCompare elems in
            every (fun i =>
                     match nth_error compareWith i with
                     | Some compareElem => compareElem (nth_error belems i)
                     | None => deepCompareUndefined (nth_error belems i)
                     end)
                  (seq 0 (Nat.max (Nat.max (List.length elems)
                                           (List.length belems)) 1))
        | _ => Some false
        end
    (* if they're objects, compare the union of their keys *)
    | JObj props =>
        let compareWith :=
          map (fun kv => let '(k, x) := kv in (k, deepCompare x)) props in
        every (fun key =>
                 match member b key with
                 | None => None
                 | Some bv =>
                     match obj_get compareWith key with
                     | Some compareProp => compareProp bv
                     | None => deepCompareUndefined bv
                     end
                 end)
              (unionKeys (Some a) b)
    end.

Definition deepCompareObjects (a b : option json) : option bool :=
  match a with
  | Some x => deepCompare x b
  | None => deepCompareUndefined b
  end.

(** No object of the document has an own key named [__proto__]. *)
Fixpoint noProto (v : json) : bool :=
  match v with
  | JArr elems => forallb noProto elems
  | JObj props =>
      forallb (fun kv => let '(k, x) := kv in
                         negb (String.eqb k "__proto__") && noProto x)
              props
  | _ => true
  end.

(** A document made of objects, strings, numbers and booleans: no array
    and no [null], as an index mapping is. *)
Fixpoint plain (v : json) : bool :=
  match v with
  | JObj props => forallb (fun kv => let '(_, x) := kv in plain x) props
  | JStr _ | JNum _ | JBool _ => true
  | JNull | JArr _ => false
  end.

(** The two documents have the same keys and, key by key, the same
    values; arrays are compared element by element. *)
Fixpoint sameDocument (a b : json) {struct a} : bool :=
  match a, b with
  | JNull, JNull => true
  | JBool x, JBool y => Bool.eqb x y
  | JNum x, JNum y => (x =? y)%Z
  | JStr x, JStr y => String.eqb x y
  | JArr xs, JArr ys =>
      (fix pointwise (l : list json) (l' : list json) {struct l} : bool :=
         match l, l' with
         | [], [] => true
         | x :: r, y :: r' => sameDocument x y && pointwise r r'
         | _, _ => false
         end) xs ys
  | JObj pa, JObj pb =>
      forallb (fun kv => let '(k, x) := kv in
                         match obj_get pb k with
                         | Some y => sameDocument x y
                         | None => false
                         end)
              pa
      && forallb (fun k => match obj_get pa k with
                           | Some _ => true
                           | None => false
                           end)
                 (map fst pb)
  | _, _ => false
  end.

End Compare.
(* ===================================================================== *)
(** ** mapping.ts *)
(* ===================================================================== *)

Module Mapping.
Import JS.

Definition INDEX_MAPPING : json :=
  JObj
  [("id", JObj
    [("type", JStr "keyword")]);
   ("timestamp", JObj
    [("type", JStr "date");
     ("format", JStr "date_time")]);
   ("companyId", JObj
    [("type", JStr "keyword")]);
   ("clientId", JObj
    [("type", JStr "keyword")]);
   ("app", JObj
    [("type", JStr "keyword")]);
   ("environment", JObj
    [("type", JStr "keyword")]);
   ("framework", JObj
    [("properties", JObj
      [("name", JObj
        [("type", JStr "keyword")]);
       ("version", JObj
        [("type", JStr "keyword")])])]);
   ("sessionId", JObj
    [("type", JStr "keyword")]);
   ("traceIds", JObj
    [("type", JStr "keyword")]);
   ("action", JObj
    [("properties", JObj
      [("id", JObj
        [("type", JStr "keyword")]);
       ("type", JObj
        [("type", JStr "keyword")]);
       ("verb", JObj
        [("type", JStr "keyword")]);
       ("object", JObj
        [("type", JStr "text");
         ("fields", JObj
          [("keyword", JObj
            [("type", JStr "keyword")])])])])]);
   ("agents", JObj
    [("properties", JObj
      [("id", JObj
        [("type", JStr "keyword")]);
       ("type", JObj
        [("type", JStr "keyword")]);
       ("name", JObj
        [("type", JStr "text");
         ("fields", JObj
          [("keyword", JObj
            [("type", JStr "keyword")])])]);
       ("meta", JObj
        [("properties", JObj
          [("key", JObj
            [("type", JStr "keyword")]);
           ("value", JObj
            [("type", JStr "text");
             ("fields", JObj
              [("keyword", JObj
                [("type", JStr "keyword")])])])])])])]);
   ("targets", JObj
    [("properties", JObj
      [("id", JObj
        [("type", JStr "keyword")]);
       ("type", JObj
        [("type", JStr "keyword")]);
       ("name", JObj
        [("type", JStr "text");
         ("fields", JObj
          [("keyword", JObj
            [("type", JStr "keyword")])])]);
       ("meta", JObj
        [("properties", JObj
          [("key", JObj
            [("type", JStr "keyword")]);
           ("value", JObj
            [("type", JStr "text");
             ("fields", JObj
              [("keyword", JObj
                [("type", JStr "keyword")])])])])])])]);
   ("request", JObj
    [("properties", JObj
      [("key", JObj
        [("type", JStr "keyword")]);
       ("parent", JObj
        [("type", JStr "keyword")]);
       ("value", JObj
        [("type", JStr "text");
         ("fields", JObj
          [("keyword", JObj
            [("type", JStr "keyword")])])])])]);
   ("response", JObj
    [("properties", JObj
      [("status", JObj
        [("type", JStr "keyword")]);
       ("time", JObj
        [("type", JStr "float")]);
       ("body", JObj
        [("properties", JObj
          [("key", JObj
            [("type", JStr "keyword")]);
           ("value", JObj
            [("type", JStr "text");
             ("fields", JObj
              [("keyword", JObj
                [("type", JStr "keyword")])])])])]);
       ("headers", JObj
        [("properties", JObj
          [("key", JObj
            [("type", JStr "keyword")]);
           ("value", JObj
            [("type", JStr "text");
             ("fields", JObj
              [("keyword", JObj
                [("type", JStr "keyword")])])])])])])]);
   ("meta", JObj
    [("properties", JObj
      [("key", JObj
        [("type", JStr "keyword")]);
       ("value", JObj
        [("type", JStr "text");
         ("fields", JObj
          [("keyword", JObj
            [("type", JStr "keyword")])])])])]);
   ("cost", JObj
    [("properties", JObj
      [("amount", JObj
        [("type", JStr "float")]);
       ("currency", JObj
        [("type", JStr "keyword")]);
       ("components", JObj
        [("properties", JObj
          [("type", JObj
            [("type", JStr "keyword")]);
           ("key", JObj
            [("type", JStr "keyword")]);
           ("amount", JObj
            [("type", JStr "float")])])]);
       ("meta", JObj
        [("properties", JObj
          [("key", JObj
            [("type", JStr "keyword")]);
           ("value", JObj
            [("type", JStr "text");
             ("fields", JObj
              [("keyword", JObj
                [("type", JStr "keyword")])])])])])])])].

End Mapping.

(* ===================================================================== *)
(** ** engine.ts: index template and index mappings *)
(* ===================================================================== *)

Module Maintenance.
Import JS.

(** The fields of the engine instance that the maintenance methods read. *)
Record engine : Type := mkEngine {
  _indexTemplateName : string;
  _indexTemplatePattern : string;
  _indexTemplateNumShards : Z;
  _indexTemplateNumReplicas : Z
}.

Definition default : engine := mkEngine "acro_actions" "actions_*" 5 1.

(** The calls made on [this._client.indices]. *)
Inductive request : Type :=
| GetIndexTemplate (name : string)
| PutIndexTemplate (name : string) (body : json)
| Get (index : string)
| PutMapping (index : string) (body : json).

(** The cluster as the engine sees it: what it answers to a request, given
    the requests it has received ([None]: the promise is rejected), and
    the requests received so far. *)
Record cluster : Type := mkCluster {
  answers : list request -> request -> option json;
  received : list request
}.

Definition call (c : cluster) (r : request) : option json * cluster :=
  (answers c (received c) r, mkCluster (answers c) (received c ++ [r])).

(** [v?.[k]] on the own properties of a JSON value: a property of an
    object, an element or the length of an array, a character or the
    length of a string.  The fixed keys read below are inherited by no
    JSON value. *)
Definition optMember (v : option json) (k : string) : option json :=
  match v with
  | Some (JObj props) => obj_get props k
  | Some (JArr elems) =>
      match Compare.arrayIndex k with
      | Some i => nth_error elems (N.to_nat i)
      | None =>
          if String.eqb k "length"
          then Some (JNum (Z.of_nat (List.length elems)))
          else None
      end
  | Some (JStr s) =>
      match Compare.arrayIndex k with
      | Some i =>
          match String.get (N.to_nat i) s with
          | Some c => Some (JStr (String c ""))
          | None => None
          end
      | None =>
          if String.eqb k "length"
          then Some (JNum (Z.of_nat (String.length s)))
          else None
      end
  | _ => None
  end.

Definition truthy_value (v : option json) : bool :=
  match v with Some x => truthy x | None => false end.

(** [result?.body?.index_templates?.[0]?.index_template?.template
      ?.mappings?.properties] *)
Definition templateProperties (result : json) : option json :=
  fold_left optMember
    ["body"; "index_templates"; "0"; "index_template"; "template";
     "mappings"; "properties"]
    (Some result).

(** [result?.body?.[index]?.mappings?.properties].  Were [index] the
    name of something [body] inherits, a function or the prototype, the
    next step would find no [mappings] in it: the chain is [undefined]
    then, as it is here. *)
Definition indexProperties (result : json) (index : string) : option json :=
  fold_left optMember ["body"; index; "mappings"; "properties"] (Some result).

(** The body of the [putIndexTemplate] call. *)
Definition templateBody (e : engine) : json :=
  JObj [("index_patterns", JArr [JStr (_indexTemplatePattern e)]);
        ("template",
         JObj [("settings",
                JObj [("index",
                       JObj [("number_of_shards",
                              JNum (_indexTemplateNumShards e));
                             ("number_of_replicas",
                              JNum (_indexTemplateNumReplicas e))])]);
               ("mappings",
                JObj [("properties", Mapping.INDEX_MAPPING)])])].

(** [createIndexTemplates()]: the answer is logged, never rethrown. *)
Definition createIndexTemplates (e : engine) (c : cluster) : cluster :=
  snd (call c (PutIndexTemplate (_indexTemplateName e) (templateBody e))).

(** What the inner promise of [upsertIndexTemplates] and of
    [updateIndexMapping] resolves with, given the answer of the cluster
    and the path read in it.  The engine imports [deepCompareObjects]
    from the common package; it is a parameter here.  A comparison that
    throws does so inside [then], so that [catch] resolves with [null]. *)
Definition resolved
    (deepCompareObjects : option json -> option json -> option bool)
    (answer : option json) (read : json -> option json) : option json :=
  match answer with
  | Some result =>
      let found := read result in
      if truthy_value found then
        match deepCompareObjects found (Some Mapping.INDEX_MAPPING) with
        | Some true => found
        | Some false => Some JNull
        | None => Some JNull
        end
      else found
  | None => Some JNull
  end.

(** [upsertIndexTemplates()].  [this._client] is set by the constructor,
    so the early [return] on a missing client is never taken. *)
Definition upsertIndexTemplates
    (deepCompareObjects : option json -> option json -> option bool)
    (e : engine) (c : cluster) : cluster :=
  let '(answer, c1) := call c (GetIndexTemplate (_indexTemplateName e)) in
  let template := resolved deepCompareObjects answer templateProperties in
  if truthy_value template then c1 else createIndexTemplates e c1.

(** [updateIndexMapping(index)] *)
Definition updateIndexMapping
    (deepCompareObjects : option json -> option json -> option bool)
    (index : string) (c : cluster) : cluster :=
  let '(answer, c1) := call c (Get index) in
  let matches :=
    resolved deepCompareObjects answer
             (fun result => indexProperties result index) in
  if negb (truthy_value matches)
  then snd (call c1 (PutMapping index
                       (JObj [("properties", Mapping.INDEX_MAPPING)])))
  else c1.

(** A cluster that answers every [getIndexTemplate] with a template whose
    mapping properties are [properties], and every [get] likewise. *)
Definition clusterWith (properties : json) : cluster :=
  mkCluster
    (fun _ r =>
       match r with
       | GetIndexTemplate _ =>
           Some (JObj [("body",
                        JObj [("index_templates",
                               JArr [JObj [("index_template",
                                            JObj [("template",
                                                   JObj [("mappings",
                                                          JObj [("properties",
                                                                 properties)])])])]])])])
       | Get index =>
           Some (JObj [("body",
                        JObj [(index,
                               JObj [("mappings",
                                      JObj [("properties", properties)])])])])
       | _ => Some (JObj [])
       end)
    [].

End Maintenance.

Module MaintenanceSpec.
Import JS Maintenance.

(** The mapping properties read in the answer to a request, [None] when
    the request was rejected or the answer holds none. *)
Definition stored (c : cluster) (r : request) (read : json -> option json)
  : option json :=
  match answers c (received c) r with
  | Some result => read result
  | None => None
  end.

(** What is stored is the same document as [INDEX_MAPPING]. *)
Definition upToDate (found : option json) : bool :=
  match found with
  | Some d => Compare.sameDocument d Mapping.INDEX_MAPPING
  | None => false
  end.

Definition wellFormed (found : option json) : bool :=
  match found with
  | Some d => Spec.wfJson d && Compare.noProto d
  | None => true
  end.

(** [INDEX_MAPPING] as a cluster gives it back: keys in another order. *)
Definition reordered (v : json) : json :=
  match v with
  | JObj props => JObj (rev props)
  | _ => v
  end.

End MaintenanceSpec.

(* ===================================================================== *)
(** ** utils.ts: [get] *)
(* ===================================================================== *)

Module Path.

(** [s.split(".")]: the pieces between the dots, empty ones included. *)
Fixpoint split (s : string) : list string :=
  match s with
  | EmptyString => [""]
  | String c rest =>
      if Ascii.eqb c "."%char then "" :: split rest
      else
        match split rest with
        | piece :: pieces => String c piece :: pieces
        | [] => [String c ""]
        end
  end.

Section Get.

(** The values of the language and the optional member access [p?.[c]],
    whatever they are. *)
Variable value : Type.
Variable optMember : value -> string -> value.

(** [(path || "").split(".").reduce((p, c) => p?.[c], object)]; an absent
    path is [None]. *)
Definition get (object : value) (path : option string) : value :=
  fold_left optMember
            (split (match path with
                    | Some p => if JS.truthy_str p then p else ""
                    | None => ""
                    end))
            object.

End Get.

(** No dot occurs in the key. *)
Fixpoint dotFree (s : string) : bool :=
  match s with
  | EmptyString => true
  | String c rest => negb (Ascii.eqb c "."%char) && dotFree rest
  end.

End Path.

Module Scope.
Import JS Compiler.

(** Every field that the clause names lies under [scope], and every
    [nested] clause inside it names only fields under its own path. *)
Fixpoint fieldsUnder (scope : string) (q : Query) : bool :=
  match q with
  | Term field _ | Terms field _ | Range field _ _ => String.prefix scope field
  | BoolMust clauses | BoolShould clauses =>
      forallb (fieldsUnder scope) clauses
  | Nested path query =>
      String.prefix scope path && fieldsUnder (path ++ ".") query
  end.

End Scope.

Module Calendar.
Import Luxon.

(** Months counted from January of year 0. *)
Definition monthIndex (d : DateTime) : Z := (year d * 12 + (month d - 1))%Z.

(** The day number of the first day of a month, and the length of the
    month. *)
Definition firstDay (t : Z) : Z := daysFromCivil (t / 12) (t mod 12 + 1) 1.
Definition monthLength (t : Z) : Z := daysInMonth (t / 12) (t mod 12 + 1).

(** A month ends where the next one starts. *)
Definition monthsChain (t : Z) : bool :=
  (firstDay (t + 1) =? firstDay t + monthLength t)%Z.

(** [p] holds of the [n] integers from [t] on. *)
Fixpoint allFrom (n : nat) (t : Z) (p : Z -> bool) : bool :=
  match n with
  | O => true
  | S k => p t && allFrom k (t + 1)%Z p
  end.

(** The months between two instants, by the calendar. *)
Definition monthsApart (s e : DateTime) : Z := (monthIndex e - monthIndex s)%Z.

(** A date of the calendar with its time of day, in any year. *)
Definition regular (d : DateTime) : bool :=
  ((1 <=? month d) && (month d <=? 12)
   && (1 <=? day d) && (day d <=? daysInMonth (year d) (month d))
   && (0 <=? hour d) && (hour d <=? 23)
   && (0 <=? minute d) && (minute d <=? 59)
   && (0 <=? second d) && (second d <=? 59)
   && (0 <=? millisecond d) && (millisecond d <=? 999))%Z.

End Calendar.

Module FacadeSpec.
Import JS.

(** [action.id] is absent or falsy: the engine gives the action a fresh
    identifier. *)
Definition lacksId (action : json) : bool :=
  match Facade.stringProp action "id" with
  | Some s => negb (truthy_str s)
  | None => true
  end.

End FacadeSpec.

(* ===================================================================== *)
(** ** engine.ts: the constructor and [findMany] *)
(* ===================================================================== *)

Module Setup.
Import JS.

(** The options of the constructor that end up in fields ([logger] and
    [logLevel] go to the base class). *)
Record options : Type := mkOptions {
  indexPattern : option string;
  indexTemplateName : option string;
  indexTemplatePattern : option string;
  indexTemplateNumShards : option Z;
  indexTemplateNumReplicas : option Z;
  autoUpdateIndexMappings : option bool;
  defaultStartMonthsAgo : option Z;
  defaultPageSize : option Z
}.

(** The fields of the instance once the constructor has run. *)
Record instance : Type := mkInstance {
  config : Engine.config;
  maintenance : Maintenance.engine;
  _autoUpdateIndexMappings : bool
}.

(** [if (options?.x) this._x = options.x] on a field initialised to
    [initial]. *)
Definition overrideString (initial : string) (o : option string) : string :=
  match o with
  | Some s => if truthy_str s then s else initial
  | None => initial
  end.

Definition overrideNumber (initial : Z) (o : option Z) : Z :=
  match o with
  | Some n => if truthy_num n then n else initial
  | None => initial
  end.

(** [if (typeof options?.x !== "undefined") this._x = options.x] *)
Definition overrideDefined (initial : bool) (o : option bool) : bool :=
  match o with
  | Some b => b
  | None => initial
  end.

Definition construct (o : options) : instance :=
  mkInstance
    (Engine.mkConfig
       (overrideString (Engine._indexPattern Engine.default) (indexPattern o))
       (overrideNumber (Engine._defaultStartMonthsAgo Engine.default)
                       (defaultStartMonthsAgo o))
       (overrideNumber (Engine._defaultPageSize Engine.default)
                       (defaultPageSize o)))
    (Maintenance.mkEngine
       (overrideString (Maintenance._indexTemplateName Maintenance.default)
                       (indexTemplateName o))
       (overrideString (Maintenance._indexTemplatePattern Maintenance.default)
                       (indexTemplatePattern o))
       (overrideNumber (Maintenance._indexTemplateNumShards Maintenance.default)
                       (indexTemplateNumShards o))
       (overrideNumber
          (Maintenance._indexTemplateNumReplicas Maintenance.default)
          (indexTemplateNumReplicas o)))
    (overrideDefined true (autoUpdateIndexMappings o)).

(** No option given. *)
Definition noOptions : options :=
  mkOptions None None None None None None None None.

End Setup.

Module Search.
Import JS Luxon Engine Compiler.

(** The argument of [this._client.search]. *)
Record searchRequest : Type := mkSearchRequest {
  index : string;
  must : list Query;            (* body.query.bool.must *)
  from : Z;                     (* body.from *)
  size : Z;                     (* body.size *)
  sort : string * string;       (* body.sort[0]: the field and its order *)
  ignore_unavailable : bool
}.

(** [options.x || fallback] *)
Definition numberOr (o : option Z) (fallback : Z) : Z :=
  match o with
  | Some n => if truthy_num n then n else fallback
  | None => fallback
  end.

Definition stringOr (o : option string) (fallback : string) : string :=
  match o with
  | Some s => if truthy_str s then s else fallback
  | None => fallback
  end.

(** The clock once [buildFindManyQuery] has run: it is read once for an
    absent [start] and once for an absent [end]. *)
Definition clockAfterQuery (clock : Clock) (filters : FindActionFilters)
  : Clock :=
  let clock1 :=
    if truthy_opt (start filters) then clock else snd (now clock) in
  if truthy_opt (end_ filters) then clock1 else snd (now clock1).

(** The request that [findMany] sends; [None] only if the model of
    [getIndexNameRange] ran out of steps. *)
Definition findMany (fromISO : reader) (cfg : config) (clock : Clock)
    (options : FindActionOptions) (filters : FindActionFilters)
  : option searchRequest :=
  let must := buildFindManyQuery fromISO cfg clock options filters in
  let from :=
    ((numberOr (page options) 1 - 1)
     * numberOr (limit options) (_defaultPageSize cfg))%Z in
  let size := numberOr (limit options) (_defaultPageSize cfg) in
  let sort :=
    (stringOr (sortBy options) "timestamp",
     stringOr (sortDirection options) "desc") in
  option_map
    (fun index => mkSearchRequest index must from size sort true)
    (Router.getIndexNameRange fromISO cfg (clockAfterQuery clock filters)
       (companyId filters) (start filters) (end_ filters)).

End Search.

Module Naming.
Import Luxon.

(** [getUTCFullYear().toString()] and [toFormat("yyyy")] print the year
    alike. *)
Definition yearPrintsAlike (y : Z) : bool :=
  String.eqb (digits y) (padStart 4 (digits y)).

(** The month padded by hand in [getIndexName] and [toFormat("LL")] print
    the month alike. *)
Definition monthPrintsAlike (m : Z) : bool :=
  String.eqb (if Nat.eqb (String.length (digits m)) 1
              then ("0" ++ digits m)%string else digits m)
             (padStart 2 (digits m)).

End Naming.

Module SchemaSpec.

(** The properties that [OpenSearchActionSchema] declares at the top
    level. *)
Definition declaredKeys : list string :=
  ["id"; "timestamp"; "companyId"; "clientId"; "app"; "environment";
   "framework"; "sessionId"; "traceIds"; "action"; "agents"; "targets";
   "request"; "response"; "changes"; "cost"; "meta"].

End SchemaSpec.

(* ===================================================================== *)
(** ** Properties *)
(* ===================================================================== *)

(** *** Cycle breaking (utils.ts) *)

Section CycleBreaking.
Import Cyclic.

(** The cases exercised by the tests of the repository. *)
Example breaks_self_reference :
  breakCircularReferences 2 st_self_object (VRef 0) [] =
  Done (RObj [("a", RPrim (PNum 1)); ("b", RPrim (PStr "two"));
              ("c", RPrim PNull)]).
Proof. reflexivity. Qed.

Example breaks_nested_reference :
  breakCircularReferences 3 st_nested_object (VRef 0) [] =
  Done (RObj [("a", RPrim (PNum 1)); ("b", RPrim (PStr "two"));
              ("c", RPrim PNull);
              ("d", RObj [("c", RPrim (PNum 3)); ("f", RPrim (PStr "four"))])]).
Proof. reflexivity. Qed.

Example breaks_owner_in_array :
  breakCircularReferences 2 st_object_in_own_array (VRef 0) [] =
  Done (RObj [("a", RPrim (PNum 1)); ("d", RArr [])]).
Proof. reflexivity. Qed.

(** An ancestor that sits in an array of a descendant is not omitted: it is
    traversed once more and copied without its cyclic property. *)
Example ancestor_in_array_is_copied :
  breakCircularReferences 5 st_ancestor_in_array (VRef 0) [] =
  Done (RObj [("a", RPrim (PNum 1));
              ("c", RObj [("d", RArr [RObj [("a", RPrim (PNum 1))]])])]).
Proof. reflexivity. Qed.

Lemma mapM_out_of_fuel_head {A B : Type} (f : A -> run B) (x : A)
    (l : list A) :
  f x = OutOfFuel -> mapM f (x :: l) = OutOfFuel.
Proof. intros H. simpl. now rewrite H. Qed.

(** C6 (evaluated on the code): on the array that contains itself,
    [const a = []; a.push(a)], [breakCircularReferences] does not
    terminate: whatever the fuel and whatever [parents], the recursion goes
    deeper than the fuel allows.  The elements of an array are never
    compared with the ancestors. *)
Theorem breakCircularReferences_self_array_never_returns :
  forall (fuel : nat) (parents : list value),
    breakCircularReferences fuel st_self_array (VRef 0) parents = OutOfFuel.
Proof.
  unfold breakCircularReferences.
  induction fuel as [|fuel IH]; intros parents.
  - reflexivity.
  - cbn [removeSensitiveKeys st_self_array nth_error].
    rewrite mapM_out_of_fuel_head by apply IH.
    reflexivity.
Qed.

Lemma includes_snoc (l : list value) (x y : value) :
  includes (l ++ [y]) x = includes l x || same_value_zero x y.
Proof.
  unfold includes. rewrite existsb_app. simpl. now rewrite orb_false_r.
Qed.

(** The same happens when the cycle passes through an array nested in an
    array, [o = {d: [[o]]}]: neither array is ever among the ancestors that
    are compared. *)
Lemma array_in_array_never_returns :
  forall (fuel : nat) (parents : list value),
    includes parents (VRef 1) = false ->
    removeSensitiveKeys fuel st_array_in_array (VRef 0) [] parents
    = OutOfFuel.
Proof.
  induction fuel as [fuel IH] using lt_wf_ind; intros parents H1.
  destruct fuel as [|fuel]; [reflexivity|].
  cbn [removeSensitiveKeys st_array_in_array nth_error fold_left existsb].
  rewrite H1.
  cbn [orb strict_eq same_value_zero Nat.eqb negb filter nth_error].
  destruct fuel as [|fuel]; [reflexivity|].
  rewrite (mapM_out_of_fuel_head _ (VRef 2) []); [reflexivity|].
  cbn [removeSensitiveKeys st_array_in_array nth_error].
  rewrite (mapM_out_of_fuel_head _ (VRef 0) []); [reflexivity|].
  apply IH; [lia|].
  rewrite !includes_snoc, H1. reflexivity.
Qed.

End CycleBreaking.

(** *** The traversal on stores that hold a tree *)

Section TreeStores.
Import JS Cyclic Spec.


Lemma all2_Forall2 {A B : Type} (R : A -> B -> Prop) (l : list A) (l' : list B) :
  all2 R l l' -> Forall2 R l l'.
Proof.
  revert l. induction l' as [|b l' IH]; intros [|a l] H; simpl in H;
    try contradiction; constructor; [tauto|apply IH; tauto].
Qed.

Lemma Forall2_impl_in {A B : Type} (R Q : A -> B -> Prop) (l : list A)
    (l' : list B) :
  Forall2 R l l' ->
  (forall a b, In b l' -> R a b -> Q a b) -> Forall2 Q l l'.
Proof.
  induction 1 as [|a b l l' Hab Hrest IH]; intros Himp; constructor.
  - apply Himp; [now left|exact Hab].
  - apply IH. intros a' b' Hin. apply Himp. now right.
Qed.

Lemma jsize_pos (t : json) : 1 <= jsize t.
Proof. destruct t; simpl; lia. Qed.

Lemma list_sum_in (x : nat) (l : list nat) : In x l -> x <= list_sum l.
Proof.
  induction l as [|y l IH]; simpl; [tauto|].
  intros [->|H]; [lia|]. specialize (IH H). lia.
Qed.

Lemma jsize_elem (t : json) (ts : list json) :
  In t ts -> jsize t < jsize (JArr ts).
Proof.
  intros H. simpl. apply Nat.lt_succ_r. apply list_sum_in.
  now apply in_map.
Qed.

Lemma jsize_prop (k : string) (t : json) (props : obj json) :
  In (k, t) props -> jsize t < jsize (JObj props).
Proof.
  intros H. simpl. apply Nat.lt_succ_r. apply list_sum_in.
  apply in_map_iff. now exists (k, t).
Qed.

Lemma represents_arr (st : store) (v : value) (ts : list json) :
  represents st v (JArr ts) ->
  exists a elems,
    v = VRef a /\ nth_error st a = Some (CArr elems)
    /\ Forall2 (represents st) elems ts.
Proof.
  simpl. intros (a & elems & Hv & Hc & H). exists a, elems.
  repeat split; auto. now apply all2_Forall2 in H.
Qed.

Lemma represents_obj (st : store) (v : value) (tprops : obj json) :
  represents st v (JObj tprops) ->
  exists a props,
    v = VRef a /\ nth_error st a = Some (CObj props)
    /\ Forall2 (fun kv kt => fst kv = fst kt
                             /\ represents st (snd kv) (snd kt))
               props tprops.
Proof.
  simpl. intros (a & props & Hv & Hc & H). exists a, props.
  repeat split; auto. apply all2_Forall2 in H.
  apply (Forall2_impl_in _ _ _ _ H). now intros kv [k' t'] _.
Qed.

Lemma represents_prim (st : store) (p : prim) (t : json) :
  represents st (VPrim p) t -> json_result t = RPrim p.
Proof.
  destruct t; simpl; intros H; try (inversion H; reflexivity);
    destruct H as (a & x & H & _); discriminate.
Qed.

Lemma represents_functional (st : store) :
  forall (n : nat) (t1 : json), jsize t1 < n ->
  forall (v : value) (t2 : json),
    represents st v t1 -> represents st v t2 -> t1 = t2.
Proof.
  induction n as [|n IH]; intros t1 Hn v t2 H1 H2; [lia|].
  destruct t1 as [|b|z|s|ts|tprops].
  1-4: simpl in H1; subst v; destruct t2; simpl in H2;
       try (inversion H2; reflexivity);
       destruct H2 as (a & x & H & _); discriminate.
  - apply represents_arr in H1. destruct H1 as (a & elems & -> & Hc & Hall).
    destruct t2 as [| | | |ts2|tprops2]; try (simpl in H2; discriminate).
    + apply represents_arr in H2.
      destruct H2 as (a2 & elems2 & Heq & Hc2 & Hall2).
      inversion Heq; subst a2. rewrite Hc in Hc2. inversion Hc2; subst elems2.
      f_equal. clear Hc Hc2 Heq.
      assert (Hsub : forall t, In t ts -> jsize t < n).
      { intros t Ht. apply jsize_elem in Ht. lia. }
      clear Hn. revert ts2 Hall2.
      induction Hall as [|e t elems ts He Hrest IHl]; intros ts2 Hall2;
        inversion Hall2; subst; [reflexivity|].
      f_equal.
      * apply (IH t (Hsub t (or_introl eq_refl)) e); assumption.
      * apply IHl; [|assumption]. intros t' Ht'. apply Hsub. now right.
    + simpl in H2. destruct H2 as (a2 & props2 & Heq & Hc2 & _).
      inversion Heq; subst a2. rewrite Hc in Hc2. discriminate.
  - apply represents_obj in H1. destruct H1 as (a & props & -> & Hc & Hall).
    destruct t2 as [| | | |ts2|tprops2]; try (simpl in H2; discriminate).
    + simpl in H2. destruct H2 as (a2 & elems2 & Heq & Hc2 & _).
      inversion Heq; subst a2. rewrite Hc in Hc2. discriminate.
    + apply represents_obj in H2.
      destruct H2 as (a2 & props2 & Heq & Hc2 & Hall2).
      inversion Heq; subst a2. rewrite Hc in Hc2. inversion Hc2; subst props2.
      f_equal. clear Hc Hc2 Heq.
      assert (Hsub : forall k t, In (k, t) tprops -> jsize t < n).
      { intros k t Ht. apply jsize_prop in Ht. lia. }
      clear Hn. revert tprops2 Hall2.
      induction Hall as [|kv kt props tprops [Hk He] Hrest IHl];
        intros tprops2 Hall2; inversion Hall2 as [|? kt2 ? ? [Hk2 He2]];
        subst; [reflexivity|].
      f_equal.
      * destruct kt as [k t], kt2 as [k2 t2]. simpl in *.
        f_equal; [congruence|].
        apply (IH t (Hsub k t (or_introl eq_refl)) (snd kv)); assumption.
      * apply IHl; [|assumption]. intros k' t' Ht'. apply (Hsub k'). now right.
Qed.

Lemma represents_unique (st : store) (v : value) (t1 t2 : json) :
  represents st v t1 -> represents st v t2 -> t1 = t2.
Proof. apply (represents_functional st (S (jsize t1))). lia. Qed.


Lemma same_value_zero_ref (x : value) (a : addr) :
  same_value_zero x (VRef a) = true -> x = VRef a.
Proof.
  destruct x as [p|b]; simpl; [discriminate|].
  intros H. apply Nat.eqb_eq in H. now subst.
Qed.

Lemma strict_eq_ref (x : value) (a : addr) :
  strict_eq x (VRef a) = true -> x = VRef a.
Proof.
  destruct x as [p|b]; [destruct p; discriminate|].
  apply same_value_zero_ref.
Qed.

Lemma represents_ref (st : store) (v : value) (t : json) :
  represents st v t -> 1 < jsize t -> exists a, v = VRef a.
Proof.
  destruct t; simpl; try lia; intros (a & x & -> & _) _; now exists a.
Qed.

(** A value below the current object is none of its ancestors. *)
Lemma not_among_ancestors (st : store) (parents : list value) (t tc : json)
    (vc : value) :
  ancestorsOf st parents t -> represents st vc tc -> jsize tc <= jsize t ->
  includes parents vc = false.
Proof.
  intros Hanc Hvc Hsize. unfold includes.
  destruct (existsb (same_value_zero vc) parents) eqn:E; [|reflexivity].
  apply existsb_exists in E. destruct E as [p [Hin Heq]].
  destruct (Hanc p Hin) as [tp [Hp Hlt]].
  destruct (represents_ref st p tp Hp) as [a ->];
    [pose proof (jsize_pos t); lia|].
  apply same_value_zero_ref in Heq. subst vc.
  pose proof (represents_unique st _ _ _ Hvc Hp). subst tp. lia.
Qed.

Lemma not_the_object (st : store) (a : addr) (t tc : json) (vc : value) :
  represents st (VRef a) t -> represents st vc tc -> jsize tc < jsize t ->
  strict_eq vc (VRef a) = false.
Proof.
  intros Ht Hvc Hsize.
  destruct (strict_eq vc (VRef a)) eqn:E; [|reflexivity].
  apply strict_eq_ref in E. subst vc.
  pose proof (represents_unique st _ _ _ Hvc Ht). subst tc. lia.
Qed.

Lemma ancestorsOf_extend (st : store) (parents : list value) (object : value)
    (t tc : json) :
  ancestorsOf st parents t -> represents st object t -> jsize tc < jsize t ->
  ancestorsOf st (parents ++ [object]) tc.
Proof.
  intros Hanc Ht Hsize p Hin. apply in_app_iff in Hin.
  destruct Hin as [Hin|[<-|[]]].
  - destruct (Hanc p Hin) as [tp [Hp Hlt]]. exists tp. split; [exact Hp|lia].
  - exists t. now split.
Qed.

Lemma mapM_Forall2 {A B C : Type} (f : A -> run B) (g : C -> B) (l : list A)
    (l' : list C) :
  Forall2 (fun a c => f a = Done (g c)) l l' -> mapM f l = Done (map g l').
Proof.
  induction 1 as [|a c l l' Hac Hrest IH]; simpl; [reflexivity|].
  now rewrite Hac, IH.
Qed.

Lemma obj_set_jmap (o : obj json) (k : string) (x : json) :
  obj_set (jmap o) k (json_result x) = jmap (obj_set o k x).
Proof.
  induction o as [|[k' x'] o IH]; simpl; [reflexivity|].
  destruct (String.eqb k' k); simpl; [reflexivity|now rewrite IH].
Qed.

Lemma obj_assign_jmap (o : obj json) (k : string) (x : json) :
  obj_assign (jmap o) k (json_result x) = jmap (obj_assign o k x).
Proof.
  unfold obj_assign. destruct (String.eqb k "__proto__"); [reflexivity|].
  apply obj_set_jmap.
Qed.

Lemma filter_all {A : Type} (f : A -> bool) (l : list A) :
  forallb f l = true -> filter f l = l.
Proof.
  induction l as [|a l IH]; simpl; intros H; [reflexivity|].
  apply andb_true_iff in H. destruct H as [Ha Hl]. now rewrite Ha, IH.
Qed.

Lemma Forall2_in_l {A B : Type} (R : A -> B -> Prop) (l : list A) (l' : list B)
    (a : A) :
  Forall2 R l l' -> In a l -> exists b, In b l' /\ R a b.
Proof.
  induction 1 as [|x y l l' Hxy Hrest IH]; intros Hin; [contradiction|].
  destruct Hin as [->|Hin].
  - exists y. split; [now left|exact Hxy].
  - destruct (IH Hin) as [b [Hb Hab]]. exists b. split; [now right|exact Hab].
Qed.

(** On a store that holds a tree, the traversal over the store does what
    the traversal over the tree does. *)
Lemma removeSensitiveKeys_tree_sized (st : store) (keys : list string) :
  forall (n : nat) (t : json), jsize t < n ->
  forall (v : value) (parents : list value) (fuel : nat),
    represents st v t -> ancestorsOf st parents t -> jsize t <= fuel ->
    removeSensitiveKeys fuel st v keys parents
    = Done (json_result (Utils.removeSensitiveKeys t keys)).
Proof.
  induction n as [|n IH]; intros t Hn v parents fuel Hv Hanc Hfuel; [lia|].
  destruct fuel as [|fuel]; [pose proof (jsize_pos t); lia|].
  destruct t as [|b|z|s|ts|tprops].
  1-4: simpl in Hv; subst v; reflexivity.
  - pose proof Hv as Hv'. apply represents_arr in Hv'.
    destruct Hv' as (a & elems & -> & Hc & Hall).
    cbn [removeSensitiveKeys]. rewrite Hc.
    cbn [Utils.removeSensitiveKeys json_result].
    rewrite map_map.
    rewrite (mapM_Forall2 _
               (fun t' => json_result (Utils.removeSensitiveKeys t' keys))
               elems ts); [reflexivity|].
    apply (Forall2_impl_in _ _ _ _ Hall). intros e t' Hin He.
    pose proof (jsize_elem t' ts Hin) as Hlt.
    apply IH; [lia|exact He| |lia].
    now apply (ancestorsOf_extend st parents (VRef a) (JArr ts)).
  - pose proof Hv as Hv'. apply represents_obj in Hv'.
    destruct Hv' as (a & props & -> & Hc & Hall).
    cbn [removeSensitiveKeys]. rewrite Hc.
    cbn [Utils.removeSensitiveKeys json_result].
    assert (Hsub : forall kt, In kt tprops -> jsize (snd kt) < jsize (JObj tprops)).
    { intros [k t'] Hin. now apply (jsize_prop k). }
    change (map (fun kv : string * json => let '(k, x) := kv in (k, json_result x)))
      with jmap.
    match goal with
    | |- run_map RObj (fold_left ?G props (Done [])) = Done (RObj (jmap (fold_left ?H tprops []))) =>
        assert (Hfold : forall acc,
                   fold_left G props (Done (jmap acc))
                   = Done (jmap (fold_left H tprops acc)))
    end.
    { revert Hsub. generalize (JObj tprops) Hv Hanc Hn Hfuel.
      intros t Ht Hanc' Hn' Hfuel' Hsub. clear Hc Hv Hanc Hn Hfuel.
      induction Hall as [|[k vc] [k' tc] props tprops [Hk Hvc] Hrest IHl];
        intros acc; [reflexivity|].
      simpl in Hk, Hvc. subst k'.
      pose proof (Hsub (k, tc) (or_introl eq_refl)) as Hlt. simpl in Hlt.
      cbn [fold_left run_bind].
      assert (Hstep :
        (if existsb (String.eqb k) keys then Done (jmap acc)
         else if includes parents vc || strict_eq vc (VRef a)
         then Done (jmap acc)
         else
           match vc with
           | VPrim p => Done (obj_assign (jmap acc) k (RPrim p))
           | VRef b0 =>
               match nth_error st b0 with
               | Some (CObj _) =>
                   run_bind
                     (removeSensitiveKeys fuel st vc keys (parents ++ [VRef a]))
                     (fun r => Done (obj_set (jmap acc) k r))
               | Some (CArr velems) =>
                   run_bind
                     (mapM (fun elem =>
                              removeSensitiveKeys fuel st elem keys
                                (parents ++ [VRef a]))
                           (filter (fun elem => negb (strict_eq elem (VRef a)))
                                   velems))
                     (fun rs => Done (obj_set (jmap acc) k (RArr rs)))
               | None => Dangling
               end
           end)
        = Done (jmap
                  (if existsb (String.eqb k) keys then acc
                   else
                     match tc with
                     | JArr velems =>
                         obj_set acc k
                           (JArr (map (fun elem =>
                                         Utils.removeSensitiveKeys elem keys)
                                      velems))
                     | JObj _ => obj_set acc k (Utils.removeSensitiveKeys tc keys)
                     | _ => obj_assign acc k tc
                     end))).
      { destruct (existsb (String.eqb k) keys); [reflexivity|].
        rewrite (not_among_ancestors st parents t tc vc Hanc' Hvc) by lia.
        rewrite (not_the_object st a t tc vc Ht Hvc Hlt).
        cbn [orb].
        destruct tc as [|b|z|s|ts'|tprops'].
        1-4: simpl in Hvc; subst vc; now rewrite <- obj_assign_jmap.
        - pose proof Hvc as Hvc'. apply represents_arr in Hvc'.
          destruct Hvc' as (b0 & velems & -> & Hcb & Hallb).
          rewrite Hcb.
          rewrite filter_all.
          2:{ apply forallb_forall. intros e He. apply negb_true_iff.
              destruct (Forall2_in_l _ _ _ _ Hallb He) as [t'' [Hin'' He'']].
              pose proof (jsize_elem t'' ts' Hin'').
              apply (not_the_object st a t t'' e Ht He''). lia. }
          rewrite (mapM_Forall2 _
                     (fun t' => json_result (Utils.removeSensitiveKeys t' keys))
                     velems ts').
          2:{ apply (Forall2_impl_in _ _ _ _ Hallb). intros e t'' Hin'' He''.
              pose proof (jsize_elem t'' ts' Hin'') as Hlt''.
              apply IH; [lia|exact He''| |lia].
              apply (ancestorsOf_extend st parents (VRef a) t); auto. lia. }
          cbn [run_bind]. rewrite <- obj_set_jmap.
          cbn [json_result]. now rewrite map_map.
        - pose proof Hvc as Hvc'. apply represents_obj in Hvc'.
          destruct Hvc' as (b0 & props' & -> & Hcb & _).
          rewrite Hcb.
          rewrite (IH (JObj tprops')); [|lia|exact Hvc| |lia].
          + cbn [run_bind]. now rewrite <- obj_set_jmap.
          + apply (ancestorsOf_extend st parents (VRef a) t); auto. }
      rewrite Hstep. apply IHl.
      intros kt Hin. apply Hsub. now right. }
    exact (f_equal (run_map RObj) (Hfold [])).
Qed.

(** On a store that holds a tree, [breakCircularReferences] returns, with
    fuel for the size of the tree, the copy that the traversal over the
    tree computes: no reference-identity test fires. *)
Lemma breakCircularReferences_on_tree (st : store) (v : value) (t : json) :
  represents st v t ->
  forall fuel, jsize t <= fuel ->
    breakCircularReferences fuel st v []
    = Done (json_result (Utils.breakCircularReferences t)).
Proof.
  intros Hv fuel Hfuel. unfold breakCircularReferences, Utils.breakCircularReferences.
  apply (removeSensitiveKeys_tree_sized st [] (S (jsize t))); auto.
  intros p [].
Qed.


Example represents_tree_sample : represents st_tree (VRef 0) tree_sample.
Proof.
  simpl. exists 0, [("a", VPrim (PNum 1)); ("b", VRef 1)].
  repeat split.
  exists 1, [VPrim (PStr "x"); VRef 2]. repeat split.
  exists 2, [("c", VPrim PNull)]. repeat split.
Qed.

Example breakCircularReferences_tree_sample :
  breakCircularReferences (jsize tree_sample) st_tree (VRef 0) []
  = Done (json_result tree_sample).
Proof. reflexivity. Qed.

End TreeStores.

(** *** Index routing *)

Section IndexRouting.
Import Luxon Engine Router.

(** The write index of an action stamped in July 2024. *)
Example getIndexName_july :
  getIndexName default "2024-07-01T00:00:00Z" (Some "c1") = "actions_c1_2024_07".
Proof. reflexivity. Qed.

(** The month buckets of the range July 1st to August 31st, 2024. *)
Example splitByMonth_july_august :
  option_map (map (fun d => (toISO (fst d), toISO (snd d))))
    (splitByMonth 3 (readUTC "2024-07-01T00:00:00Z")
                    (readUTC "2024-08-31T23:59:59Z")) =
  Some [("2024-07-01T00:00:00.000Z", "2024-08-01T00:00:00.000Z");
        ("2024-08-01T00:00:00.000Z", "2024-08-31T23:59:59.000Z")].
Proof. reflexivity. Qed.

(** C3 (evaluated on the code): for company [c1] and the range
    2024-07-01T00:00:00Z to 2024-08-31T23:59:59Z, [getIndexNameRange]
    returns two comma-joined names, and both are the index of August 2024:
    each bucket is named after its end, and the July bucket ends on
    August 1st.  The index of July 2024 is not in the result.  The two
    bounds are texts of the form that [readUTC] reads as luxon does. *)
Theorem getIndexNameRange_july_august_names_august_twice :
  forall clock : Clock,
    getIndexNameRange readUTC default clock "c1"
      (Some "2024-07-01T00:00:00Z") (Some "2024-08-31T23:59:59Z")
    = Some "actions_c1_2024_08,actions_c1_2024_08".
Proof. intros clock. reflexivity. Qed.

End IndexRouting.

(** *** Flattening of the request *)

Section RequestFlattening.
Import JS Utils Codec.

(** A string leaf is stored verbatim, at the top level and one level down. *)
Example serialize_request_strings :
  serialize_request [("url", JStr "/api/submit");
                     ("body", JObj [("data", JStr "test")])] =
  [mkRequestEntry "url" None "/api/submit";
   mkRequestEntry "data" (Some "body") "test"].
Proof. reflexivity. Qed.

(** A non-string leaf at the top level is stored as its own JSON text. *)
Example serialize_request_top_level_number :
  serialize_request [("count", JNum 5)] = [mkRequestEntry "count" None "5"].
Proof. reflexivity. Qed.

(** C4 (evaluated on the code): for [request = {body: {count: 5}}] the
    value stored for the nested field [body.count] is the JSON text of the
    whole parent object [{count: 5}], not the JSON text [5] of the leaf:
    the nested branch stringifies [value] where the leaf is
    [nestedValue]. *)
Theorem serialize_request_nested_leaf_stores_parent :
  serialize_request [("body", JObj [("count", JNum 5)])] =
    [mkRequestEntry "count" (Some "body")
       (JSON_stringify (JObj [("count", JNum 5)]))]
  /\ JSON_stringify (JObj [("count", JNum 5)]) <> JSON_stringify (JNum 5)
  /\ JSON_stringify (JNum 5) = "5".
Proof. repeat split. discriminate. Qed.

End RequestFlattening.

(** *** The filter compiler *)

Section FilterCompiler.
Import JS Luxon Engine Compiler Spec.

(** C5 (evaluated on the code): the free-text [query] of the filters has
    no effect on the compiled clauses; no clause is appended for it. *)
Theorem buildFindManyQuery_ignores_query :
  forall (fromISO : reader) (cfg : config) (clock : Clock)
         (options : FindActionOptions) (filters : FindActionFilters)
         (q : option string),
    buildFindManyQuery fromISO cfg clock options (withQuery filters q)
    = buildFindManyQuery fromISO cfg clock options filters.
Proof. intros. reflexivity. Qed.

(** The filters of the repository's test "with query string": only the two
    always-present clauses come out. *)
Example buildFindManyQuery_query_string :
  forall clock options,
    buildFindManyQuery readUTC default clock options
      (mkFilters "123" (Some "2024-07-01T00:00:00.000Z")
         (Some "2024-08-31T23:59:59.999Z") None None None None None None None
         None None None None None None None (Some "abc123"))
    = [Term "companyId" (JStr "123");
       Range "timestamp" (Some (JStr "2024-07-01T00:00:00.000Z"))
                         (Some (JStr "2024-08-31T23:59:59.999Z"))].
Proof. intros. reflexivity. Qed.

(** The top-level [meta] filter emits one independent clause per key. *)
Lemma metaMust_per_key (m : obj json) :
  metaMust m = map (perKeyClause "meta") m.
Proof.
  unfold metaMust. apply map_ext. intros [k v]. reflexivity.
Qed.

(** C2 (evaluated on the code): for an agents candidate whose [meta]
    sub-filter has the two keys [a] and [b], the compiler emits one shared
    [nested("agents.meta")] clause whose [bool.must] holds the four terms of
    both keys, not one clause per key.  The two bounds are texts of the
    form that [readUTC] reads as luxon does. *)
Theorem buildFindManyQuery_agents_meta_shares_one_nested_clause :
  forall (clock : Clock) (options : FindActionOptions),
    buildFindManyQuery readUTC default clock options
      (mkFilters "123" (Some "2024-07-01T00:00:00.000Z")
         (Some "2024-08-31T23:59:59.999Z") None None None None None None None
         None
         (Some (One (mkEntityFilter None None None
                       (Some [("a", JStr "1"); ("b", JStr "2")]))))
         None None None None None None)
    = [Term "companyId" (JStr "123");
       Range "timestamp" (Some (JStr "2024-07-01T00:00:00.000Z"))
                         (Some (JStr "2024-08-31T23:59:59.999Z"));
       Nested "agents"
         (Nested "agents.meta"
            (BoolMust [Term "agents.meta.key" (JStr "a");
                       Term "agents.meta.value.keyword" (JStr "1");
                       Term "agents.meta.key" (JStr "b");
                       Term "agents.meta.value.keyword" (JStr "2")]))].
Proof. intros. reflexivity. Qed.

(** The same holds for every entity path and every sub-filter with two or
    more keys: a single [nested] clause carries all the terms. *)
Lemma nestedMetaClause_shared (path : string) (kv1 kv2 : string * json)
    (rest : obj json) :
  nestedMetaClause path (Some (kv1 :: kv2 :: rest))
  = [Nested path (BoolMust (metaTerms path (kv1 :: kv2 :: rest)))].
Proof. destruct kv1, kv2. reflexivity. Qed.

End FilterCompiler.

(** *** Printing and reading ISO timestamps *)

Section IsoTimestamps.
Import JS Luxon Spec.

Lemma readDigits_app (s rest : string) :
  forall (acc v : Z),
    digitsValue s acc = Some v ->
    readDigits (String.length s) acc (s ++ rest) = Some (v, rest).
Proof.
  induction s as [|c s IH]; intros acc v H; simpl in *.
  - now inversion H.
  - destruct (digitValue c); [now apply IH | discriminate].
Qed.

Lemma padReadsBack_below (width : nat) (bound : nat) :
  forallb (padReadsBack width) (map Z.of_nat (seq 0 bound)) = true ->
  forall n : Z, (0 <= n < Z.of_nat bound)%Z -> padReadsBack width n = true.
Proof.
  intros Hall n Hn.
  rewrite forallb_forall in Hall. apply Hall.
  apply in_map_iff. exists (Z.to_nat n). split; [lia|].
  apply in_seq. lia.
Qed.

Lemma padReadsBack_2 : forall n, (0 <= n < 100)%Z -> padReadsBack 2 n = true.
Proof. apply (padReadsBack_below 2 100). vm_compute. reflexivity. Qed.

Lemma padReadsBack_3 : forall n, (0 <= n < 1000)%Z -> padReadsBack 3 n = true.
Proof. apply (padReadsBack_below 3 1000). vm_compute. reflexivity. Qed.

Lemma padReadsBack_4 : forall n, (0 <= n < 10000)%Z -> padReadsBack 4 n = true.
Proof. apply (padReadsBack_below 4 (100 * 100)). vm_compute. reflexivity. Qed.

Lemma readDigits_pad (width : nat) (n : Z) (rest : string) :
  padReadsBack width n = true ->
  readDigits width 0 (padStart width (digits n) ++ rest) = Some (n, rest).
Proof.
  unfold padReadsBack. intros H.
  apply andb_true_iff in H. destruct H as [Hlen Hval].
  apply Nat.eqb_eq in Hlen.
  destruct (digitsValue (padStart width (digits n)) 0) as [v|] eqn:E;
    [|discriminate].
  apply Z.eqb_eq in Hval. subst v.
  rewrite <- Hlen at 1. now apply readDigits_app.
Qed.

(** The text [toISO] prints for a valid [DateTime] is read back by
    [readUTC] as the same [DateTime]. *)
Lemma readUTC_toISO (d : DateTime) :
  isValid d = true -> readUTC (toISO d) = Some d.
Proof.
  intros Hv. pose proof Hv as Hv'.
  unfold isValid in Hv'.
  repeat (apply andb_true_iff in Hv'; destruct Hv' as [Hv' ?]).
  repeat match goal with
         | H : (_ <=? _)%Z = true |- _ => apply Z.leb_le in H
         end.
  assert (Hdim : (daysInMonth (year d) (month d) <= 31)%Z).
  { unfold daysInMonth.
    repeat match goal with |- context [if ?b then _ else _] => destruct b end;
      lia. }
  destruct d as [y mo dd h mi se ms]; simpl in *.
  unfold toISO, readUTC, formatYear; simpl year; simpl month; simpl day;
    simpl hour; simpl minute; simpl second; simpl millisecond.
  replace ((0 <=? y)%Z && (y <=? 9999)%Z) with true
    by (symmetry; apply andb_true_iff; split; apply Z.leb_le; lia).
  rewrite (readDigits_pad 4 y) by (apply padReadsBack_4; lia).
  cbn [bind append expect Ascii.eqb Bool.eqb].
  rewrite (readDigits_pad 2 mo) by (apply padReadsBack_2; lia).
  cbn [bind append expect Ascii.eqb Bool.eqb].
  rewrite (readDigits_pad 2 dd) by (apply padReadsBack_2; lia).
  cbn [bind append expect Ascii.eqb Bool.eqb].
  rewrite (readDigits_pad 2 h) by (apply padReadsBack_2; lia).
  cbn [bind append expect Ascii.eqb Bool.eqb].
  rewrite (readDigits_pad 2 mi) by (apply padReadsBack_2; lia).
  cbn [bind append expect Ascii.eqb Bool.eqb].
  rewrite (readDigits_pad 2 se) by (apply padReadsBack_2; lia).
  cbn [bind append expect Ascii.eqb Bool.eqb].
  rewrite (readDigits_pad 3 ms) by (apply padReadsBack_3; lia).
  cbn [bind]. rewrite Hv. reflexivity.
Qed.

(** [readUTC] only yields valid instants. *)
Lemma readUTC_valid (s : string) (d : DateTime) :
  readUTC s = Some d -> isValid d = true.
Proof.
  unfold readUTC, bind. intros H.
  repeat match type of H with
         | match ?x with _ => _ end = Some _ =>
             destruct x eqn:?; try discriminate
         | (let '(_, _) := ?p in _) = Some _ => destruct p
         end.
  inversion H; subst. assumption.
Qed.

End IsoTimestamps.

(** *** The always-present clauses *)

Section AlwaysPresent.
Import JS Luxon Engine Compiler Spec.







(** The first scenario of the specification, evaluated: no bound is given,
    and the clock shows 2024-10-15T01:02:03.004Z. *)
Example buildFindManyQuery_only_company :
  forall fromISO : reader,
    buildFindManyQuery fromISO default sampleClock
      (mkOptions None None None None) (onlyCompany "123")
    = [Term "companyId" (JStr "123");
       Range "timestamp" (Some (JStr "2024-04-15T01:02:03.004Z"))
                         (Some (JStr "2024-10-15T01:02:03.004Z"))].
Proof. reflexivity. Qed.

(** A default lower bound keeps to the end of a shorter month: six months
    before August 31st is the last day of February. *)
Example minusMonths_end_of_month :
  minusMonths (mkDateTime 2024 8 31 12 0 0 0) 6 = mkDateTime 2024 2 29 12 0 0 0.
Proof. reflexivity. Qed.

End AlwaysPresent.

(** *** Singleton collapse *)

Section SingletonCollapse.
Import JS Luxon Engine Compiler Spec.

Local Abbreviation WC l := (forallb wellCollapsed l = true).

Lemma WC_app (l1 l2 : list Query) : WC l1 -> WC l2 -> WC (l1 ++ l2).
Proof. intros H1 H2. now rewrite forallb_app, H1, H2. Qed.

Lemma WC_flat_map {A : Type} (f : A -> list Query) (l : list A) :
  (forall a, WC (f a)) -> WC (flat_map f l).
Proof.
  intros Hf. induction l as [|a l IH]; simpl; [reflexivity|].
  now apply WC_app.
Qed.

Lemma WC_map {A : Type} (f : A -> Query) (l : list A) :
  (forall a, wellCollapsed (f a) = true) -> WC (map f l).
Proof.
  intros Hf. induction l as [|a l IH]; simpl; [reflexivity|].
  now rewrite Hf, IH.
Qed.

Lemma collapseMust_single (x : Query) : collapseMust [x] = x.
Proof. reflexivity. Qed.

Lemma collapseShould_single (x : Query) : collapseShould [x] = x.
Proof. reflexivity. Qed.

Lemma collapseMust_many (xs : list Query) :
  2 <= List.length xs -> collapseMust xs = BoolMust xs.
Proof. destruct xs as [|x [|y r]]; simpl; intros; (reflexivity || lia). Qed.

Lemma collapseShould_many (xs : list Query) :
  2 <= List.length xs -> collapseShould xs = BoolShould xs.
Proof. destruct xs as [|x [|y r]]; simpl; intros; (reflexivity || lia). Qed.

Lemma wellCollapsed_collapseMust (xs : list Query) :
  xs <> [] -> WC xs -> wellCollapsed (collapseMust xs) = true.
Proof.
  destruct xs as [|x [|y r]]; intros Hne H; [congruence| |exact H].
  simpl in *. now rewrite andb_true_r in H.
Qed.

Lemma wellCollapsed_collapseShould (xs : list Query) :
  xs <> [] -> WC xs -> wellCollapsed (collapseShould xs) = true.
Proof.
  destruct xs as [|x [|y r]]; intros Hne H; [congruence| |exact H].
  simpl in *. now rewrite andb_true_r in H.
Qed.

Lemma WC_pushIfAny (out xs : list Query) (q : Query) :
  WC out -> (xs <> [] -> wellCollapsed q = true) -> WC (pushIfAny out xs q).
Proof.
  intros Hout Hq. destruct xs as [|x r]; simpl; [exact Hout|].
  apply WC_app; [exact Hout|]. simpl. rewrite Hq; [reflexivity|discriminate].
Qed.

Lemma WC_pushMust (out xs : list Query) :
  WC out -> WC xs -> WC (pushMust out xs).
Proof.
  intros Hout Hxs. apply WC_pushIfAny; [exact Hout|].
  intros Hne. now apply wellCollapsed_collapseMust.
Qed.

Lemma WC_pushShould (out xs : list Query) :
  WC out -> WC xs -> WC (pushShould out xs).
Proof.
  intros Hout Hxs. apply WC_pushIfAny; [exact Hout|].
  intros Hne. now apply wellCollapsed_collapseShould.
Qed.

Lemma WC_fold_pushMust {A : Type} (f : A -> list Query) (l : list A) :
  (forall a, WC (f a)) ->
  forall acc, WC acc -> WC (fold_left (fun acc a => pushMust acc (f a)) l acc).
Proof.
  intros Hf. induction l as [|a l IH]; intros acc Hacc; simpl; [exact Hacc|].
  apply IH. now apply WC_pushMust.
Qed.

Lemma WC_termIfSet (field : string) (v : option string) : WC (termIfSet field v).
Proof. destruct v as [s|]; simpl; [destruct (truthy_str s)|]; reflexivity. Qed.

Lemma WC_metaTerms (path : string) (m : obj json) : WC (metaTerms path m).
Proof. apply WC_flat_map. intros [k v]. reflexivity. Qed.

(** The shared clause of a metadata map always holds two terms or more, so
    its [bool.must] is never a singleton. *)
Lemma wellCollapsed_nested_metaTerms (path : string) (m : obj json) :
  metaTerms path m <> [] ->
  wellCollapsed (Nested path (collapseMust (metaTerms path m))) = true.
Proof.
  intros Hne. simpl.
  apply wellCollapsed_collapseMust; [exact Hne | apply WC_metaTerms].
Qed.

Lemma WC_nestedMetaClause (path : string) (m : option (obj json)) :
  WC (nestedMetaClause path m).
Proof.
  destruct m as [[|kv props]|]; try reflexivity.
  unfold nestedMetaClause.
  apply (WC_pushIfAny [] _ _ eq_refl).
  apply wellCollapsed_nested_metaTerms.
Qed.

Lemma WC_scalarSetClause (filters : FindActionFilters) (key : string) :
  WC (scalarSetClause filters key).
Proof.
  unfold scalarSetClause.
  destruct (scalarField filters key) as [[s|l]|]; simpl;
    [destruct (truthy_str s)| |]; reflexivity.
Qed.

Lemma WC_frameworkClause (fs : oneOrMany FrameworkFilter) :
  WC (frameworkClause fs).
Proof.
  apply WC_pushShould; [reflexivity|].
  apply WC_fold_pushMust; [|reflexivity].
  intros f. apply WC_flat_map. intros key. apply WC_termIfSet.
Qed.

Lemma WC_actionClause (acts : oneOrMany ActionFilter) : WC (actionClause acts).
Proof.
  apply WC_pushShould; [reflexivity|].
  apply WC_fold_pushMust; [|reflexivity].
  intros a. apply WC_flat_map. intros key. apply WC_termIfSet.
Qed.

Lemma WC_entityMust (entity : string) (e : EntityFilter) :
  WC (entityMust entity e).
Proof.
  apply WC_app; [|apply WC_nestedMetaClause].
  apply WC_flat_map. intros key. apply WC_termIfSet.
Qed.

Lemma WC_entityClause (entity : string) (es : oneOrMany EntityFilter) :
  WC (entityClause entity es).
Proof.
  unfold entityClause.
  apply (WC_pushIfAny [] _ _ eq_refl). intros Hne. simpl.
  apply wellCollapsed_collapseShould; [exact Hne|].
  apply WC_fold_pushMust; [|reflexivity].
  intros e. apply WC_entityMust.
Qed.

Lemma WC_requestMust (r : obj json) : WC (requestMust r).
Proof.
  apply WC_flat_map. intros [k v].
  destruct (objectEntries v) as [inner|]; [|reflexivity].
  apply WC_map. intros [ik iv]. reflexivity.
Qed.

Lemma WC_requestClause (rs : oneOrMany (obj json)) : WC (requestClause rs).
Proof.
  apply WC_pushShould; [reflexivity|].
  apply WC_fold_pushMust; [|reflexivity].
  apply WC_requestMust.
Qed.

Lemma WC_responseMapClause (path : string) (ms : option (oneOrMany (obj json))) :
  WC (responseMapClause path ms).
Proof.
  destruct ms as [maps|]; [|reflexivity]. simpl.
  apply WC_pushShould; [reflexivity|].
  generalize (@nil Query) (eq_refl : WC (@nil Query)).
  induction (asArray maps) as [|m l IH]; intros acc Hacc; simpl; [exact Hacc|].
  apply IH. apply WC_pushIfAny; [exact Hacc|].
  apply wellCollapsed_nested_metaTerms.
Qed.

Lemma WC_responseClause (r : ResponseFilter) : WC (responseClause r).
Proof.
  apply WC_pushMust; [reflexivity|].
  repeat apply WC_app; try apply WC_responseMapClause.
  - unfold responseStatus.
    destruct (rf_status r) as [[s|l]|]; simpl;
      [destruct (truthy_str s)| |]; reflexivity.
  - unfold responseTime. destruct (rf_time r) as [tf|]; [|reflexivity].
    destruct (truthy_time (tf_gte tf) || truthy_time (tf_lt tf)); reflexivity.
Qed.

Lemma WC_changesClause (cs : oneOrMany ChangeFilter) : WC (changesClause cs).
Proof.
  unfold changesClause.
  apply (WC_pushIfAny [] _ _ eq_refl). intros Hne. simpl.
  apply wellCollapsed_collapseShould; [exact Hne|].
  apply WC_fold_pushMust; [|reflexivity].
  intros c. apply WC_app; [|apply WC_nestedMetaClause].
  apply WC_flat_map. intros key. apply WC_termIfSet.
Qed.

Lemma WC_metaClause (ms : oneOrMany (obj json)) : WC (metaClause ms).
Proof.
  apply WC_pushShould; [reflexivity|].
  apply WC_fold_pushMust; [|reflexivity].
  intros m. apply WC_map. intros [k v]. reflexivity.
Qed.

Lemma wellCollapsed_timestampRange (fromISO : reader) (cfg : config)
    (clock : Clock) (filters : FindActionFilters) :
  wellCollapsed (timestampRange fromISO cfg clock filters) = true.
Proof.
  unfold timestampRange, now.
  destruct (start filters) as [s|]; [destruct (truthy_str s)|]; reflexivity.
Qed.

Lemma WC_whenSet {A : Type} (o : option A) (f : A -> list Query) :
  (forall a, WC (f a)) -> WC (whenSet o f).
Proof. intros Hf. destruct o; [apply Hf | reflexivity]. Qed.

(** The two idioms of the source are the groups of the specification. *)
Lemma pushMust_allOf (out xs : list Query) : pushMust out xs = out ++ allOf xs.
Proof.
  destruct xs as [|x [|y r]]; simpl; [now rewrite app_nil_r| |]; reflexivity.
Qed.

Lemma pushShould_anyOf (out xs : list Query) :
  pushShould out xs = out ++ anyOf xs.
Proof.
  destruct xs as [|x [|y r]]; simpl; [now rewrite app_nil_r| |]; reflexivity.
Qed.

Lemma pushIfAny_within (path : string) (xs : list Query) :
  pushIfAny [] xs (Nested path (collapseShould xs)) = within path (anyOf xs).
Proof. destruct xs as [|x [|y r]]; reflexivity. Qed.

Lemma fold_pushMust {A : Type} (f : A -> list Query) (l : list A) :
  forall acc,
    fold_left (fun acc a => pushMust acc (f a)) l acc
    = acc ++ flat_map (fun a => allOf (f a)) l.
Proof.
  induction l as [|a l IH]; intros acc; simpl; [now rewrite app_nil_r|].
  now rewrite IH, pushMust_allOf, <- app_assoc.
Qed.

Lemma candidates_grouped {A : Type} (f : A -> list Query)
    (candidates : oneOrMany A) :
  pushShould []
    (fold_left (fun acc a => pushMust acc (f a)) (asArray candidates) [])
  = anyCandidate f candidates.
Proof. now rewrite pushShould_anyOf, fold_pushMust. Qed.

Lemma nested_candidates_grouped {A : Type} (path : string)
    (f : A -> list Query) (candidates : oneOrMany A) :
  (let group :=
     fold_left (fun acc a => pushMust acc (f a)) (asArray candidates) [] in
   pushIfAny [] group (Nested path (collapseShould group)))
  = within path (anyCandidate f candidates).
Proof. cbv zeta. now rewrite pushIfAny_within, fold_pushMust. Qed.

Lemma nestedMetaClause_grouped (path : string) (m : option (obj json)) :
  nestedMetaClause path m = metaGroup path m.
Proof.
  destruct m as [props|]; [|reflexivity]. unfold nestedMetaClause, metaGroup.
  destruct props as [|[k v] props]; [reflexivity|].
  destruct props as [|[k' v'] props]; reflexivity.
Qed.

Lemma responseMapClause_grouped (path : string)
    (ms : option (oneOrMany (obj json))) :
  responseMapClause path ms = mapsGroup path ms.
Proof.
  destruct ms as [maps|]; [|reflexivity]. unfold responseMapClause, mapsGroup.
  rewrite pushShould_anyOf. simpl. f_equal.
  assert (H : forall l acc,
             fold_left
               (fun acc m =>
                  pushIfAny acc (metaTerms path m)
                    (Nested path (collapseMust (metaTerms path m))))
               l acc
             = acc ++ flat_map (fun m => metaGroup path (Some m)) l).
  { induction l as [|m l IH]; intros acc; simpl; [now rewrite app_nil_r|].
    rewrite IH, app_assoc. f_equal.
    unfold metaGroup.
    destruct (metaTerms path m) as [|x [|y r]]; simpl;
      [now rewrite app_nil_r| |]; reflexivity. }
  apply H.
Qed.

Lemma responseClause_grouped (r : ResponseFilter) :
  responseClause r = responseGroup r.
Proof.
  unfold responseClause, responseGroup.
  now rewrite pushMust_allOf, !responseMapClause_grouped.
Qed.

Lemma whenSet_ext {A : Type} (o : option A) (f g : A -> list Query) :
  (forall a, f a = g a) -> whenSet o f = whenSet o g.
Proof. intros H. destruct o; [apply H | reflexivity]. Qed.

(** C7 (amended): in the list compiled from any options and filters, no
    [bool.must] or [bool.should] array, at any depth, is empty or has
    exactly one element; and the list is made of the groups of the
    specification: every AND group and every OR group emits nothing when
    it holds no clause, its one clause bare when it holds one, and its
    boolean combinator around them when it holds two or more.  The clauses
    a group holds are those its candidates emit: a candidate that emits no
    clause adds nothing to the group and is not counted. *)
Theorem buildFindManyQuery_singleton_collapse :
  forall (fromISO : reader) (cfg : config) (clock : Clock)
         (options : FindActionOptions) (filters : FindActionFilters),
    forallb wellCollapsed
            (buildFindManyQuery fromISO cfg clock options filters) = true
    /\ buildFindManyQuery fromISO cfg clock options filters
       = groupedClauses fromISO cfg clock filters
    /\ (forall (path : string) (m : option (obj json)),
          nestedMetaClause path m = metaGroup path m).
Proof.
  intros fromISO cfg clock options filters. split; [|split].
  - unfold buildFindManyQuery.
    repeat match goal with
           | |- forallb _ (_ ++ _) = true => apply WC_app
           end.
    + simpl. now rewrite wellCollapsed_timestampRange.
    + apply WC_flat_map. apply WC_scalarSetClause.
    + apply WC_whenSet, WC_frameworkClause.
    + apply WC_whenSet, WC_actionClause.
    + apply WC_whenSet, WC_entityClause.
    + apply WC_whenSet, WC_entityClause.
    + apply WC_whenSet, WC_requestClause.
    + apply WC_whenSet, WC_responseClause.
    + apply WC_whenSet, WC_changesClause.
    + apply WC_whenSet, WC_metaClause.
  - unfold buildFindManyQuery, groupedClauses.
    repeat (f_equal; try apply whenSet_ext; intros;
            try apply candidates_grouped;
            try apply nested_candidates_grouped;
            try apply responseClause_grouped).
  - apply nestedMetaClause_grouped.
Qed.

(** C7 as stated fails on a group with a candidate that emits nothing: the
    [framework] filter below has two candidates, the second one empty, and
    its OR group comes out as the bare term of the first, not as a
    [bool.should]. *)
Lemma buildFindManyQuery_empty_candidate_is_not_counted :
  buildFindManyQuery readUTC default sampleClock
    (mkOptions None None None None)
    (mkFilters "123" None None None None None None None None
       (Some (Many [mkFrameworkFilter (Some "a") None;
                    mkFrameworkFilter None None]))
       None None None None None None None None)
  = [Term "companyId" (JStr "123");
     Range "timestamp" (Some (JStr "2024-04-15T01:02:03.004Z"))
                       (Some (JStr "2024-10-15T01:02:03.004Z"));
     Term "framework.name" (JStr "a")].
Proof. reflexivity. Qed.

(** With two candidates that both emit a clause, the same group is
    wrapped. *)
Example buildFindManyQuery_two_frameworks :
  buildFindManyQuery readUTC default sampleClock
    (mkOptions None None None None)
    (mkFilters "123" None None None None None None None None
       (Some (Many [mkFrameworkFilter (Some "a") None;
                    mkFrameworkFilter (Some "b") (Some "2")]))
       None None None None None None None None)
  = [Term "companyId" (JStr "123");
     Range "timestamp" (Some (JStr "2024-04-15T01:02:03.004Z"))
                       (Some (JStr "2024-10-15T01:02:03.004Z"));
     BoolShould [Term "framework.name" (JStr "a");
                 BoolMust [Term "framework.name" (JStr "b");
                           Term "framework.version" (JStr "2")]]].
Proof. reflexivity. Qed.

End SingletonCollapse.

(** *** create and createMany *)

Section CreateActions.
Import JS Engine Schema Facade Spec.

Lemma obj_get_set_same {V : Type} (o : obj V) (k : string) (v : V) :
  obj_get (obj_set o k v) k = Some v.
Proof.
  induction o as [|[k' v'] o IH]; simpl.
  - now rewrite String.eqb_refl.
  - destruct (String.eqb k' k) eqn:E; simpl; rewrite E; [reflexivity|exact IH].
Qed.

Lemma obj_get_set_other {V : Type} (o : obj V) (k k' : string) (v : V) :
  k' <> k -> obj_get (obj_set o k v) k' = obj_get o k'.
Proof.
  intros Hne. induction o as [|[k0 v0] o IH]; simpl.
  - destruct (String.eqb k k') eqn:E; [|reflexivity].
    apply String.eqb_eq in E. congruence.
  - destruct (String.eqb k0 k) eqn:E; simpl.
    + apply String.eqb_eq in E. subst k0.
      destruct (String.eqb k k') eqn:E'; [|reflexivity].
      apply String.eqb_eq in E'. congruence.
    + destruct (String.eqb k0 k'); [reflexivity|exact IH].
Qed.

Lemma valid_is_object (action : json) :
  OpenSearchActionSchema action = true -> exists o, action = JObj o.
Proof. destruct action; try discriminate. intros _. now eexists. Qed.

Lemma withId_sameButId (action : json) (fresh : string) :
  OpenSearchActionSchema action = true ->
  sameButId action (withId action fresh).
Proof.
  intros Hv. destruct (valid_is_object action Hv) as [o ->].
  intros k Hk. simpl. now apply obj_get_set_other.
Qed.

Lemma withId_id (action : json) (fresh : string) :
  prop (withId action fresh) "id" = Some (idOrFresh action fresh).
Proof.
  destruct action; simpl; try reflexivity. apply obj_get_set_same.
Qed.

Lemma withId_idSettled (action : json) (fresh : string) :
  idSettled action (withId action fresh) fresh.
Proof.
  split.
  - intros s Hs Hne. rewrite withId_id. unfold idOrFresh. rewrite Hs.
    unfold truthy_str. apply String.eqb_neq in Hne. now rewrite Hne.
  - intros [H|H]; rewrite withId_id; unfold idOrFresh; now rewrite H.
Qed.

Lemma collectBulk_invalid (cfg : config) (actions : list json) :
  forall (w : world) (bulk dbActions : list json),
    forallb OpenSearchActionSchema actions = false ->
    fst (collectBulk cfg w actions bulk dbActions) = None
    /\ sent (snd (collectBulk cfg w actions bulk dbActions)) = sent w.
Proof.
  induction actions as [|a rest IH]; intros w bulk dbActions H; simpl in *.
  - discriminate.
  - destruct (OpenSearchActionSchema a); simpl in *.
    + match goal with
      | |- fst (collectBulk _ ?w1 _ ?b ?d) = _ /\ _ =>
          destruct (IH w1 b d H) as [H1 H2]
      end.
      split; [exact H1 | rewrite H2; reflexivity].
    + now split.
Qed.

Lemma collectBulk_valid (cfg : config) (actions : list json) :
  forall (w : world) (bulk dbActions : list json),
    forallb OpenSearchActionSchema actions = true ->
    exists (bulk' dbActions' : list json) (w' : world),
      collectBulk cfg w actions bulk dbActions
      = (Some (bulk ++ bulk', dbActions ++ dbActions'), w')
      /\ sent w' = sent w /\ accepts w' = accepts w
      /\ List.length bulk' = 2 * List.length actions
      /\ List.length dbActions' = List.length actions
      /\ forall (i : nat) (action : json),
           nth_error actions i = Some action ->
           nth_error dbActions' i
           = Some (withId action (uuid w (drawn w + i)))
           /\ nth_error bulk' (2 * i)
              = Some (bulkHeader cfg action (uuid w (drawn w + i)))
           /\ nth_error bulk' (2 * i + 1)
              = Some (withId action (uuid w (drawn w + i))).
Proof.
  induction actions as [|a rest IH]; intros w bulk dbActions H.
  - exists [], [], w. simpl. rewrite !app_nil_r.
    repeat split; try reflexivity; destruct i; discriminate.
  - simpl in H. apply andb_true_iff in H. destruct H as [Ha Hrest].
    cbn [collectBulk]. rewrite Ha. cbn [negb v4].
    destruct (IH (mkWorld (uuid w) (S (drawn w)) (sent w) (accepts w))
                 (bulk ++ [JObj [("index",
                                  JObj [("_index", JStr (getIndexName cfg a));
                                        ("_id", idOrFresh a (uuid w (drawn w)))])];
                           withId a (uuid w (drawn w))])
                 (dbActions ++ [withId a (uuid w (drawn w))]) Hrest)
      as (bulk' & db' & w' & Heq & Hsent & Hacc & Hlb & Hld & Hnth).
    exists ([bulkHeader cfg a (uuid w (drawn w)); withId a (uuid w (drawn w))]
            ++ bulk'),
           (withId a (uuid w (drawn w)) :: db'), w'.
    rewrite Heq. rewrite <- !app_assoc.
    repeat split; auto.
    + simpl. lia.
    + simpl. lia.
    + destruct i as [|i]; simpl in H.
      * inversion H; subst. now rewrite Nat.add_0_r.
      * destruct (Hnth i action H) as (H1 & _). simpl in H1.
        simpl. rewrite H1. do 3 f_equal. lia.
    + destruct i as [|i]; simpl in H.
      * inversion H; subst. now rewrite Nat.add_0_r.
      * destruct (Hnth i action H) as (_ & H2 & _). simpl in H2.
        replace (2 * S i) with (S (S (2 * i))) by lia.
        simpl. simpl in H2. rewrite H2. do 3 f_equal. lia.
    + destruct i as [|i]; simpl in H.
      * inversion H; subst. now rewrite Nat.add_0_r.
      * destruct (Hnth i action H) as (_ & _ & H3). simpl in H3.
        replace (2 * S i + 1) with (S (S (2 * i + 1))) by lia.
        simpl. simpl in H3. rewrite H3. do 3 f_equal. lia.
Qed.

(** C9 (amended): [createMany] does not throw at its caller: it is an
    [async] method and returns a promise.  If some element of the list
    fails the schema, that promise is rejected with the validation error
    and no request has been sent to the client (no bulk request, nothing
    written); if every element passes, exactly one bulk request is sent,
    and it covers all of them: for each action, in order, it lists a
    header and a document, the document being the action with its [id]
    settled, and the header naming an index and the [id] of the
    document. *)
Theorem createMany_validates_whole_batch_first :
  forall (cfg : config) (w : world) (actions : list json),
    fst (async (createMany cfg w actions)) <> Throws
    /\ (forallb OpenSearchActionSchema actions = false ->
        fst (async (createMany cfg w actions)) = Returns ValidationError
        /\ sent (snd (async (createMany cfg w actions))) = sent w)
    /\ (forallb OpenSearchActionSchema actions = true ->
        exists bulk : list json,
          sent (snd (async (createMany cfg w actions)))
          = sent w ++ [BulkRequest bulk]
          /\ List.length bulk = 2 * List.length actions
          /\ forall (i : nat) (action : json),
               nth_error actions i = Some action ->
               exists (index : string) (id doc : json),
                 nth_error bulk (2 * i)
                 = Some (JObj [("index", JObj [("_index", JStr index);
                                               ("_id", id)])])
                 /\ nth_error bulk (2 * i + 1) = Some doc
                 /\ prop doc "id" = Some id
                 /\ sameButId action doc
                 /\ idSettled action doc (uuid w (drawn w + i))).
Proof.
  intros cfg w actions. split; [discriminate|].
  unfold async. cbn [fst snd].
  split; intros H; unfold createMany.
  - destruct (collectBulk_invalid cfg actions w [] [] H) as [H1 H2].
    destruct (collectBulk cfg w actions [] []) as [[r|] w1]; simpl in *.
    + discriminate.
    + split; [reflexivity|exact H2].
  - destruct (collectBulk_valid cfg actions w [] [] H)
      as (bulk & db & w' & Heq & Hsent & Hacc & Hlb & Hld & Hnth).
    rewrite Heq. simpl. exists bulk.
    assert (Hs : sent (snd (let '(ok, w2) := send w' (BulkRequest bulk) in
                            if ok then (Resolved db, w2)
                            else (@ClientError (list json), w2)))
                 = sent w ++ [BulkRequest bulk]).
    { unfold send. destruct (accepts w' (BulkRequest bulk)); simpl;
        now rewrite Hsent. }
    split; [exact Hs|]. split; [exact Hlb|].
    intros i action Hi. destruct (Hnth i action Hi) as (_ & H2 & H3).
    exists (getIndexName cfg action),
           (idOrFresh action (uuid w (drawn w + i))),
           (withId action (uuid w (drawn w + i))).
    split; [exact H2|]. split; [exact H3|].
    split; [apply withId_id|].
    split; [|apply withId_idSettled].
    apply withId_sameButId.
    rewrite forallb_forall in H. apply H. now apply nth_error_In with i.
Qed.

Lemma createMany_validates_whole_batch_first_witness :
  (fst (async (createMany default sampleWorld [minimalAction; invalidAction]))
   = Returns ValidationError
   /\ sent (snd (async (createMany default sampleWorld
                          [minimalAction; invalidAction])))
      = sent sampleWorld)
  /\ (exists bulk : list json,
        sent (snd (async (createMany default sampleWorld
                            [minimalAction; actionWithId "a1"])))
        = sent sampleWorld ++ [BulkRequest bulk]
        /\ List.length bulk = 2 * 2).
Proof.
  split.
  - apply (createMany_validates_whole_batch_first default sampleWorld
             [minimalAction; invalidAction]).
    reflexivity.
  - destruct (proj2 (proj2 (createMany_validates_whole_batch_first default
                              sampleWorld [minimalAction; actionWithId "a1"]))
                    eq_refl)
      as (bulk & Hs & Hl & _).
    exists bulk. split; [exact Hs | exact Hl].
Defined.

(** C9 as stated fails on a list with an element that fails the schema:
    the call does not throw, it returns a promise, and the validation
    error is what that promise is rejected with. *)
Lemma createMany_rejects_instead_of_throwing :
  forallb OpenSearchActionSchema [minimalAction; invalidAction] = false
  /\ fst (async (createMany default sampleWorld [minimalAction; invalidAction]))
     = Returns ValidationError
  /\ fst (async (createMany default sampleWorld [minimalAction; invalidAction]))
     <> Throws.
Proof. repeat split. discriminate. Qed.

(** The bulk body of a batch of two, evaluated. *)
Example createMany_bulk_of_two :
  sent (snd (createMany default sampleWorld [minimalAction; actionWithId "a1"]))
  = [BulkRequest
       [JObj [("index", JObj [("_index", JStr "actions__2024_07");
                              ("_id", JStr "uuid-0")])];
        JObj [("timestamp", JStr "2024-07-01T00:00:00Z");
              ("action", JObj [("type", JStr "HTTP"); ("verb", JStr "GET")]);
              ("agents", JArr []);
              ("id", JStr "uuid-0")];
        JObj [("index", JObj [("_index", JStr "actions__2024_07");
                              ("_id", JStr "a1")])];
        JObj [("id", JStr "a1");
              ("timestamp", JStr "2024-07-01T00:00:00Z");
              ("action", JObj [("type", JStr "HTTP"); ("verb", JStr "GET")]);
              ("agents", JArr [])]]].
Proof. reflexivity. Qed.

Lemma create_resolved (cfg : config) (w w' : world) (action body : json) :
  create cfg w action = (Resolved body, w') ->
  OpenSearchActionSchema action = true
  /\ body = withId action (uuid w (drawn w))
  /\ sent w' = sent w ++ [IndexRequest (idOrFresh action (uuid w (drawn w)))
                                       (getIndexName cfg action) body true].
Proof.
  unfold create. destruct (OpenSearchActionSchema action); simpl;
    [|discriminate].
  destruct (accepts w _); intros H; inversion H; subst.
  repeat split.
Qed.

(** C10 (amended): a resolved [create] returns the input action with every
    property other than [id] unchanged, and the same document is what was
    sent for indexing; a resolved [createMany] returns one such action per
    input, in order, each being the document listed in the bulk request.
    The [id] of a returned action is the input's [id] when that is a
    non-empty string, and the identifier drawn from the generator for that
    action when the input has no [id] or an empty one. *)
Theorem create_settles_only_the_id :
  forall (cfg : config) (w : world),
    (forall (action body : json) (w' : world),
        create cfg w action = (Resolved body, w') ->
        sameButId action body
        /\ idSettled action body (uuid w (drawn w))
        /\ exists (i : json) (index : string),
             sent w' = sent w ++ [IndexRequest i index body true])
    /\ (forall (actions bodies : list json) (w' : world),
          createMany cfg w actions = (Resolved bodies, w') ->
          List.length bodies = List.length actions
          /\ exists bulk : list json,
               sent w' = sent w ++ [BulkRequest bulk]
               /\ forall (i : nat) (action : json),
                    nth_error actions i = Some action ->
                    exists body : json,
                      nth_error bodies i = Some body
                      /\ nth_error bulk (2 * i + 1) = Some body
                      /\ sameButId action body
                      /\ idSettled action body (uuid w (drawn w + i))).
Proof.
  intros cfg w. split.
  - intros action body w' H.
    destruct (create_resolved cfg w w' action body H) as (Hv & -> & Hs).
    split; [now apply withId_sameButId|].
    split; [apply withId_idSettled|].
    do 2 eexists. exact Hs.
  - intros actions bodies w' H. unfold createMany in H.
    destruct (forallb OpenSearchActionSchema actions) eqn:Hall.
    + destruct (collectBulk_valid cfg actions w [] [] Hall)
        as (bulk & db & w1 & Heq & Hsent & Hacc & Hlb & Hld & Hnth).
      rewrite Heq in H. simpl in H. unfold send in H.
      destruct (accepts w1 (BulkRequest bulk)); inversion H; subst; clear H.
      split; [exact Hld|]. exists bulk. simpl. rewrite Hsent.
      split; [reflexivity|].
      intros i action Hi. destruct (Hnth i action Hi) as (H1 & _ & H3).
      exists (withId action (uuid w (drawn w + i))).
      repeat split; auto.
      * apply withId_sameButId.
        rewrite forallb_forall in Hall. apply Hall.
        now apply nth_error_In with i.
      * apply withId_idSettled.
      * apply withId_idSettled.
    + destruct (collectBulk_invalid cfg actions w [] [] Hall) as [H1 _].
      destruct (collectBulk cfg w actions [] []) as [[r|] w1]; simpl in *;
        discriminate.
Qed.

Lemma create_settles_only_the_id_witness :
  sameButId (actionWithId "a1")
            (withId (actionWithId "a1") "uuid-0")
  /\ idSettled (actionWithId "a1") (withId (actionWithId "a1") "uuid-0")
               "uuid-0"
  /\ exists (i : json) (index : string),
       sent (snd (create default sampleWorld (actionWithId "a1")))
       = sent sampleWorld
         ++ [IndexRequest i index (withId (actionWithId "a1") "uuid-0") true].
Proof.
  apply (proj1 (create_settles_only_the_id default sampleWorld)
               (actionWithId "a1") (withId (actionWithId "a1") "uuid-0")
               (snd (create default sampleWorld (actionWithId "a1")))).
  reflexivity.
Defined.

(** C10 as stated fails on an input whose [id] is the empty string, which
    the schema accepts: [action.id || id] replaces it by the generated
    identifier. *)
Lemma create_replaces_empty_id :
  OpenSearchActionSchema (actionWithId "") = true
  /\ prop (actionWithId "") "id" = Some (JStr "")
  /\ fst (create default sampleWorld (actionWithId ""))
     = Resolved (withId (actionWithId "") "uuid-0")
  /\ prop (withId (actionWithId "") "uuid-0") "id" = Some (JStr "uuid-0").
Proof. repeat split. Qed.

End CreateActions.

(** *** Round trip of the codec *)

Section CodecRoundTrip.
Import JS Utils Codec Spec.

Lemma existsb_eqb_false (x : string) (l : list string) :
  existsb (String.eqb x) l = false -> ~ In x l.
Proof.
  intros H Hin. assert (existsb (String.eqb x) l = true); [|congruence].
  apply existsb_exists. exists x. split; [exact Hin|apply String.eqb_refl].
Qed.

Lemma distinct_cons (x : string) (l : list string) :
  distinct (x :: l) = true -> ~ In x l /\ distinct l = true.
Proof.
  simpl. intros H. apply andb_true_iff in H. destruct H as [H1 H2].
  split; [|exact H2]. apply existsb_eqb_false.
  now destruct (existsb (String.eqb x) l).
Qed.

Lemma obj_set_fresh {V : Type} (o : obj V) (k : string) (v : V) :
  ~ In k (map fst o) -> obj_set o k v = o ++ [(k, v)].
Proof.
  induction o as [|[k' v'] o IH]; simpl; intros H; [reflexivity|].
  destruct (String.eqb k' k) eqn:E.
  - apply String.eqb_eq in E. subst. exfalso. apply H. now left.
  - rewrite IH; [reflexivity|]. intros Hin. apply H. now right.
Qed.

Lemma obj_get_fresh {V : Type} (o : obj V) (k : string) :
  ~ In k (map fst o) -> obj_get o k = None.
Proof.
  induction o as [|[k' v'] o IH]; simpl; intros H; [reflexivity|].
  destruct (String.eqb k' k) eqn:E.
  - apply String.eqb_eq in E. subst. exfalso. apply H. now left.
  - apply IH. intros Hin. apply H. now right.
Qed.

Lemma obj_get_last {V : Type} (o : obj V) (k : string) (v : V) :
  ~ In k (map fst o) -> obj_get (o ++ [(k, v)]) k = Some v.
Proof.
  induction o as [|[k' v'] o IH]; simpl; intros H.
  - now rewrite String.eqb_refl.
  - destruct (String.eqb k' k) eqn:E.
    + apply String.eqb_eq in E. subst. exfalso. apply H. now left.
    + apply IH. intros Hin. apply H. now right.
Qed.

Lemma obj_set_last {V : Type} (o : obj V) (k : string) (v v' : V) :
  ~ In k (map fst o) -> obj_set (o ++ [(k, v)]) k v' = o ++ [(k, v')].
Proof.
  induction o as [|[k' v0] o IH]; simpl; intros H.
  - now rewrite String.eqb_refl.
  - destruct (String.eqb k' k) eqn:E.
    + apply String.eqb_eq in E. subst. exfalso. apply H. now left.
    + rewrite IH; [reflexivity|]. intros Hin. apply H. now right.
Qed.

(** Setting the entries of an object with distinct keys, one after the
    other, on an object that has none of them, appends them in order. *)
Lemma fold_obj_set_distinct {A V : Type} (kf : A -> string) (vf : A -> V)
    (l : list A) :
  forall acc : obj V,
    distinct (map kf l) = true ->
    (forall a, In a l -> ~ In (kf a) (map fst acc)) ->
    fold_left (fun o a => obj_set o (kf a) (vf a)) l acc
    = acc ++ map (fun a => (kf a, vf a)) l.
Proof.
  induction l as [|a l IH]; intros acc Hd Hfresh; simpl.
  - now rewrite app_nil_r.
  - destruct (distinct_cons _ _ Hd) as [Hnotin Hd'].
    rewrite obj_set_fresh by (apply Hfresh; now left).
    rewrite IH; [now rewrite <- app_assoc|exact Hd'|].
    intros b Hb. rewrite map_app, in_app_iff. simpl.
    intros [Hin|[Heq|[]]].
    + apply (Hfresh b); [now right|exact Hin].
    + apply Hnotin. rewrite Heq. now apply in_map.
Qed.

(** On a tree-shaped value with distinct keys, and no [__proto__] that the
    copy cannot store, the cycle breaker changes nothing. *)
Lemma breakCircularReferences_wf (v : json) :
  wfJson v = true -> Laws.settable v = true -> breakCircularReferences v = v.
Proof.
  unfold breakCircularReferences.
  induction v as [| | | |elems IH|props IH] using json_deep_ind;
    intros Hwf Hs; try reflexivity.
  - simpl. f_equal. simpl in Hwf, Hs.
    rewrite forallb_forall in Hwf, Hs. rewrite Forall_forall in IH.
    rewrite <- (map_id elems) at 2. apply map_ext_in.
    intros x Hx. apply IH; [exact Hx|now apply Hwf|now apply Hs].
  - simpl in Hwf. apply andb_true_iff in Hwf. destruct Hwf as [Hd Hall].
    cbn [Laws.settable] in Hs.
    cbn [removeSensitiveKeys]. f_equal.
    transitivity
      (fold_left (fun o (kv : string * json) => obj_set o (fst kv) (snd kv))
                 props []).
    + generalize (@nil (string * json)).
      clear Hd. induction props as [|[k x] props IHp]; intros acc;
        [reflexivity|].
      simpl in Hall. apply andb_true_iff in Hall. destruct Hall as [Hx Hall].
      simpl in Hs. apply andb_true_iff in Hs. destruct Hs as [Hsx Hs].
      inversion IH as [|? ? Hhead Htail]; subst. simpl in Hhead.
      specialize (Hhead Hx).
      cbn [fold_left existsb fst snd].
      assert (Hstep : match x with
                      | JArr velems =>
                          obj_set acc k
                            (JArr (map (fun elem => removeSensitiveKeys elem [])
                                       velems))
                      | JObj _ => obj_set acc k (removeSensitiveKeys x [])
                      | _ => obj_assign acc k x
                      end = obj_set acc k x).
      { destruct x;
          try (unfold obj_assign; apply negb_true_iff in Hsx;
               now rewrite Hsx).
        - specialize (Hhead Hsx). simpl in Hhead. now rewrite Hhead.
        - specialize (Hhead Hsx). now rewrite Hhead. }
      rewrite Hstep. now apply IHp.
    + rewrite (fold_obj_set_distinct fst snd props [] Hd); simpl.
      * rewrite <- (map_id props) at 2. apply map_ext. now intros [k x].
      * intros a _ [].
Qed.

(** A value without any key [__proto__] is one the copy can store. *)
Lemma ordinaryJson_settable (v : json) :
  ordinaryJson v = true -> Laws.settable v = true.
Proof.
  induction v as [| | | |elems IH|props IH] using json_deep_ind;
    intros H; try reflexivity.
  - simpl in *. rewrite forallb_forall in *. rewrite Forall_forall in IH.
    intros x Hx. apply IH; [exact Hx|now apply H].
  - simpl in *. rewrite forallb_forall in *. rewrite Forall_forall in IH.
    intros [k x] Hin. specialize (H (k, x) Hin). simpl in H.
    apply andb_true_iff in H. destruct H as [Hk Hx].
    specialize (IH (k, x) Hin Hx). simpl in IH.
    destruct x; try exact Hk; exact IH.
Qed.

Lemma stringify_leaf_wf (v : json) :
  wfJson v = true -> ordinaryJson v = true -> stringify_leaf v = jsonText v.
Proof.
  intros H Ho. destruct v; try reflexivity; unfold stringify_leaf, jsonText;
    now rewrite (breakCircularReferences_wf _ H (ordinaryJson_settable _ Ho)).
Qed.

Lemma string_of_uint_nonempty (d : Decimal.uint) :
  NilZero.string_of_uint d <> "".
Proof. destruct d; simpl; discriminate. Qed.

Lemma JSON_stringify_nonempty (v : json) : JSON_stringify v <> "".
Proof.
  destruct v as [|[|]|n|s|l|o]; simpl; try discriminate.
  unfold number_to_string, NilZero.string_of_int.
  destruct (Z.to_int n); [apply string_of_uint_nonempty|discriminate].
Qed.

Lemma truthy_str_JSON_stringify (v : json) :
  truthy_str (JSON_stringify v) = true.
Proof.
  unfold truthy_str. apply negb_true_iff. apply String.eqb_neq.
  apply JSON_stringify_nonempty.
Qed.

Ltac split_andb :=
  repeat match goal with
         | H : (_ && _)%bool = true |- _ =>
             apply andb_true_iff in H; destruct H
         end.

Lemma fold_left_ext_all {A B : Type} (f g : A -> B -> A) (l : list B) :
  (forall a b, f a b = g a b) ->
  forall acc, fold_left f l acc = fold_left g l acc.
Proof.
  intros H. induction l as [|b l IH]; intros acc; simpl; [reflexivity|].
  now rewrite H, IH.
Qed.

Lemma fold_left_over_map {A B C : Type} (f : A -> C -> A) (g : B -> C)
    (l : list B) :
  forall acc, fold_left f (map g l) acc = fold_left (fun a b => f a (g b)) l acc.
Proof. induction l as [|b l IH]; intros acc; simpl; [reflexivity|apply IH]. Qed.


(** **** Metadata maps *)

Lemma obj_assign_set {V : Type} (o : obj V) (k : string) (v : V) :
  notProto k = true -> obj_assign o k v = obj_set o k v.
Proof.
  unfold notProto, obj_assign. intros H. apply negb_true_iff in H.
  now rewrite H.
Qed.

Lemma fold_left_ext_in {A B : Type} (f g : A -> B -> A) (l : list B) :
  (forall a b, In b l -> f a b = g a b) ->
  forall acc, fold_left f l acc = fold_left g l acc.
Proof.
  induction l as [|b l IH]; intros H acc; simpl; [reflexivity|].
  rewrite H by now left. apply IH. intros a b' Hb. apply H. now right.
Qed.

Lemma ordinaryMap_parts (props : obj json) :
  ordinaryMap (Some props) = true ->
  forall kv, In kv props ->
             notProto (fst kv) = true /\ ordinaryJson (snd kv) = true.
Proof.
  simpl. intros H [k x] Hin. rewrite forallb_forall in H.
  specialize (H (k, x) Hin). simpl in H.
  now apply andb_true_iff in H.
Qed.

Lemma wfMap_parts (props : obj json) :
  wfMap (Some props) = true ->
  distinct (map fst props) = true
  /\ forall kv, In kv props -> wfJson (snd kv) = true.
Proof.
  simpl. intros H. split_andb. split; [assumption|].
  intros [k x] Hin.
  match goal with
  | Hf : forallb _ props = true |- _ =>
      rewrite forallb_forall in Hf; apply (Hf (k, x) Hin)
  end.
Qed.

(** Flattening a map and rebuilding it gives the map with every leaf
    replaced by the text stored for it. *)
Lemma roundtrip_map_keys (m : option (obj json)) :
  wfMap m = true -> protoFree m = true ->
  transformArrayToObject (transformObjectToArray m)
  = option_map (map (fun kv => (fst kv, JStr (stringify_leaf (snd kv))))) m.
Proof.
  destruct m as [props|]; [|reflexivity]. intros Hwf Hord.
  destruct (wfMap_parts props Hwf) as [Hd Hall].
  unfold transformObjectToArray, transformArrayToObject, option_map.
  f_equal. rewrite fold_left_over_map.
  simpl in Hord. rewrite forallb_forall in Hord.
  rewrite (fold_left_ext_in _
             (fun o kv => obj_set o (fst kv) (JStr (stringify_leaf (snd kv)))))
    by (intros o [k x] Hin; cbn [key value];
        apply obj_assign_set; apply (Hord (k, x) Hin)).
  now rewrite (fold_obj_set_distinct fst (fun kv => JStr (stringify_leaf (snd kv))))
    by (auto; intros a _ []).
Qed.

Lemma ordinaryMap_protoFree (m : option (obj json)) :
  ordinaryMap m = true -> protoFree m = true.
Proof.
  destruct m as [props|]; [|reflexivity]. intros H. simpl.
  apply forallb_forall. intros kv Hin.
  now apply (ordinaryMap_parts props H kv Hin).
Qed.

(** Flattening a map and rebuilding it gives the map with every leaf in
    its JSON-string form. *)
Lemma roundtrip_map (m : option (obj json)) :
  wfMap m = true -> ordinaryMap m = true ->
  transformArrayToObject (transformObjectToArray m)
  = option_map stringifiedMap m.
Proof.
  intros Hwf Hord.
  rewrite roundtrip_map_keys by (auto using ordinaryMap_protoFree).
  destruct m as [props|]; [|reflexivity].
  destruct (wfMap_parts props Hwf) as [_ Hall].
  pose proof (ordinaryMap_parts props Hord) as Hp.
  unfold option_map, stringifiedMap. apply f_equal. apply map_ext_in.
  intros kv Hin. rewrite stringify_leaf_wf; [reflexivity|now apply Hall|].
  now apply Hp.
Qed.





(** **** The request *)

Lemma step_top (o : obj json) (k s : string) :
  notProto k = true ->
  ~ In k (map fst o) ->
  unflatten_request_step (Some o) (mkRequestEntry k None s)
  = Some (o ++ [(k, JStr s)]).
Proof.
  intros Hp H. unfold unflatten_request_step. simpl.
  now rewrite obj_assign_set, obj_set_fresh.
Qed.

Lemma step_nested (o done : obj json) (k nk s : string) :
  truthy_str k = true -> notProto nk = true ->
  ~ In k (map fst o) -> ~ In nk (map fst done) ->
  unflatten_request_step (Some (o ++ [(k, JObj done)]))
                         (mkRequestEntry nk (Some k) s)
  = Some (o ++ [(k, JObj (done ++ [(nk, JStr s)]))]).
Proof.
  intros Hk Hp Ho Hd. unfold unflatten_request_step.
  cbn [rq_parent rq_key rq_value truthy_opt]. rewrite Hk. cbn [negb].
  rewrite (obj_get_last o k (JObj done) Ho). rewrite andb_false_r.
  cbn [truthy].
  rewrite (obj_get_last o k (JObj done) Ho).
  rewrite (obj_set_last o k _ _ Ho).
  now rewrite (obj_assign_set done nk _ Hp), (obj_set_fresh done nk _ Hd).
Qed.

Lemma step_nested_first (o : obj json) (k nk s : string) :
  truthy_str k = true -> notInherited k = true -> notProto nk = true ->
  ~ In k (map fst o) ->
  unflatten_request_step (Some o) (mkRequestEntry nk (Some k) s)
  = Some (o ++ [(k, JObj [(nk, JStr s)])]).
Proof.
  intros Hk Hi Hp Ho. unfold unflatten_request_step.
  cbn [rq_parent rq_key rq_value truthy_opt]. rewrite Hk. cbn [negb].
  unfold notInherited in Hi. apply negb_true_iff in Hi. rewrite Hi.
  cbn [andb].
  rewrite (obj_get_fresh o k Ho).
  rewrite (obj_set_fresh o k (JObj []) Ho).
  rewrite (obj_get_last o k (JObj []) Ho).
  rewrite (obj_assign_set [] nk _ Hp).
  now rewrite (obj_set_last o k _ _ Ho).
Qed.

Lemma fold_nested (o : obj json) (k : string) (g : string * json -> string)
    (inner : obj json) :
  truthy_str k = true ->
  ~ In k (map fst o) ->
  forall done : obj json,
    distinct (map fst inner) = true ->
    (forall nkv, In nkv inner -> notProto (fst nkv) = true) ->
    (forall nkv, In nkv inner -> ~ In (fst nkv) (map fst done)) ->
    fold_left unflatten_request_step
      (map (fun nkv => mkRequestEntry (fst nkv) (Some k) (g nkv)) inner)
      (Some (o ++ [(k, JObj done)]))
    = Some (o ++ [(k, JObj (done
                            ++ map (fun nkv => (fst nkv, JStr (g nkv))) inner))]).
Proof.
  intros Hk Ho. induction inner as [|nkv inner IH]; intros done Hd Hp Hfresh.
  - simpl. now rewrite app_nil_r.
  - destruct (distinct_cons _ _ Hd) as [Hnotin Hd'].
    cbn [map fold_left].
    rewrite step_nested
      by (auto; (apply Hp; now left) || (apply Hfresh; now left)).
    rewrite IH; [now rewrite <- app_assoc|exact Hd'| |].
    + intros b Hb. apply Hp. now right.
    + intros b Hb. rewrite map_app, in_app_iff. simpl.
      intros [Hin|[Heq|[]]].
      * apply (Hfresh b); [now right|exact Hin].
      * apply Hnotin. rewrite Heq. now apply in_map.
Qed.

Lemma flatten_nested (k : string) (inner : obj json) :
  wfJson (JObj inner) = true -> ordinaryJson (JObj inner) = true ->
  flatten_request_entry (k, JObj inner)
  = map (fun nkv => mkRequestEntry (fst nkv) (Some k)
                      (nestedText (JObj inner) nkv))
        inner.
Proof.
  intros Hwf Ho. unfold flatten_request_entry.
  apply map_ext. intros [nk nv]. unfold nestedText. simpl fst. simpl snd.
  destruct nv; try reflexivity;
    now rewrite (breakCircularReferences_wf _ Hwf
                   (ordinaryJson_settable _ Ho)).
Qed.

Lemma flatten_top (k : string) (v : json) :
  (forall inner, v <> JObj inner) ->
  flatten_request_entry (k, v) = [mkRequestEntry k None (stringify_leaf v)].
Proof.
  intros H. destruct v; try reflexivity. exfalso. now apply (H props).
Qed.

Lemma imageRequestEntry_nested (k : string) (inner : obj json) :
  imageRequestEntry (k, JObj inner)
  = (k, JObj (map (fun nkv => (fst nkv, JStr (nestedText (JObj inner) nkv)))
                  inner)).
Proof. reflexivity. Qed.

Lemma wfJson_obj_cons (k : string) (v : json) (r : obj json) :
  wfJson (JObj ((k, v) :: r)) = true ->
  ~ In k (map fst r) /\ distinct (map fst r) = true
  /\ wfJson v = true /\ wfJson (JObj r) = true.
Proof.
  intros H. simpl in H.
  apply andb_true_iff in H. destruct H as [Hd Hall].
  apply andb_true_iff in Hall. destruct Hall as [Hv Hall].
  destruct (distinct_cons k (map fst r) Hd) as [Hnotin Hd'].
  repeat split; try assumption.
  simpl. now rewrite Hd', Hall.
Qed.

(** Rebuilding the flattened entries of a request appends, for every key,
    its image. *)
Lemma fold_request (r : obj json) :
  forall acc : obj json,
    wfJson (JObj r) = true ->
    forallb ordinaryRequestEntry r = true ->
    forallb requestEntryKept r = true ->
    (forall kv, In kv r -> ~ In (fst kv) (map fst acc)) ->
    fold_left unflatten_request_step (flat_map flatten_request_entry r)
              (Some acc)
    = Some (acc ++ map imageRequestEntry r).
Proof.
  induction r as [|[k v] r IH]; intros acc Hwf Hord Hkept Hfresh.
  - simpl. now rewrite app_nil_r.
  - destruct (wfJson_obj_cons k v r Hwf) as (Hnotin & Hd' & Hwv & Hwr).
    simpl in Hkept. apply andb_true_iff in Hkept.
    destruct Hkept as [Hkept Hkeptr].
    simpl in Hord. apply andb_true_iff in Hord.
    destruct Hord as [Hordk Hordr].
    unfold ordinaryRequestEntry in Hordk. cbn [fst snd] in Hordk.
    apply andb_true_iff in Hordk. destruct Hordk as [Hordk Hinh].
    apply andb_true_iff in Hordk. destruct Hordk as [Hpk Hordv].
    assert (Hk : ~ In k (map fst acc)) by (apply (Hfresh (k, v)); now left).
    assert (Hrest : forall acc' : obj json,
               map fst acc' = map fst acc ++ [k] ->
               fold_left unflatten_request_step
                         (flat_map flatten_request_entry r) (Some acc')
               = Some (acc' ++ map imageRequestEntry r)).
    { intros acc' Hkeys. apply IH.
      - exact Hwr.
      - exact Hordr.
      - exact Hkeptr.
      - intros b Hb. rewrite Hkeys, in_app_iff. simpl.
        intros [Hin|[Heq|[]]].
        + apply (Hfresh b); [now right|exact Hin].
        + apply Hnotin. rewrite Heq. now apply in_map. }
    cbn [flat_map map]. rewrite fold_left_app.
    destruct v as [| | | |elems|inner];
      try (rewrite flatten_top by discriminate;
           rewrite stringify_leaf_wf by assumption;
           cbn [fold_left]; rewrite step_top by assumption;
           rewrite Hrest by (now rewrite map_app);
           now rewrite <- app_assoc).
    rewrite imageRequestEntry_nested.
    rewrite flatten_nested by assumption.
    unfold requestEntryKept in Hkept. cbn [fst snd] in Hkept.
    apply andb_true_iff in Hkept. destruct Hkept as [Hkept _].
    apply andb_true_iff in Hkept. destruct Hkept as [Htk Hne].
    pose proof (ordinaryMap_parts inner Hordv) as Hinner.
    destruct inner as [|[nk0 nv0] inner]; [discriminate|].
    cbn [map fold_left]. cbn [fst].
    rewrite step_nested_first
      by (try assumption; apply (Hinner (nk0, nv0)); now left).
    destruct (wfJson_obj_cons nk0 nv0 inner Hwv) as (Hni & Hdi' & _ & _).
    rewrite (fold_nested acc k (nestedText (JObj ((nk0, nv0) :: inner))) inner);
      try assumption.
    + rewrite Hrest by (now rewrite map_app).
      now rewrite <- app_assoc.
    + intros b Hb. apply (Hinner b). now right.
    + intros b Hb [Heq|[]]. apply Hni. simpl in Heq. rewrite Heq.
      now apply in_map.
Qed.

Lemma flattened_entries_kept (r : obj json) :
  forallb requestEntryKept r = true ->
  forallb (fun e => truthy_str (rq_value e))
          (flat_map flatten_request_entry r) = true.
Proof.
  induction r as [|[k v] r IH]; intros H; [reflexivity|].
  simpl in H. split_andb.
  cbn [flat_map]. rewrite forallb_app.
  apply andb_true_iff. split; [|now apply IH].
  unfold requestEntryKept in *. cbn [fst snd] in *.
  destruct v as [|b|n|s|elems|inner];
    try (cbn [flatten_request_entry stringify_leaf forallb rq_value];
         rewrite truthy_str_JSON_stringify; reflexivity).
  - cbn [flatten_request_entry stringify_leaf forallb rq_value].
    now rewrite andb_true_r.
  - split_andb. unfold flatten_request_entry.
    rewrite forallb_forall. intros e He. apply in_map_iff in He.
    destruct He as [[nk nv] [<- Hin]].
    match goal with
    | Hf : forallb _ inner = true |- _ =>
        rewrite forallb_forall in Hf; specialize (Hf (nk, nv) Hin)
    end.
    destruct nv; try apply truthy_str_JSON_stringify. assumption.
Qed.

Lemma roundtrip_request (r : obj json) :
  wfJson (JObj r) = true ->
  forallb ordinaryRequestEntry r = true ->
  forallb requestEntryKept r = true ->
  deserialize_request (serialize_request r) = Some (map imageRequestEntry r).
Proof.
  intros Hwf Hord Hkept. unfold deserialize_request, serialize_request.
  rewrite filter_all by now apply flattened_entries_kept.
  exact (fold_request r [] Hwf Hord Hkept (fun _ _ H => H)).
Qed.

(** **** The parts of an action *)

Lemma roundtrip_agent (g : Agent) :
  wfAgent g = true -> ordinaryAgent g = true ->
  deserialize_agent (serialize_agent g) = imageAgent g.
Proof.
  intros H Ho. unfold deserialize_agent, serialize_agent, imageAgent. simpl.
  now rewrite roundtrip_map.
Qed.

Lemma roundtrip_agents (l : list Agent) :
  forallb wfAgent l = true -> forallb ordinaryAgent l = true ->
  map deserialize_agent (map serialize_agent l) = map imageAgent l.
Proof.
  intros H Ho. rewrite map_map. apply map_ext_in. intros g Hg.
  rewrite forallb_forall in H, Ho. apply roundtrip_agent; auto.
Qed.

Lemma roundtrip_response (r : Response) :
  wfMap (rs_body r) && wfMap (rs_headers r) = true ->
  ordinaryMap (rs_body r) && ordinaryMap (rs_headers r) = true ->
  deserialize_response (serialize_response r) = imageResponse r.
Proof.
  intros H Ho. split_andb.
  unfold deserialize_response, serialize_response, imageResponse. simpl.
  now rewrite !roundtrip_map.
Qed.

Lemma truthy_jsonText (v : json) :
  truthy v = true -> truthy_str (jsonText v) = true.
Proof.
  destruct v; try (intros _; apply truthy_str_JSON_stringify).
  simpl. auto.
Qed.

Lemma roundtrip_before_after (x : option json) :
  wfOpt wfJson x = true -> wfOpt ordinaryJson x = true ->
  beforeAfterKept x = true ->
  option_map JStr (serialize_before_after x)
  = option_map (fun v => JStr (jsonText v)) x.
Proof.
  destruct x as [v|]; [|reflexivity]. simpl. intros Hwf Ho Hk.
  rewrite Hk. simpl. now rewrite stringify_leaf_wf.
Qed.

Lemma roundtrip_change (c : Change) :
  wfChange c = true -> ordinaryChange c = true ->
  beforeAfterKept (ch_before c) && beforeAfterKept (ch_after c) = true ->
  deserialize_change (serialize_change c) = imageChange c.
Proof.
  unfold wfChange, ordinaryChange. intros Hwf Ho Hk. split_andb.
  unfold deserialize_change, serialize_change, imageChange. simpl.
  now rewrite !roundtrip_before_after, roundtrip_map.
Qed.

Lemma roundtrip_changes (l : list Change) :
  forallb wfChange l = true -> forallb ordinaryChange l = true ->
  forallb (fun c => beforeAfterKept (ch_before c)
                    && beforeAfterKept (ch_after c)) l = true ->
  map deserialize_change (map serialize_change l) = map imageChange l.
Proof.
  intros Hwf Ho Hk. rewrite map_map. apply map_ext_in. intros c Hc.
  rewrite forallb_forall in Hwf, Ho, Hk. apply roundtrip_change; auto.
Qed.

Lemma roundtrip_cost (c : Cost) :
  wfMap (co_meta c) = true -> ordinaryMap (co_meta c) = true ->
  deserialize_cost (serialize_cost c) = imageCost c.
Proof.
  intros H Ho. unfold deserialize_cost, serialize_cost, imageCost. simpl.
  now rewrite roundtrip_map.
Qed.

(** What the round trip returns. *)
Lemma deserialize_serialize (a : Action) :
  wfAction a = true -> ordinaryAction a = true -> nothingDropped a = true ->
  deserialize (serialize a) = Some (imageAction a).
Proof.
  unfold wfAction, ordinaryAction, nothingDropped. intros Hwf Ho Hk.
  split_andb.
  destruct a as [i ts co cl ap en fw se tr ac ags tgs rq rs chs cst mt].
  unfold deserialize, serialize, imageAction. cbn [os_request] in *.
  cbn -[serialize_request deserialize_request transformArrayToObject
        transformObjectToArray] in *.
  assert (Hrq : match option_map serialize_request rq with
                | Some entries => option_map Some (deserialize_request entries)
                | None => Some None
                end = Some (option_map (map imageRequestEntry) rq)).
  { destruct rq as [r|]; [|reflexivity]. cbn [option_map wfOpt wfMap] in *.
    now rewrite roundtrip_request. }
  rewrite Hrq. f_equal. f_equal.
  - now apply roundtrip_agents.
  - destruct tgs; cbn [option_map wfOpt] in *; [|reflexivity].
    f_equal. now apply roundtrip_agents.
  - destruct rs; cbn [option_map wfOpt] in *; [|reflexivity].
    f_equal. now apply roundtrip_response.
  - destruct chs; cbn [option_map wfOpt] in *; [|reflexivity].
    f_equal. now apply roundtrip_changes.
  - destruct cst; cbn [option_map wfOpt] in *; [|reflexivity].
    f_equal. now apply roundtrip_cost.
  - now apply roundtrip_map.
Qed.

(** **** The image agrees with the action and is a fixed point *)

























(** On the sample the number among the agent's metadata comes back as its
    JSON text and everything else as it was. *)
Example roundtrip_sample_agent_meta :
  option_map (fun a' => map ag_meta (a_agents a'))
             (deserialize (serialize sampleAction))
  = Some [Some [("role", JStr "user"); ("age", JStr "30")];
          Some [("version", JStr "1.0")]].
Proof. reflexivity. Qed.


(** A metadata key [__proto__] does not come back: [deserialize] assigns
    it to the accessor every object inherits. *)
Example roundtrip_loses_proto_key :
  option_map a_meta
    (deserialize
       (serialize (bareAction None (Some [("__proto__", JStr "x");
                                          ("a", JStr "y")]))))
  = Some (Some [("a", JStr "y")]).
Proof. reflexivity. Qed.

(** A nested [request] object named like an inherited property is not
    rebuilt: its entries are written to the inherited object. *)
Example deserialize_inherited_parent :
  deserialize
    (serialize (bareAction (Some [("toString", JObj [("a", JStr "x")])])
                           None))
  = None.
Proof. reflexivity. Qed.

End CodecRoundTrip.

(** *** The map/list codec and the key remover (utils.ts) *)

Section UtilsLaws.
Import JS Utils Spec Laws.

Lemma existsb_keys_obj_set {V : Type} (x : string) (o : obj V) (k : string)
    (v : V) :
  existsb (String.eqb x) (map fst (obj_set o k v))
  = existsb (String.eqb x) (map fst o) || String.eqb x k.
Proof.
  induction o as [|[k' v'] o IH]; simpl.
  - now rewrite orb_false_r.
  - destruct (String.eqb k' k) eqn:E; simpl.
    + apply String.eqb_eq in E. subst k'.
      destruct (String.eqb x k), (existsb (String.eqb x) (map fst o));
        reflexivity.
    + rewrite IH. now rewrite orb_assoc.
Qed.

Lemma distinct_obj_set {V : Type} (o : obj V) (k : string) (v : V) :
  distinct (map fst o) = true -> distinct (map fst (obj_set o k v)) = true.
Proof.
  induction o as [|[k' v'] o IH]; simpl; intros H; [reflexivity|].
  apply andb_true_iff in H. destruct H as [Hfresh Hd].
  destruct (String.eqb k' k) eqn:E; simpl.
  - now rewrite Hfresh, Hd.
  - rewrite existsb_keys_obj_set, E, orb_false_r, Hfresh. simpl. now apply IH.
Qed.

Lemma forallb_obj_set {V : Type} (p : string * V -> bool) (o : obj V)
    (k : string) (v : V) :
  forallb p o = true -> p (k, v) = true ->
  forallb p (obj_set o k v) = true.
Proof.
  intros Ho Hv. induction o as [|[k' v'] o IH]; simpl in *.
  - now rewrite Hv.
  - apply andb_true_iff in Ho. destruct Ho as [Hh Ht].
    destruct (String.eqb k' k) eqn:E; simpl.
    + apply String.eqb_eq in E. subst k'. now rewrite Hv, Ht.
    + now rewrite Hh, IH.
Qed.

Lemma existsb_obj_set {V : Type} (p : string * V -> bool) (o : obj V)
    (k : string) (v : V) :
  existsb p o = false -> p (k, v) = false ->
  existsb p (obj_set o k v) = false.
Proof.
  intros Ho Hv. induction o as [|[k' v'] o IH]; simpl in *.
  - now rewrite Hv.
  - apply orb_false_iff in Ho. destruct Ho as [Hh Ht].
    destruct (String.eqb k' k) eqn:E; simpl.
    + apply String.eqb_eq in E. subst k'. now rewrite Hv, Ht.
    + now rewrite Hh, IH.
Qed.

(** **** [transformArrayToObject] *)

Local Abbreviation rebuilt items acc :=
  (fold_left (fun o item => obj_assign o (key item) (JStr (value item)))
             items acc).

Lemma distinct_obj_assign {V : Type} (o : obj V) (k : string) (v : V) :
  distinct (map fst o) = true -> distinct (map fst (obj_assign o k v)) = true.
Proof.
  intros H. unfold obj_assign. destruct (String.eqb k "__proto__");
    [exact H|now apply distinct_obj_set].
Qed.

Lemma rebuilt_distinct (items : list KV) :
  forall acc : obj json,
    distinct (map fst acc) = true ->
    distinct (map fst (rebuilt items acc)) = true.
Proof.
  induction items as [|it items IH]; intros acc H; simpl; [exact H|].
  apply IH. now apply distinct_obj_assign.
Qed.

Lemma rebuilt_proto (items : list KV) :
  forall acc : obj json,
    obj_get acc "__proto__" = None ->
    obj_get (rebuilt items acc) "__proto__" = None.
Proof.
  induction items as [|it items IH]; intros acc H; simpl; [exact H|].
  apply IH. unfold obj_assign.
  destruct (String.eqb (key it) "__proto__") eqn:E; [exact H|].
  rewrite obj_get_set_other; [exact H|].
  intros Heq. rewrite <- Heq, String.eqb_refl in E. discriminate.
Qed.

Lemma rebuilt_get (items : list KV) (k : string) :
  k <> "__proto__" ->
  forall acc : obj json,
    obj_get (rebuilt items acc) k
    = match lastWithKey items k with
      | Some it => Some (JStr (value it))
      | None => obj_get acc k
      end.
Proof.
  intros Hk. induction items as [|it items IH]; intros acc; simpl;
    [reflexivity|].
  rewrite IH. destruct (lastWithKey items k); [reflexivity|].
  destruct (String.eqb (key it) k) eqn:E.
  - apply String.eqb_eq in E. subst k. rewrite obj_assign_set.
    + apply obj_get_set_same.
    + unfold notProto. apply negb_true_iff. now apply String.eqb_neq.
  - unfold obj_assign. destruct (String.eqb (key it) "__proto__");
      [reflexivity|].
    apply obj_get_set_other. intros Heq. subst k.
    now rewrite String.eqb_refl in E.
Qed.

(** X1: [transformArrayToObject] never fails on a list; the object it
    builds has each key once, and what it holds under a key is the value
    of the last item of the list that carries that key (nothing when no
    item does): a later item overwrites an earlier one.  The key
    [__proto__] is the exception: an item that carries it is assigned to
    the accessor every object inherits, and the object holds nothing
    under that key. *)
Theorem transformArrayToObject_last_item_wins (arr : list KV) :
  exists o : obj json,
    transformArrayToObject (Some arr) = Some o
    /\ distinct (map fst o) = true
    /\ obj_get o "__proto__" = None
    /\ forall k : string,
         k <> "__proto__" ->
         obj_get o k
         = option_map (fun item => JStr (value item)) (lastWithKey arr k).
Proof.
  eexists. split; [reflexivity|]. split; [|split].
  - now apply rebuilt_distinct.
  - now apply rebuilt_proto.
  - intros k Hk. rewrite rebuilt_get by exact Hk.
    now destruct (lastWithKey arr k).
Qed.

(** The last of two items with one key wins, and an item with the key
    [__proto__] leaves no trace. *)
Example transformArrayToObject_sample :
  transformArrayToObject
    (Some [mkKV "role" "user"; mkKV "__proto__" "x"; mkKV "role" "admin"])
  = Some [("role", JStr "admin")].
Proof. reflexivity. Qed.

(** X2: a list of items whose keys are pairwise different, none of them
    [__proto__], and listed in the order in which an object enumerates
    them (the keys that are array indices first and ascending, as is the
    case when none is an array index), survives the trip through an
    object: [transformObjectToArray] gives back the items
    [transformArrayToObject] was given, in their order. *)
Theorem transformObjectToArray_transformArrayToObject (arr : list KV) :
  distinct (map key arr) = true ->
  forallb notProto (map key arr) = true ->
  Compare.ownKeys (map key arr) = map key arr ->
  transformObjectToArray (transformArrayToObject (Some arr)) = Some arr.
Proof.
  intros Hd Hp _. unfold transformArrayToObject, transformObjectToArray.
  rewrite forallb_forall in Hp.
  rewrite (fold_left_ext_in _
             (fun o item => obj_set o (key item) (JStr (value item))))
    by (intros o item Hin; apply obj_assign_set; apply Hp;
        now apply in_map).
  rewrite (fold_obj_set_distinct key (fun item => JStr (value item)) arr [] Hd)
    by (intros a _ []).
  simpl. rewrite map_map. f_equal.
  rewrite <- (map_id arr) at 2. apply map_ext. now intros [k v].
Qed.

Lemma transformObjectToArray_transformArrayToObject_witness :
  transformObjectToArray
    (transformArrayToObject
       (Some [mkKV "2" "two"; mkKV "10" "ten"; mkKV "ip" "10.0.0.1";
              mkKV "role" "admin"]))
  = Some [mkKV "2" "two"; mkKV "10" "ten"; mkKV "ip" "10.0.0.1";
          mkKV "role" "admin"].
Proof.
  apply (transformObjectToArray_transformArrayToObject
           [mkKV "2" "two"; mkKV "10" "ten"; mkKV "ip" "10.0.0.1";
            mkKV "role" "admin"]);
    reflexivity.
Defined.

(** X3: the flattened form of a metadata map none of whose keys is
    [__proto__] is stable: rebuilding the object from it and flattening
    again gives the same list, although the rebuilt object differs from
    the original wherever a leaf was not a string. *)
Theorem transformObjectToArray_stable (m : option (obj json)) :
  wfMap m = true -> protoFree m = true ->
  transformObjectToArray (transformArrayToObject (transformObjectToArray m))
  = transformObjectToArray m.
Proof.
  intros Hwf Hp. rewrite (roundtrip_map_keys m Hwf Hp).
  destruct m as [props|]; [|reflexivity].
  unfold option_map, transformObjectToArray. f_equal.
  rewrite map_map. apply map_ext. now intros [k v].
Qed.

Lemma transformObjectToArray_stable_witness :
  transformObjectToArray
    (transformArrayToObject
       (transformObjectToArray (Some [("n", JNum 3); ("s", JStr "x")])))
  = transformObjectToArray (Some [("n", JNum 3); ("s", JStr "x")]).
Proof.
  apply (transformObjectToArray_stable (Some [("n", JNum 3); ("s", JStr "x")]));
    reflexivity.
Defined.

(** **** [removeSensitiveKeys] on trees *)

(** The reducer of the source, with its copying branches read as one:
    each of them stores the sanitized copy of [object[key]], unless the
    property is one that cannot be stored. *)
Lemma removeSensitiveKeys_obj (props : obj json) (keys : list string) :
  removeSensitiveKeys (JObj props) keys
  = JObj (fold_left
            (fun sanitized kv =>
               if existsb (String.eqb (fst kv)) keys then sanitized
               else if storable kv
               then obj_set sanitized (fst kv)
                            (removeSensitiveKeys (snd kv) keys)
               else sanitized)
            props []).
Proof.
  cbn [removeSensitiveKeys]. f_equal. apply fold_left_ext_all.
  intros acc [k v]. unfold storable, obj_assign. cbn [fst snd].
  destruct (existsb (String.eqb k) keys); [reflexivity|].
  destruct v; try reflexivity; now destruct (String.eqb k "__proto__").
Qed.

Lemma removeSensitiveKeys_arr (elems : list json) (keys : list string) :
  removeSensitiveKeys (JArr elems) keys
  = JArr (map (fun elem => removeSensitiveKeys elem keys) elems).
Proof. reflexivity. Qed.

(** The copy of an array is an array, of an object an object, and of
    anything else the value itself. *)
Lemma storable_removeSensitiveKeys (k : string) (v : json)
    (keys : list string) :
  storable (k, removeSensitiveKeys v keys) = storable (k, v).
Proof. now destruct v. Qed.

Lemma wfJson_obj_set (o : obj json) (k : string) (v : json) :
  wfJson (JObj o) = true -> wfJson v = true ->
  wfJson (JObj (obj_set o k v)) = true.
Proof.
  cbn [wfJson]. intros Ho Hv. apply andb_true_iff in Ho.
  destruct Ho as [Hd Hall]. apply andb_true_iff. split.
  - now apply distinct_obj_set.
  - now apply forallb_obj_set.
Qed.

Lemma mentions_obj_set (keys : list string) (o : obj json) (k : string)
    (v : json) :
  mentions keys (JObj o) = false -> existsb (String.eqb k) keys = false ->
  mentions keys v = false ->
  mentions keys (JObj (obj_set o k v)) = false.
Proof.
  cbn [mentions]. intros Ho Hk Hv.
  apply existsb_obj_set; [exact Ho|now rewrite Hk, Hv].
Qed.

Lemma settable_obj_set (o : obj json) (k : string) (v : json) :
  settable (JObj o) = true -> storable (k, v) = true -> settable v = true ->
  settable (JObj (obj_set o k v)) = true.
Proof.
  cbn [settable]. intros Ho Hk Hv.
  apply forallb_obj_set; [exact Ho|].
  unfold storable in Hk. cbn [fst snd] in Hk. now destruct v.
Qed.

(** A property of accumulators that the empty object has and that storing
    a property keeps holds of the object the reducer builds. *)
Lemma removeSensitiveKeys_fold (keys : list string) (P : obj json -> Prop)
    (Q : json -> Prop) (props : obj json) :
  (forall acc k v,
     P acc -> existsb (String.eqb k) keys = false -> storable (k, v) = true ->
     Q v -> P (obj_set acc k v)) ->
  Forall (fun kv => Q (removeSensitiveKeys (snd kv) keys)) props ->
  forall acc, P acc ->
    P (fold_left
         (fun sanitized kv =>
            if existsb (String.eqb (fst kv)) keys then sanitized
            else if storable kv
            then obj_set sanitized (fst kv)
                         (removeSensitiveKeys (snd kv) keys)
            else sanitized)
         props acc).
Proof.
  intros Hset Hall. induction Hall as [|[k v] props Hv _ IH]; intros acc Hacc;
    simpl; [exact Hacc|].
  apply IH. destruct (existsb (String.eqb k) keys) eqn:E; [exact Hacc|].
  destruct (storable (k, v)) eqn:Es; [|exact Hacc].
  apply Hset; auto. now rewrite storable_removeSensitiveKeys.
Qed.

Lemma removeSensitiveKeys_wfJson (keys : list string) (t : json) :
  wfJson (removeSensitiveKeys t keys) = true.
Proof.
  induction t as [| | | |elems IH|props IH] using json_deep_ind;
    try reflexivity.
  - rewrite removeSensitiveKeys_arr. cbn [wfJson].
    apply forallb_forall. intros x Hx. apply in_map_iff in Hx.
    destruct Hx as [e [<- He]]. rewrite Forall_forall in IH. now apply IH.
  - rewrite removeSensitiveKeys_obj.
    apply (removeSensitiveKeys_fold keys
             (fun acc => wfJson (JObj acc) = true)
             (fun v => wfJson v = true)); [|exact IH|reflexivity].
    intros acc k v Hacc _ _ Hv. now apply wfJson_obj_set.
Qed.

Lemma removeSensitiveKeys_mentions (keys : list string) (t : json) :
  mentions keys (removeSensitiveKeys t keys) = false.
Proof.
  induction t as [| | | |elems IH|props IH] using json_deep_ind;
    try reflexivity.
  - rewrite removeSensitiveKeys_arr. cbn [mentions].
    apply not_true_is_false. intros H. apply existsb_exists in H.
    destruct H as [x [Hx Hm]]. apply in_map_iff in Hx.
    destruct Hx as [e [<- He]]. rewrite Forall_forall in IH.
    rewrite (IH e He) in Hm. discriminate.
  - rewrite removeSensitiveKeys_obj.
    apply (removeSensitiveKeys_fold keys
             (fun acc => mentions keys (JObj acc) = false)
             (fun v => mentions keys v = false)); [|exact IH|reflexivity].
    intros acc k v Hacc Hk _ Hv. now apply mentions_obj_set.
Qed.

(** The copy holds no property that a second copy could not store. *)
Lemma removeSensitiveKeys_settable (keys : list string) (t : json) :
  settable (removeSensitiveKeys t keys) = true.
Proof.
  induction t as [| | | |elems IH|props IH] using json_deep_ind;
    try reflexivity.
  - rewrite removeSensitiveKeys_arr. cbn [settable].
    apply forallb_forall. intros x Hx. apply in_map_iff in Hx.
    destruct Hx as [e [<- He]]. rewrite Forall_forall in IH. now apply IH.
  - rewrite removeSensitiveKeys_obj.
    apply (removeSensitiveKeys_fold keys
             (fun acc => settable (JObj acc) = true)
             (fun v => settable v = true)); [|exact IH|reflexivity].
    intros acc k v Hacc _ Hs Hv. now apply settable_obj_set.
Qed.

Lemma settable_parts (props : obj json) :
  settable (JObj props) = true ->
  forall kv, In kv props -> storable kv = true /\ settable (snd kv) = true.
Proof.
  cbn [settable]. intros H [k x] Hin. rewrite forallb_forall in H.
  specialize (H (k, x) Hin). unfold storable. cbn [fst snd] in *.
  destruct x; auto.
Qed.

(** A value with distinct keys, all of whose properties can be stored,
    and that mentions none of the keys is copied as it is. *)
Lemma removeSensitiveKeys_fixed (keys : list string) (t : json) :
  wfJson t = true -> settable t = true -> mentions keys t = false ->
  removeSensitiveKeys t keys = t.
Proof.
  induction t as [| | | |elems IH|props IH] using json_deep_ind;
    intros Hwf Hs Hm; try reflexivity.
  - rewrite removeSensitiveKeys_arr. f_equal.
    cbn [wfJson settable mentions] in Hwf, Hs, Hm.
    rewrite forallb_forall in Hwf, Hs.
    rewrite Forall_forall in IH.
    rewrite <- (map_id elems) at 2. apply map_ext_in. intros x Hx.
    apply IH; [exact Hx|now apply Hwf|now apply Hs|].
    apply not_true_is_false. intros Hx'.
    assert (existsb (mentions keys) elems = true); [|congruence].
    apply existsb_exists. now exists x.
  - rewrite removeSensitiveKeys_obj. f_equal.
    pose proof (settable_parts props Hs) as Hparts.
    cbn [wfJson mentions] in Hwf, Hm.
    apply andb_true_iff in Hwf. destruct Hwf as [Hd Hall].
    transitivity
      (fold_left (fun o (kv : string * json) => obj_set o (fst kv) (snd kv))
                 props []).
    + generalize (@nil (string * json)). clear Hd Hs.
      induction props as [|[k x] props IHp]; intros acc; [reflexivity|].
      cbn [forallb existsb] in Hall, Hm.
      apply andb_true_iff in Hall. destruct Hall as [Hx Hall].
      apply orb_false_iff in Hm. destruct Hm as [Hkx Hm].
      apply orb_false_iff in Hkx. destruct Hkx as [Hk Hmx].
      destruct (Hparts (k, x) (or_introl eq_refl)) as [Hst Hsx].
      inversion IH as [|? ? Hhead Htail]; subst. cbn [snd] in Hhead, Hsx.
      cbn [fold_left fst snd]. rewrite Hk, Hst, (Hhead Hx Hsx Hmx).
      apply IHp; auto. intros kv Hin. apply Hparts. now right.
    + rewrite (fold_obj_set_distinct fst snd props [] Hd); simpl.
      * rewrite <- (map_id props) at 2. apply map_ext. now intros [k x].
      * intros a _ [].
Qed.

(** X4: whatever the value, the copy [removeSensitiveKeys] returns has
    none of the listed keys, in no object at any depth, arrays included,
    and each of its objects has every key once. *)
Theorem removeSensitiveKeys_removes_at_every_depth (keys : list string)
    (t : json) :
  mentions keys (removeSensitiveKeys t keys) = false
  /\ wfJson (removeSensitiveKeys t keys) = true.
Proof.
  split; [apply removeSensitiveKeys_mentions|apply removeSensitiveKeys_wfJson].
Qed.

(** X5: on a value whose objects have distinct keys, and no key
    [__proto__] with [null] or a primitive under it, the copy equals the
    value exactly when no object of the value has a listed key: then keys,
    order and leaves ([null], numbers, booleans and empty strings
    included) are the same.  Only listed keys are ever removed from such
    a tree. *)
Theorem removeSensitiveKeys_keeps_unlisted (keys : list string) (t : json) :
  wfJson t = true -> settable t = true ->
  (removeSensitiveKeys t keys = t <-> mentions keys t = false).
Proof.
  intros Hwf Hs. split.
  - intros Heq. rewrite <- Heq. apply removeSensitiveKeys_mentions.
  - now apply removeSensitiveKeys_fixed.
Qed.

Lemma removeSensitiveKeys_keeps_unlisted_witness :
  removeSensitiveKeys tree_sample ["password"; "token"] = tree_sample.
Proof.
  apply (removeSensitiveKeys_keeps_unlisted ["password"; "token"] tree_sample);
    reflexivity.
Defined.

(** A [__proto__] that holds a primitive is not copied, although it is
    not listed; one that holds an object is. *)
Example removeSensitiveKeys_proto :
  removeSensitiveKeys (JObj [("__proto__", JNum 1); ("a", JNum 2)]) []
  = JObj [("a", JNum 2)]
  /\ removeSensitiveKeys (JObj [("__proto__", JObj [("b", JNum 1)])]) []
     = JObj [("__proto__", JObj [("b", JNum 1)])].
Proof. split; reflexivity. Qed.

(** X6: sanitizing is idempotent: a second pass with the same keys
    changes nothing. *)
Theorem removeSensitiveKeys_idempotent (keys : list string) (t : json) :
  removeSensitiveKeys (removeSensitiveKeys t keys) keys
  = removeSensitiveKeys t keys.
Proof.
  apply removeSensitiveKeys_fixed;
    [apply removeSensitiveKeys_wfJson|apply removeSensitiveKeys_settable
    |apply removeSensitiveKeys_mentions].
Qed.

(** On an object with distinct keys the reducer is a filter followed by a
    map: the keys that stay keep their order. *)
Lemma distinct_filter_fst {V : Type} (keep : string * V -> bool) (o : obj V) :
  distinct (map fst o) = true -> distinct (map fst (filter keep o)) = true.
Proof.
  induction o as [|[k v] o IH]; simpl; intros H; [reflexivity|].
  apply andb_true_iff in H. destruct H as [Hfresh Hd].
  destruct (keep (k, v)); simpl; [|now apply IH].
  rewrite (IH Hd), andb_true_r. apply negb_true_iff.
  apply not_true_is_false. intros Hex. apply existsb_exists in Hex.
  destruct Hex as [x [Hin Hx]]. apply String.eqb_eq in Hx. subst x.
  apply in_map_iff in Hin. destruct Hin as [[k' v'] [Hk Hin]].
  apply filter_In in Hin. destruct Hin as [Hin _]. simpl in Hk. subst k'.
  apply negb_true_iff in Hfresh.
  assert (existsb (String.eqb k) (map fst o) = true); [|congruence].
  apply existsb_exists. exists k. split; [|apply String.eqb_refl].
  apply in_map_iff. now exists (k, v').
Qed.

Local Abbreviation staying keys :=
  (fun kv : string * json =>
     negb (existsb (String.eqb (fst kv)) keys) && storable kv).

Lemma removeSensitiveKeys_filter_map (keys : list string) (props : obj json) :
  distinct (map fst props) = true ->
  removeSensitiveKeys (JObj props) keys
  = JObj (map (fun kv => (fst kv, removeSensitiveKeys (snd kv) keys))
              (filter (staying keys) props)).
Proof.
  intros Hd. rewrite removeSensitiveKeys_obj. f_equal.
  transitivity
    (fold_left
       (fun o (kv : string * json) =>
          obj_set o (fst kv) (removeSensitiveKeys (snd kv) keys))
       (filter (staying keys) props)
       []).
  - generalize (@nil (string * json)). clear Hd.
    induction props as [|[k v] props IH]; intros acc; [reflexivity|].
    cbn [fold_left filter fst snd].
    destruct (existsb (String.eqb k) keys); cbn [negb andb fold_left fst snd];
      [apply IH|].
    destruct (storable (k, v)); cbn [fold_left fst snd]; apply IH.
  - rewrite (fold_obj_set_distinct fst
               (fun kv => removeSensitiveKeys (snd kv) keys));
      [reflexivity|now apply distinct_filter_fst|intros a _ []].
Qed.

Lemma filter_map_kept (keys keys' : list string) (o : obj json) :
  filter (staying keys)
         (map (fun kv => (fst kv, removeSensitiveKeys (snd kv) keys')) o)
  = map (fun kv => (fst kv, removeSensitiveKeys (snd kv) keys'))
        (filter (staying keys) o).
Proof.
  induction o as [|[k v] o IH]; simpl; [reflexivity|].
  rewrite storable_removeSensitiveKeys.
  destruct (negb (existsb (String.eqb k) keys) && storable (k, v)); simpl;
    now rewrite IH.
Qed.

Lemma filter_twice {A : Type} (p q : A -> bool) (l : list A) :
  filter q (filter p l) = filter (fun a => p a && q a) l.
Proof.
  induction l as [|a l IH]; simpl; [reflexivity|].
  destruct (p a); simpl; [destruct (q a)|]; now rewrite IH.
Qed.

(** X7: on an object whose keys are distinct, and that has no key
    [__proto__] with [null] or a primitive under it, the keys that stay
    keep the order they had: the keys of the sanitized object are those
    of the object, less the listed ones. *)
Theorem removeSensitiveKeys_keeps_key_order (keys : list string)
    (props : obj json) :
  distinct (map fst props) = true ->
  settable (JObj props) = true ->
  exists kept : obj json,
    removeSensitiveKeys (JObj props) keys = JObj kept
    /\ map fst kept
       = filter (fun k => negb (existsb (String.eqb k) keys)) (map fst props).
Proof.
  intros Hd Hs. rewrite (removeSensitiveKeys_filter_map keys props Hd).
  eexists. split; [reflexivity|]. rewrite map_map. cbn [fst].
  pose proof (settable_parts props Hs) as Hparts.
  clear Hd Hs. induction props as [|[k v] props IH]; simpl; [reflexivity|].
  destruct (Hparts (k, v) (or_introl eq_refl)) as [Hst _]. rewrite Hst.
  rewrite andb_true_r.
  destruct (existsb (String.eqb k) keys); simpl; rewrite IH; auto;
    intros kv Hin; apply Hparts; now right.
Qed.

Lemma removeSensitiveKeys_keeps_key_order_witness :
  exists kept : obj json,
    removeSensitiveKeys
      (JObj [("user", JStr "u"); ("password", JStr "p"); ("ip", JNull)])
      ["password"]
    = JObj kept
    /\ map fst kept
       = filter (fun k => negb (existsb (String.eqb k) ["password"]))
                (map fst [("user", JStr "u"); ("password", JStr "p");
                          ("ip", JNull)]).
Proof.
  apply (removeSensitiveKeys_keeps_key_order ["password"]
           [("user", JStr "u"); ("password", JStr "p"); ("ip", JNull)]);
    reflexivity.
Defined.

(** X8: two passes are one: removing [keys1] and then [keys2] gives what
    removing the keys of both lists at once gives. *)
Theorem removeSensitiveKeys_two_passes (keys1 keys2 : list string) (t : json) :
  wfJson t = true ->
  removeSensitiveKeys (removeSensitiveKeys t keys1) keys2
  = removeSensitiveKeys t (keys1 ++ keys2).
Proof.
  induction t as [| | | |elems IH|props IH] using json_deep_ind;
    intros Hwf; try reflexivity.
  - rewrite !removeSensitiveKeys_arr, map_map. f_equal.
    cbn [wfJson] in Hwf. rewrite forallb_forall in Hwf.
    rewrite Forall_forall in IH. apply map_ext_in. intros x Hx.
    apply IH; [exact Hx|now apply Hwf].
  - cbn [wfJson] in Hwf. apply andb_true_iff in Hwf.
    destruct Hwf as [Hd Hall].
    rewrite (removeSensitiveKeys_filter_map keys1 props Hd).
    rewrite removeSensitiveKeys_filter_map.
    2:{ rewrite map_map. cbn [fst]. apply (distinct_filter_fst _ props Hd). }
    rewrite (removeSensitiveKeys_filter_map (keys1 ++ keys2) props Hd).
    f_equal.
    rewrite (filter_map_kept keys2 keys1).
    rewrite filter_twice, map_map. cbn [fst snd].
    rewrite (filter_ext _ (staying (keys1 ++ keys2)))
      by (intros kv; rewrite existsb_app, negb_orb;
          destruct (negb (existsb (String.eqb (fst kv)) keys1)),
                   (negb (existsb (String.eqb (fst kv)) keys2)),
                   (storable kv); reflexivity).
    apply map_ext_in. intros [k v] Hin. cbn [fst snd]. f_equal.
    apply filter_In in Hin. destruct Hin as [Hin _].
    rewrite Forall_forall in IH. rewrite forallb_forall in Hall.
    apply (IH (k, v) Hin). apply (Hall (k, v) Hin).
Qed.

Lemma removeSensitiveKeys_two_passes_witness :
  removeSensitiveKeys
    (removeSensitiveKeys
       (JObj [("a", JNum 1); ("b", JArr [JObj [("c", JNull); ("a", JNum 2)]])])
       ["a"])
    ["c"]
  = removeSensitiveKeys
      (JObj [("a", JNum 1); ("b", JArr [JObj [("c", JNull); ("a", JNum 2)]])])
      (["a"] ++ ["c"]).
Proof.
  apply (removeSensitiveKeys_two_passes ["a"] ["c"]
           (JObj [("a", JNum 1);
                  ("b", JArr [JObj [("c", JNull); ("a", JNum 2)]])])).
  reflexivity.
Defined.

End UtilsLaws.

(** *** The key remover on arbitrary stores *)

Section StoreSanitizing.
Import JS Cyclic Spec.

Lemma mapM_Done {A B : Type} (f : A -> run B) (l : list A) (rs : list B) :
  mapM f l = Done rs ->
  forall r, In r rs -> exists x, In x l /\ f x = Done r.
Proof.
  revert rs. induction l as [|x l IH]; intros rs H r Hin; simpl in H.
  - inversion H; subst. destruct Hin.
  - destruct (f x) as [y| |] eqn:Ex; simpl in H; try discriminate.
    destruct (mapM f l) as [ys| |] eqn:El; simpl in H; try discriminate.
    inversion H; subst. destruct Hin as [<-|Hin].
    + exists x. split; [now left|exact Ex].
    + destruct (IH ys eq_refl r Hin) as [x' [Hx' Hf]].
      exists x'. split; [now right|exact Hf].
Qed.

Lemma fold_run_invariant {A K : Type} (P : A -> Prop)
    (step : run A -> K -> run A) (l : list K) :
  (forall racc kv res,
     step racc kv = Done res ->
     exists acc, racc = Done acc /\ (P acc -> P res)) ->
  forall racc res,
    fold_left step l racc = Done res ->
    exists acc, racc = Done acc /\ (P acc -> P res).
Proof.
  intros Hstep. induction l as [|kv l IH]; intros racc res H; simpl in H.
  - exists res. split; [exact H|auto].
  - destruct (IH _ _ H) as [acc1 [H1 HP1]].
    destruct (Hstep _ _ _ H1) as [acc [H0 HP0]].
    exists acc. split; [exact H0|auto].
Qed.

Lemma store_mentions_obj_set (keys : list string) (o : obj result)
    (k : string) (r : result) :
  StoreLaws.mentions keys (RObj o) = false ->
  existsb (String.eqb k) keys = false ->
  StoreLaws.mentions keys r = false ->
  StoreLaws.mentions keys (RObj (obj_set o k r)) = false.
Proof.
  cbn [StoreLaws.mentions]. intros Ho Hk Hr.
  apply existsb_obj_set; [exact Ho|now rewrite Hk, Hr].
Qed.

Lemma store_mentions_arr (keys : list string) (rs : list result) :
  (forall r, In r rs -> StoreLaws.mentions keys r = false) ->
  StoreLaws.mentions keys (RArr rs) = false.
Proof.
  intros H. cbn [StoreLaws.mentions]. apply not_true_is_false. intros Hex.
  apply existsb_exists in Hex. destruct Hex as [r [Hin Hm]].
  rewrite (H r Hin) in Hm. discriminate.
Qed.

(** X9: on any store, cyclic or not, and whatever [parents] holds, a
    copy that [removeSensitiveKeys] returns has none of the listed keys at
    any depth. *)
Theorem removeSensitiveKeys_store_never_leaks (st : store)
    (keys : list string) :
  forall (fuel : nat) (object : value) (parents : list value) (r : result),
    removeSensitiveKeys fuel st object keys parents = Done r ->
    StoreLaws.mentions keys r = false.
Proof.
  induction fuel as [|fuel IH]; intros object parents r H; [discriminate|].
  cbn [removeSensitiveKeys] in H.
  destruct object as [p|a]; [now inversion H|].
  destruct (nth_error st a) as [[props|elems]|]; [| |discriminate].
  - unfold run_map, run_bind in H.
    match type of H with
    | match ?F with _ => _ end = _ => destruct F as [res| |] eqn:Ef
    end; try discriminate.
    inversion H; subst r.
    apply (fold_run_invariant
             (fun acc => StoreLaws.mentions keys (RObj acc) = false)) in Ef.
    + destruct Ef as [acc [Hacc HP]]. inversion Hacc; subst acc. now apply HP.
    + clear Ef H. intros racc [key v] res' Hs.
      destruct racc as [acc| |]; simpl in Hs; try discriminate.
      exists acc. split; [reflexivity|]. intros Pacc.
      destruct (existsb (String.eqb key) keys) eqn:Ek;
        [now inversion Hs; subst|].
      destruct (includes parents v || strict_eq v (VRef a));
        [now inversion Hs; subst|].
      destruct v as [p|b].
      * inversion Hs; subst. unfold obj_assign.
        destruct (String.eqb key "__proto__"); [exact Pacc|].
        now apply store_mentions_obj_set.
      * destruct (nth_error st b) as [[ps|velems]|]; try discriminate.
        -- match type of Hs with
           | match ?F with _ => _ end = _ => destruct F as [r'| |] eqn:Er
           end; try discriminate.
           inversion Hs; subst. apply store_mentions_obj_set; auto.
           now apply IH in Er.
        -- match type of Hs with
           | match ?F with _ => _ end = _ => destruct F as [rs| |] eqn:Em
           end; try discriminate.
           inversion Hs; subst. apply store_mentions_obj_set; auto.
           apply store_mentions_arr. intros r Hin.
           destruct (mapM_Done _ _ _ Em r Hin) as [x [_ Hx]].
           now apply IH in Hx.
  - unfold run_map, run_bind in H.
    match type of H with
    | match ?F with _ => _ end = _ => destruct F as [rs| |] eqn:Ef
    end; try discriminate.
    inversion H; subst r. apply store_mentions_arr. intros r Hin.
    destruct (mapM_Done _ _ _ Ef r Hin) as [x [_ Hx]]. now apply IH in Hx.
Qed.

Lemma removeSensitiveKeys_store_never_leaks_witness :
  removeSensitiveKeys 3 StoreLaws.st_secret (VRef 0) ["password"] []
  = Done (RObj [("user", RPrim (PStr "u"));
                ("items", RArr [RObj [("n", RPrim (PNum 1))]])])
  /\ StoreLaws.mentions ["password"]
       (RObj [("user", RPrim (PStr "u"));
              ("items", RArr [RObj [("n", RPrim (PNum 1))]])])
     = false.
Proof.
  split; [reflexivity|].
  apply (removeSensitiveKeys_store_never_leaks StoreLaws.st_secret
           ["password"] 3 (VRef 0) []).
  reflexivity.
Defined.

(** X10: on a store that holds a tree, the traversal returns as soon as
    the fuel reaches the number of nodes, and the copy is the one the
    tree-level function computes: the tests on [parents] never fire. *)
Theorem removeSensitiveKeys_store_agrees_on_trees (st : store)
    (keys : list string) (v : value) (t : json) (fuel : nat) :
  represents st v t -> jsize t <= fuel ->
  removeSensitiveKeys fuel st v keys []
  = Done (json_result (Utils.removeSensitiveKeys t keys)).
Proof.
  intros Hv Hfuel.
  apply (removeSensitiveKeys_tree_sized st keys (S (jsize t))); auto.
  intros p [].
Qed.

Lemma removeSensitiveKeys_store_agrees_on_trees_witness :
  removeSensitiveKeys 6 st_tree (VRef 0) ["c"] []
  = Done (json_result (Utils.removeSensitiveKeys tree_sample ["c"])).
Proof.
  apply (removeSensitiveKeys_store_agrees_on_trees st_tree ["c"] (VRef 0)
           tree_sample 6).
  - exact represents_tree_sample.
  - simpl. lia.
Defined.

(** **** Termination on stores without arrays *)

Lemma fold_run_total {A K : Type} (step : run A -> K -> run A) (l : list K) :
  (forall acc kv, In kv l -> exists acc', step (Done acc) kv = Done acc') ->
  forall acc, exists res, fold_left step l (Done acc) = Done res.
Proof.
  induction l as [|kv l IH]; intros Hstep acc; simpl.
  - now exists acc.
  - destruct (Hstep acc kv (or_introl eq_refl)) as [acc' ->].
    apply IH. intros acc0 kv0 Hin. apply Hstep. now right.
Qed.

Lemma NoDup_snoc {A : Type} (l : list A) (x : A) :
  NoDup l -> ~ In x l -> NoDup (l ++ [x]).
Proof.
  induction l as [|y l IH]; simpl; intros Hnd Hx.
  - constructor; [intros []|constructor].
  - inversion Hnd as [|? ? Hy Hl]; subst. constructor.
    + rewrite in_app_iff. intros [H|[H|[]]]; [now apply Hy|].
      subst. apply Hx. now left.
    + apply IH; [exact Hl|]. intros H. apply Hx. now right.
Qed.

Lemma includes_false_not_in (parents : list value) (b : addr) :
  includes parents (VRef b) = false -> ~ In (VRef b) parents.
Proof.
  unfold includes. intros H Hin.
  assert (existsb (same_value_zero (VRef b)) parents = true); [|congruence].
  apply existsb_exists. exists (VRef b). split; [exact Hin|].
  simpl. apply Nat.eqb_refl.
Qed.

Lemma objectsOnly_cell (st : store) (a : addr) :
  StoreLaws.objectsOnly st = true -> a < List.length st ->
  exists props,
    nth_error st a = Some (CObj props)
    /\ forall k b, In (k, VRef b) props -> b < List.length st.
Proof.
  intros Hst Ha. destruct (nth_error st a) as [c|] eqn:E.
  - unfold StoreLaws.objectsOnly in Hst. rewrite forallb_forall in Hst.
    specialize (Hst c (nth_error_In _ _ E)).
    destruct c as [props|elems]; [|discriminate].
    exists props. split; [reflexivity|]. intros k b Hin.
    rewrite forallb_forall in Hst. specialize (Hst (k, VRef b) Hin).
    simpl in Hst. now apply Nat.ltb_lt.
  - apply nth_error_None in E. lia.
Qed.

Lemma removeSensitiveKeys_objects_total (st : store) (keys : list string) :
  StoreLaws.objectsOnly st = true ->
  forall (fuel : nat) (a : addr) (parents : list value),
    a < List.length st ->
    NoDup (parents ++ [VRef a]) ->
    incl parents (map VRef (seq 0 (List.length st))) ->
    List.length st <= fuel + List.length parents ->
    exists r, removeSensitiveKeys fuel st (VRef a) keys parents = Done r.
Proof.
  intros Hst. induction fuel as [|fuel IH]; intros a parents Ha Hnd Hincl Hlen.
  - exfalso.
    assert (Hle : List.length (parents ++ [VRef a])
                  <= List.length (map VRef (seq 0 (List.length st)))).
    { apply NoDup_incl_length; [exact Hnd|].
      apply incl_app; [exact Hincl|]. intros x [<-|[]].
      apply in_map. apply in_seq. lia. }
    rewrite length_app, length_map, length_seq in Hle. simpl in Hle. lia.
  - destruct (objectsOnly_cell st a Hst Ha) as [props [Hcell Hrefs]].
    cbn [removeSensitiveKeys]. rewrite Hcell.
    match goal with
    | |- exists r, run_map RObj (fold_left ?step props (Done [])) = Done r =>
        destruct (fold_run_total step props) with (acc := @nil (string * result))
          as [res Hres]
    end.
    + intros acc [key v] Hin. cbn [run_bind].
      destruct (existsb (String.eqb key) keys); [now eexists|].
      destruct (includes parents v) eqn:Einc; [now eexists|].
      destruct (strict_eq v (VRef a)) eqn:Eeq; [now eexists|].
      cbn [orb]. destruct v as [p|b]; [now eexists|].
      pose proof (Hrefs key b Hin) as Hb.
      destruct (objectsOnly_cell st b Hst Hb) as [bprops [Hbcell _]].
      rewrite Hbcell.
      destruct (IH b (parents ++ [VRef a])) as [r Hr].
      * exact Hb.
      * apply NoDup_snoc; [exact Hnd|]. rewrite in_app_iff.
        intros [Hp|[Ho|[]]].
        -- now apply (includes_false_not_in parents b).
        -- inversion Ho; subst. simpl in Eeq.
           now rewrite Nat.eqb_refl in Eeq.
      * apply incl_app; [exact Hincl|]. intros x [<-|[]].
        apply in_map. apply in_seq. lia.
      * rewrite length_app. simpl. lia.
      * rewrite Hr. now eexists.
    + exists (RObj res). exact (f_equal (run_map RObj) Hres).
Qed.

(** X11: on a store made of objects only, however cyclic, the traversal
    terminates: a fuel equal to the number of cells is enough, because
    every object on the path from the root is in [parents] and is not
    entered again. *)
Theorem removeSensitiveKeys_terminates_without_arrays (st : store)
    (keys : list string) (a : addr) (fuel : nat) :
  StoreLaws.objectsOnly st = true -> a < List.length st ->
  List.length st <= fuel ->
  exists r, removeSensitiveKeys fuel st (VRef a) keys [] = Done r.
Proof.
  intros Hst Ha Hfuel.
  apply (removeSensitiveKeys_objects_total st keys Hst); simpl.
  - exact Ha.
  - repeat constructor. intros [].
  - intros x [].
  - lia.
Qed.

Lemma removeSensitiveKeys_terminates_without_arrays_witness :
  exists r, removeSensitiveKeys 2 st_nested_object (VRef 0) ["b"] [] = Done r.
Proof.
  apply (removeSensitiveKeys_terminates_without_arrays st_nested_object ["b"]
           0 2).
  - reflexivity.
  - simpl. lia.
  - simpl. lia.
Defined.

End StoreSanitizing.

(** *** [deepCompareObjects] (utils.ts) *)

Section Comparison.
Import JS Spec Compare.

Lemma every_true {A : Type} (f : A -> option bool) (l : list A) :
  (forall x, In x l -> f x = Some true) -> every f l = Some true.
Proof.
  induction l as [|x l IH]; intros H; simpl; [reflexivity|].
  rewrite (H x (or_introl eq_refl)). apply IH. intros y Hy. apply H. now right.
Qed.

Lemma every_forallb {A : Type} (f : A -> option bool) (g : A -> bool)
    (l : list A) :
  (forall x, In x l -> f x = Some (g x)) -> every f l = Some (forallb g l).
Proof.
  induction l as [|x l IH]; intros H; simpl; [reflexivity|].
  rewrite (H x (or_introl eq_refl)).
  destruct (g x); simpl; [|reflexivity].
  apply IH. intros y Hy. apply H. now right.
Qed.

Lemma forallb_same_members {A : Type} (g : A -> bool) (l l' : list A) :
  (forall x, In x l <-> In x l') -> forallb g l = forallb g l'.
Proof.
  intros H. apply eq_true_iff_eq. rewrite !forallb_forall. split.
  - intros Hl x Hx. apply Hl. now apply H.
  - intros Hl x Hx. apply Hl. now apply H.
Qed.

Lemma In_insertIndex (i j : N) (l : list N) :
  In j (insertIndex i l) <-> j = i \/ In j l.
Proof.
  induction l as [|k l IH]; simpl.
  - intuition.
  - destruct (i <=? k)%N; simpl; [intuition|]. rewrite IH. intuition.
Qed.

Lemma In_sorted_indices (j : N) (l : list N) :
  In j (fold_right insertIndex [] l) <-> In j l.
Proof.
  induction l as [|i l IH]; simpl; [reflexivity|].
  rewrite In_insertIndex, IH. intuition.
Qed.

Lemma arrayIndex_key (k : string) (i : N) :
  arrayIndex k = Some i -> indexKey i = k.
Proof.
  unfold arrayIndex. destruct (NilZero.uint_of_string k) as [d|]; [|discriminate].
  cbv zeta.
  destruct (String.eqb (indexKey (N.of_uint d)) k) eqn:E; simpl;
    [|discriminate].
  destruct (N.of_uint d <? 4294967295)%N; [|discriminate].
  intros H. inversion H; subst. now apply String.eqb_eq.
Qed.

(** Enumeration reorders the keys; it neither adds nor loses one. *)
Lemma In_ownKeys (k : string) (added : list string) :
  In k (ownKeys added) <-> In k added.
Proof.
  unfold ownKeys. rewrite in_app_iff, in_map_iff, filter_In. split.
  - intros [[i [Hk Hi]]|[Hin _]]; [|exact Hin].
    apply -> In_sorted_indices in Hi. apply in_flat_map in Hi.
    destruct Hi as [k' [Hk' Hi]].
    destruct (arrayIndex k') as [i'|] eqn:E; [|destruct Hi].
    destruct Hi as [<-|[]]. apply arrayIndex_key in E. congruence.
  - intros Hin. destruct (arrayIndex k) as [i|] eqn:E.
    + left. exists i. split; [now apply arrayIndex_key|].
      apply <- In_sorted_indices. apply in_flat_map. exists k.
      split; [exact Hin|]. rewrite E. now left.
    + right. now split.
Qed.

Lemma In_unionKeys (k : string) (a b : option json) :
  In k (unionKeys a b) <-> In k (spreadKeys a) \/ In k (spreadKeys b).
Proof.
  unfold unionKeys. rewrite In_ownKeys, in_app_iff, filter_In. split.
  - intros [H|[H _]]; [now left|now right].
  - intros [H|H]; [now left|].
    destruct (existsb (String.eqb k) (spreadKeys a)) eqn:E.
    + left. apply existsb_exists in E. destruct E as [x [Hx Hk]].
      apply String.eqb_eq in Hk. now subst.
    + right. now split.
Qed.

Lemma obj_get_compare {B : Type} (f : json -> B) (props : obj json)
    (k : string) :
  obj_get (map (fun kv => let '(k', x) := kv in (k', f x)) props) k
  = option_map f (obj_get props k).
Proof.
  induction props as [|[k' x] props IH]; simpl; [reflexivity|].
  now destruct (String.eqb k' k).
Qed.

Lemma obj_get_In {V : Type} (o : obj V) (k : string) (v : V) :
  obj_get o k = Some v -> In (k, v) o.
Proof.
  induction o as [|[k' v'] o IH]; simpl; [discriminate|].
  destruct (String.eqb k' k) eqn:E.
  - apply String.eqb_eq in E. intros H. inversion H; subst. now left.
  - intros H. right. now apply IH.
Qed.

Lemma obj_get_key {V : Type} (o : obj V) (k : string) :
  In k (map fst o) -> exists v, obj_get o k = Some v.
Proof.
  induction o as [|[k' v'] o IH]; simpl; [intros []|].
  destruct (String.eqb k' k) eqn:E; [now eexists|].
  intros [H|H]; [|now apply IH].
  subst. now rewrite String.eqb_refl in E.
Qed.

Lemma obj_get_distinct {V : Type} (o : obj V) (k : string) (v : V) :
  distinct (map fst o) = true -> In (k, v) o -> obj_get o k = Some v.
Proof.
  induction o as [|[k' v'] o IH]; simpl; [intros _ []|].
  intros Hd Hin. apply andb_true_iff in Hd. destruct Hd as [Hfresh Hd].
  destruct Hin as [Heq|Hin].
  - inversion Heq; subst. now rewrite String.eqb_refl.
  - destruct (String.eqb k' k) eqn:E; [|now apply IH].
    apply String.eqb_eq in E. subst k'. exfalso.
    apply negb_true_iff in Hfresh.
    assert (existsb (String.eqb k) (map fst o) = true); [|congruence].
    apply existsb_exists. exists k. split; [|apply String.eqb_refl].
    apply in_map_iff. now exists (k, v).
Qed.

(** X12: every JSON value equals itself: [deepCompareObjects(a, a)] is
    [true] and does not throw, whatever [a] holds ([null] leaves and
    empty arrays included). *)
Theorem deepCompareObjects_reflexive (a : json) :
  deepCompareObjects (Some a) (Some a) = Some true.
Proof.
  unfold deepCompareObjects.
  induction a as [|x|n|s|elems IH|props IH] using json_deep_ind.
  - reflexivity.
  - simpl. now rewrite Bool.eqb_reflx.
  - simpl. now rewrite Z.eqb_refl.
  - simpl. now rewrite String.eqb_refl.
  - cbn [deepCompare typeOf jstype_eqb negb]. apply every_true.
    intros i _. rewrite nth_error_map.
    destruct (nth_error elems i) as [x|] eqn:E; simpl; [|reflexivity].
    rewrite Forall_forall in IH. apply IH. now apply nth_error_In in E.
  - cbn [deepCompare typeOf jstype_eqb negb]. apply every_true.
    intros k Hk. apply -> In_unionKeys in Hk. simpl in Hk.
    assert (Hin : In k (map fst props)) by tauto.
    destruct (obj_get_key props k Hin) as [x Hx].
    cbn [member]. rewrite obj_get_compare, Hx. simpl.
    rewrite Forall_forall in IH. apply (IH (k, x)). now apply obj_get_In.
Qed.

Lemma deepCompare_undefined (a : json) : deepCompare a None = Some false.
Proof. destruct a; reflexivity. Qed.

(** Against a document without arrays and without [null], the comparison
    never throws and tells whether the documents are the same. *)
Lemma deepCompare_plain (a : json) :
  forall b : json,
    wfJson a = true -> plain b = true ->
    deepCompare a (Some b) = Some (sameDocument a b).
Proof.
  induction a as [|x|n|s|elems IH|props IH] using json_deep_ind;
    intros b Hwf Hb.
  1-5: destruct b; try discriminate; reflexivity.
  destruct b as [|y|m|t|belems|bprops]; try discriminate; try reflexivity.
  cbn [deepCompare typeOf jstype_eqb negb member].
  cbn [wfJson] in Hwf. apply andb_true_iff in Hwf. destruct Hwf as [Hd Hall].
  cbn [plain] in Hb. rewrite forallb_forall in Hall, Hb.
  rewrite Forall_forall in IH.
  rewrite (every_forallb _
             (fun k => match obj_get props k, obj_get bprops k with
                       | Some x, Some y => sameDocument x y
                       | None, None => true
                       | _, _ => false
                       end)).
  - f_equal. cbn [sameDocument]. apply eq_true_iff_eq.
    rewrite andb_true_iff, !forallb_forall. split.
    + intros H. split.
      * intros [k x] Hin.
        assert (Hk : In k (unionKeys (Some (JObj props)) (Some (JObj bprops)))).
        { apply <- In_unionKeys. left. simpl. apply in_map_iff.
          now exists (k, x). }
        specialize (H k Hk). rewrite (obj_get_distinct props k x Hd Hin) in H.
        destruct (obj_get bprops k); [exact H|discriminate].
      * intros k Hin.
        assert (Hk : In k (unionKeys (Some (JObj props)) (Some (JObj bprops)))).
        { apply <- In_unionKeys. now right. }
        specialize (H k Hk). destruct (obj_get_key bprops k Hin) as [y Hy].
        rewrite Hy in H. destruct (obj_get props k); [reflexivity|discriminate].
    + intros [HA HB] k Hk. apply -> In_unionKeys in Hk. simpl in Hk.
      destruct (obj_get props k) as [x|] eqn:Ex.
      * apply obj_get_In in Ex. apply (HA (k, x) Ex).
      * destruct Hk as [Hk|Hk].
        -- destruct (obj_get_key props k Hk) as [x Hx]. congruence.
        -- specialize (HB k Hk). now rewrite Ex in HB.
  - intros k _. rewrite obj_get_compare.
    destruct (obj_get props k) as [x|] eqn:Ex; simpl.
    + apply obj_get_In in Ex.
      destruct (obj_get bprops k) as [y|] eqn:Ey.
      * apply obj_get_In in Ey.
        apply (IH (k, x) Ex y); [apply (Hall (k, x) Ex)|apply (Hb (k, y) Ey)].
      * apply deepCompare_undefined.
    + destruct (obj_get bprops k) as [[]|]; reflexivity.
Qed.

(** X13: against a document [b] made of objects, strings, numbers and
    booleans (no array, no [null]: an index mapping), the comparison never
    throws, whatever JSON value [a] is, and it answers [true] exactly when
    [a] has the same keys as [b] and, key by key, the same values: the
    order of the keys does not count, an extra or a missing key does.
    Neither document has a key named [__proto__]. *)
Theorem deepCompareObjects_exact_on_plain_documents (a b : json) :
  wfJson a = true -> noProto a = true ->
  plain b = true -> noProto b = true ->
  deepCompareObjects (Some a) (Some b) = Some (sameDocument a b).
Proof. intros Hwf _ Hb _. now apply deepCompare_plain. Qed.

Lemma deepCompareObjects_exact_on_plain_documents_witness :
  deepCompareObjects
    (Some (JObj [("format", JStr "date_time"); ("type", JStr "date")]))
    (Some (JObj [("type", JStr "date"); ("format", JStr "date_time")]))
  = Some (sameDocument
            (JObj [("format", JStr "date_time"); ("type", JStr "date")])
            (JObj [("type", JStr "date"); ("format", JStr "date_time")]))
  /\ sameDocument
       (JObj [("format", JStr "date_time"); ("type", JStr "date")])
       (JObj [("type", JStr "date"); ("format", JStr "date_time")])
     = true.
Proof.
  split; [|reflexivity].
  apply (deepCompareObjects_exact_on_plain_documents
           (JObj [("format", JStr "date_time"); ("type", JStr "date")])
           (JObj [("type", JStr "date"); ("format", JStr "date_time")]));
    reflexivity.
Defined.

Lemma ownKeys_nonempty (k : string) (rest : list string) :
  exists k' rest', ownKeys (k :: rest) = k' :: rest'.
Proof.
  destruct (ownKeys (k :: rest)) as [|k' rest'] eqn:E; [|now eexists; eexists].
  assert (H : In k (ownKeys (k :: rest))) by (apply <- In_ownKeys; now left).
  rewrite E in H. destruct H.
Qed.

(** X14: the comparison is not symmetric around [null] and can throw:
    against [null] the empty object compares equal, any object with a
    property makes the call throw (a property is read on [null]), while
    [null] against any object is [false]. *)
Theorem deepCompareObjects_object_against_null (kv : string * json)
    (rest : obj json) :
  deepCompareObjects (Some (JObj [])) (Some JNull) = Some true
  /\ deepCompareObjects (Some (JObj (kv :: rest))) (Some JNull) = None
  /\ deepCompareObjects (Some JNull) (Some (JObj (kv :: rest))) = Some false.
Proof.
  split; [reflexivity|]. split; [|reflexivity].
  unfold deepCompareObjects.
  cbn [deepCompare typeOf jstype_eqb negb]. unfold unionKeys.
  cbn [spreadKeys filter map]. rewrite app_nil_r.
  destruct (ownKeys_nonempty (fst kv) (map fst rest)) as [k' [rest' ->]].
  reflexivity.
Qed.

End Comparison.

(** *** Index template and index mappings (engine.ts) *)

Section MaintenanceLaws.
Import JS Spec Compare Maintenance MaintenanceSpec.

Lemma plain_INDEX_MAPPING : plain Mapping.INDEX_MAPPING = true.
Proof. vm_compute. reflexivity. Qed.

Lemma sameDocument_falsy (d : json) (props : obj json) :
  truthy d = false -> sameDocument d (JObj props) = false.
Proof. destruct d; simpl; try reflexivity; discriminate. Qed.

(** With the comparer of utils.ts the inner promise resolves with a truthy
    value exactly when what is stored is the same document as
    [INDEX_MAPPING]. *)
Lemma resolved_upToDate (answer : option json) (read : json -> option json) :
  wellFormed (match answer with Some result => read result | None => None end)
  = true ->
  truthy_value (resolved deepCompareObjects answer read)
  = upToDate (match answer with Some result => read result | None => None end).
Proof.
  destruct answer as [result|]; [|reflexivity].
  unfold resolved. destruct (read result) as [d|]; [|reflexivity].
  intros Hwf. cbn [wellFormed] in Hwf. apply andb_true_iff in Hwf.
  destruct Hwf as [Hwf _]. cbn [truthy_value upToDate].
  destruct (truthy d) eqn:Ht.
  - unfold deepCompareObjects.
    rewrite (deepCompare_plain d Mapping.INDEX_MAPPING Hwf plain_INDEX_MAPPING).
    destruct (sameDocument d Mapping.INDEX_MAPPING); simpl; [exact Ht|reflexivity].
  - cbn [truthy_value]. rewrite Ht. symmetry.
    now apply (sameDocument_falsy d).
Qed.

(** X15: [upsertIndexTemplates] first asks for the template and then
    sends at most one [putIndexTemplate], carrying [INDEX_MAPPING] and the
    shard settings.  With the comparer of utils.ts it sends none exactly
    when the mapping properties of the stored template are the same
    document as [INDEX_MAPPING] (key order apart); a rejected request, an
    answer without template and a template that differs are all followed
    by the put. *)
Theorem upsertIndexTemplates_puts_unless_up_to_date (e : engine)
    (c : cluster) :
  wellFormed (stored c (GetIndexTemplate (_indexTemplateName e))
                     templateProperties) = true ->
  received (upsertIndexTemplates deepCompareObjects e c)
  = received c
    ++ GetIndexTemplate (_indexTemplateName e)
    :: (if upToDate (stored c (GetIndexTemplate (_indexTemplateName e))
                            templateProperties)
        then []
        else [PutIndexTemplate (_indexTemplateName e) (templateBody e)]).
Proof.
  intros Hwf. unfold upsertIndexTemplates, call, stored in *.
  rewrite (resolved_upToDate _ templateProperties Hwf).
  destruct (upToDate _); cbn [received createIndexTemplates call snd];
    [reflexivity|].
  now rewrite <- app_assoc.
Qed.

Lemma upsertIndexTemplates_puts_unless_up_to_date_witness :
  received (upsertIndexTemplates deepCompareObjects default
              (clusterWith (reordered Mapping.INDEX_MAPPING)))
  = received (clusterWith (reordered Mapping.INDEX_MAPPING))
    ++ GetIndexTemplate (_indexTemplateName default)
    :: (if upToDate (stored (clusterWith (reordered Mapping.INDEX_MAPPING))
                            (GetIndexTemplate (_indexTemplateName default))
                            templateProperties)
        then []
        else [PutIndexTemplate (_indexTemplateName default)
                               (templateBody default)]).
Proof.
  apply (upsertIndexTemplates_puts_unless_up_to_date default
           (clusterWith (reordered Mapping.INDEX_MAPPING))).
  vm_compute. reflexivity.
Defined.

(** X16: [updateIndexMapping(index)] first asks for the index and then
    sends at most one [putMapping], carrying [INDEX_MAPPING].  With the
    comparer of utils.ts it sends none exactly when the mapping properties
    of the index are the same document as [INDEX_MAPPING]; a rejected
    request, an index without mapping properties and a mapping that
    differs are all followed by the put. *)
Theorem updateIndexMapping_puts_unless_up_to_date (index : string)
    (c : cluster) :
  wellFormed (stored c (Get index)
                     (fun result => indexProperties result index)) = true ->
  received (updateIndexMapping deepCompareObjects index c)
  = received c
    ++ Get index
    :: (if upToDate (stored c (Get index)
                            (fun result => indexProperties result index))
        then []
        else [PutMapping index
                (JObj [("properties", Mapping.INDEX_MAPPING)])]).
Proof.
  intros Hwf. unfold updateIndexMapping, call, stored in *.
  rewrite (resolved_upToDate _ (fun result => indexProperties result index)
             Hwf).
  destruct (upToDate _); cbn [negb received call snd]; [reflexivity|].
  now rewrite <- app_assoc.
Qed.

Lemma updateIndexMapping_puts_unless_up_to_date_witness :
  received (updateIndexMapping deepCompareObjects "actions_c1_2024_07"
              (clusterWith (JObj [("id", JObj [("type", JStr "text")])])))
  = received (clusterWith (JObj [("id", JObj [("type", JStr "text")])]))
    ++ Get "actions_c1_2024_07"
    :: (if upToDate
             (stored (clusterWith (JObj [("id", JObj [("type", JStr "text")])]))
                     (Get "actions_c1_2024_07")
                     (fun result =>
                        indexProperties result "actions_c1_2024_07"))
        then []
        else [PutMapping "actions_c1_2024_07"
                (JObj [("properties", Mapping.INDEX_MAPPING)])]).
Proof.
  apply (updateIndexMapping_puts_unless_up_to_date "actions_c1_2024_07"
           (clusterWith (JObj [("id", JObj [("type", JStr "text")])]))).
  vm_compute. reflexivity.
Defined.

End MaintenanceLaws.

(** *** Deep lookup (utils.ts) *)

Section DeepLookup.
Import Path.

Lemma split_nonempty (s : string) :
  exists piece pieces, split s = piece :: pieces.
Proof.
  induction s as [|c s [piece [pieces IH]]]; simpl; [now eexists; eexists|].
  destruct (Ascii.eqb c "."); [now eexists; eexists|].
  rewrite IH. now eexists; eexists.
Qed.

Lemma split_dot (p q : string) :
  split (p ++ "." ++ q) = split p ++ split q.
Proof.
  induction p as [|c p IH]; [reflexivity|].
  cbn [String.append split]. destruct (Ascii.eqb c ".").
  - cbn [String.append] in IH. now rewrite IH.
  - cbn [String.append] in IH. rewrite IH.
    destruct (split_nonempty p) as [piece [pieces ->]]. reflexivity.
Qed.

Lemma split_dotFree (k : string) : dotFree k = true -> split k = [k].
Proof.
  induction k as [|c k IH]; simpl; [reflexivity|].
  intros H. apply andb_true_iff in H. destruct H as [Hc Hk].
  apply negb_true_iff in Hc. rewrite Hc, (IH Hk). reflexivity.
Qed.

(** X17: a path in two parts is looked up in two steps: [get(o, p + "." +
    q)] is [get(get(o, p), q)], for every value and any two paths, empty
    ones included, whatever the member access does. *)
Theorem get_in_two_steps (value : Type) (optMember : value -> string -> value)
    (object : value) (p q : string) :
  get value optMember object (Some (p ++ "." ++ q)%string)
  = get value optMember (get value optMember object (Some p)) (Some q).
Proof.
  unfold get.
  assert (Hpq : JS.truthy_str (p ++ "." ++ q)%string = true).
  { destruct p; reflexivity. }
  rewrite Hpq, split_dot, fold_left_app.
  assert (Hs : forall s, (if JS.truthy_str s then s else "") = s).
  { intros [|c s]; reflexivity. }
  now rewrite !Hs.
Qed.

(** X18: a path without a dot is one member access, also when the path is
    empty or absent: [get(o, "")] and [get(o, undefined)] are [o?.[""]],
    not [o]. *)
Theorem get_single_key (value : Type) (optMember : value -> string -> value)
    (object : value) (k : string) :
  dotFree k = true ->
  get value optMember object (Some k) = optMember object k
  /\ get value optMember object None = optMember object "".
Proof.
  intros Hk. unfold get. split; [|reflexivity].
  assert (Hs : (if JS.truthy_str k then k else "") = k).
  { destruct k; reflexivity. }
  rewrite Hs, (split_dotFree k Hk). reflexivity.
Qed.

Lemma get_single_key_witness :
  get (option JS.json) Maintenance.optMember
      (Some (JS.JObj [("body", JS.JNull)])) (Some "body")
  = Maintenance.optMember (Some (JS.JObj [("body", JS.JNull)])) "body"
  /\ get (option JS.json) Maintenance.optMember
         (Some (JS.JObj [("body", JS.JNull)])) None
     = Maintenance.optMember (Some (JS.JObj [("body", JS.JNull)])) "".
Proof.
  apply (get_single_key (option JS.json) Maintenance.optMember
           (Some (JS.JObj [("body", JS.JNull)])) "body").
  reflexivity.
Defined.

End DeepLookup.

(** *** Nested clauses stay inside their path (engine.ts) *)

Section NestedScopes.
Import JS Luxon Engine Compiler Scope.

Local Abbreviation FU scope l := (forallb (fieldsUnder scope) l = true).

Lemma prefix_empty (s : string) : String.prefix "" s = true.
Proof. destruct s; reflexivity. Qed.

Lemma prefix_append (p s : string) : String.prefix p (p ++ s) = true.
Proof.
  induction p as [|c p IH]; simpl; [apply prefix_empty|].
  destruct (ascii_dec c c); [exact IH|congruence].
Qed.

Lemma append_assoc3 (a b c : string) :
  ((a ++ b) ++ c = a ++ (b ++ c))%string.
Proof. induction a as [|x a IH]; simpl; [reflexivity|now rewrite IH]. Qed.

Lemma prefix_dot (p s : string) :
  String.prefix (p ++ ".") (p ++ "." ++ s) = true.
Proof. rewrite <- append_assoc3. apply prefix_append. Qed.

Lemma FU_app (scope : string) (l l' : list Query) :
  FU scope l -> FU scope l' -> FU scope (l ++ l').
Proof. intros H H'. now rewrite forallb_app, H, H'. Qed.

Lemma FU_flat_map {A : Type} (scope : string) (f : A -> list Query)
    (l : list A) :
  (forall a, FU scope (f a)) -> FU scope (flat_map f l).
Proof.
  intros Hf. induction l as [|a l IH]; simpl; [reflexivity|].
  now apply FU_app.
Qed.

Lemma FU_collapseMust (scope : string) (xs : list Query) :
  FU scope xs -> fieldsUnder scope (collapseMust xs) = true.
Proof.
  destruct xs as [|x [|y rest]]; simpl; auto.
  now rewrite andb_true_r.
Qed.

Lemma FU_collapseShould (scope : string) (xs : list Query) :
  FU scope xs -> fieldsUnder scope (collapseShould xs) = true.
Proof.
  destruct xs as [|x [|y rest]]; simpl; auto.
  now rewrite andb_true_r.
Qed.

Lemma FU_pushIfAny (scope : string) (out xs : list Query) (q : Query) :
  FU scope out -> fieldsUnder scope q = true -> FU scope (pushIfAny out xs q).
Proof.
  intros Hout Hq. destruct xs; simpl; [exact Hout|].
  apply FU_app; [exact Hout|]. simpl. now rewrite Hq.
Qed.

Lemma FU_pushMust (scope : string) (out xs : list Query) :
  FU scope out -> FU scope xs -> FU scope (pushMust out xs).
Proof. intros Hout Hxs. apply FU_pushIfAny; [exact Hout|now apply FU_collapseMust]. Qed.

Lemma FU_pushShould (scope : string) (out xs : list Query) :
  FU scope out -> FU scope xs -> FU scope (pushShould out xs).
Proof.
  intros Hout Hxs. apply FU_pushIfAny; [exact Hout|now apply FU_collapseShould].
Qed.

Lemma FU_fold_pushMust {A : Type} (scope : string) (f : A -> list Query)
    (l : list A) :
  (forall a, FU scope (f a)) ->
  forall acc, FU scope acc ->
    FU scope (fold_left (fun acc a => pushMust acc (f a)) l acc).
Proof.
  intros Hf. induction l as [|a l IH]; intros acc Hacc; simpl; [exact Hacc|].
  apply IH. now apply FU_pushMust.
Qed.

Lemma FU_termIfSet (scope field : string) (v : option string) :
  String.prefix scope field = true -> FU scope (termIfSet field v).
Proof.
  intros H. destruct v as [s|]; simpl; [|reflexivity].
  destruct (truthy_str s); simpl; [now rewrite H|reflexivity].
Qed.

Lemma FU_metaTerms (path : string) (m : obj json) :
  FU (path ++ ".") (metaTerms path m).
Proof.
  apply FU_flat_map. intros [k v].
  pose proof (prefix_dot path "key") as Hkey.
  pose proof (prefix_dot path "value.keyword") as Hvalue.
  simpl in Hkey, Hvalue |- *. now rewrite Hkey, Hvalue.
Qed.

Lemma FU_nestedMetaClause (scope path : string) (m : option (obj json)) :
  String.prefix scope path = true -> FU scope (nestedMetaClause path m).
Proof.
  intros H. destruct m as [[|kv props]|]; try reflexivity.
  unfold nestedMetaClause. apply FU_pushIfAny; [reflexivity|].
  cbn [fieldsUnder]. rewrite H. apply FU_collapseMust, FU_metaTerms.
Qed.

Lemma FU_entityMust (entity : string) (e : EntityFilter) :
  FU (entity ++ ".") (entityMust entity e).
Proof.
  unfold entityMust. apply FU_app.
  - apply FU_flat_map. intros key. apply FU_termIfSet. apply prefix_dot.
  - apply FU_nestedMetaClause. apply (prefix_dot entity "meta").
Qed.

Lemma FU_entityClause (scope entity : string) (es : oneOrMany EntityFilter) :
  String.prefix scope entity = true -> FU scope (entityClause entity es).
Proof.
  intros H. unfold entityClause. apply FU_pushIfAny; [reflexivity|].
  cbn [fieldsUnder]. rewrite H. apply FU_collapseShould.
  apply FU_fold_pushMust; [apply FU_entityMust|reflexivity].
Qed.

Lemma FU_changesClause (cs : oneOrMany ChangeFilter) :
  FU "" (changesClause cs).
Proof.
  unfold changesClause. apply FU_pushIfAny; [reflexivity|].
  cbn [fieldsUnder String.prefix andb]. apply FU_collapseShould.
  apply FU_fold_pushMust; [|reflexivity].
  intros c. unfold changeMust. apply FU_app.
  - apply FU_flat_map. intros key. apply FU_termIfSet.
    apply (prefix_dot "changes").
  - now apply FU_nestedMetaClause.
Qed.

Lemma FU_top_terms {A : Type} (f : A -> string) (v : A -> option string)
    (l : list A) :
  FU "" (flat_map (fun a => termIfSet (f a) (v a)) l).
Proof. apply FU_flat_map. intros a. apply FU_termIfSet, prefix_empty. Qed.

Lemma FU_requestMust (r : obj json) : FU "" (requestMust r).
Proof.
  apply FU_flat_map. intros [k v]. destruct (objectEntries v) as [inner|].
  - apply forallb_forall. intros q Hq. apply in_map_iff in Hq.
    destruct Hq as [[ik iv] [<- _]]. reflexivity.
  - reflexivity.
Qed.

Lemma FU_responseMapClause (path : string) (ms : option (oneOrMany (obj json))) :
  FU "" (responseMapClause path ms).
Proof.
  destruct ms as [maps|]; [|reflexivity]. unfold responseMapClause.
  apply FU_pushShould; [reflexivity|].
  generalize (@nil Query) (eq_refl : FU "" []).
  induction (asArray maps) as [|m l IH]; intros acc Hacc; simpl; [exact Hacc|].
  apply IH. apply FU_pushIfAny; [exact Hacc|].
  cbn [fieldsUnder]. rewrite prefix_empty. apply FU_collapseMust, FU_metaTerms.
Qed.

Lemma FU_metaMust (m : obj json) : FU "" (metaMust m).
Proof.
  apply forallb_forall. intros q Hq. apply in_map_iff in Hq.
  destruct Hq as [[k v] [<- _]]. reflexivity.
Qed.

(** The predicate tells a clause that leaves its path from one that does
    not. *)
Example fieldsUnder_rejects_foreign_field :
  fieldsUnder "" (Nested "agents" (Term "targets.id" (JStr "t1"))) = false
  /\ fieldsUnder "" (Nested "agents" (Term "agents.id" (JStr "a1"))) = true.
Proof. split; reflexivity. Qed.

(** X19: in the query that [buildFindManyQuery] compiles, whatever the
    filters, a [nested] clause names only fields that lie under its own
    path (its [path] followed by a dot), at every depth: the terms of
    [agents.meta] are [agents.meta.key] and [agents.meta.value.keyword],
    inside the clause of path [agents.meta], itself inside the clause of
    path [agents]. *)
Theorem buildFindManyQuery_nested_fields_stay_under_path
    (fromISO : reader) (cfg : config) (clock : Clock)
    (options : FindActionOptions) (filters : FindActionFilters) :
  forallb (fieldsUnder "")
          (buildFindManyQuery fromISO cfg clock options filters)
  = true.
Proof.
  unfold buildFindManyQuery.
  repeat match goal with
         | |- forallb _ (_ ++ _) = true => apply FU_app
         end.
  - unfold timestampRange.
    destruct (match start filters with
              | Some s =>
                  if truthy_str s then (toISO_json (fromISO s), clock)
                  else let '(t, c) := now clock in
                       (JStr (toISO (minusMonths t (_defaultStartMonthsAgo cfg))),
                        c)
              | None =>
                  let '(t, c) := now clock in
                  (JStr (toISO (minusMonths t (_defaultStartMonthsAgo cfg))), c)
              end) as [gte clock1].
    reflexivity.
  - apply FU_flat_map. intros key. unfold scalarSetClause.
    destruct (scalarField filters key) as [[s|l]|]; simpl;
      [destruct (truthy_str s)| |]; simpl; rewrite ?prefix_empty;
      reflexivity.
  - destruct (framework filters) as [fs|]; [|reflexivity]. simpl.
    apply FU_pushShould; [reflexivity|].
    apply FU_fold_pushMust; [|reflexivity]. intros f. apply FU_top_terms.
  - destruct (action filters) as [acts|]; [|reflexivity]. simpl.
    apply FU_pushShould; [reflexivity|].
    apply FU_fold_pushMust; [|reflexivity]. intros a. apply FU_top_terms.
  - destruct (agents filters) as [es|]; [|reflexivity]. simpl.
    now apply FU_entityClause.
  - destruct (targets filters) as [es|]; [|reflexivity]. simpl.
    now apply FU_entityClause.
  - destruct (request filters) as [rs|]; [|reflexivity]. simpl.
    apply FU_pushShould; [reflexivity|].
    apply FU_fold_pushMust; [apply FU_requestMust|reflexivity].
  - destruct (response filters) as [r|]; [|reflexivity]. simpl.
    apply FU_pushMust; [reflexivity|].
    repeat apply FU_app.
    + destruct (rf_status r) as [[x|l]|]; simpl;
        [destruct (truthy_str x)| |]; reflexivity.
    + unfold responseTime. destruct (rf_time r) as [tf|]; [|reflexivity].
      destruct (truthy_time (tf_gte tf) || truthy_time (tf_lt tf));
        reflexivity.
    + apply FU_responseMapClause.
    + apply FU_responseMapClause.
  - destruct (changes filters) as [cs|]; [|reflexivity]. simpl.
    apply FU_changesClause.
  - destruct (meta filters) as [ms|]; [|reflexivity]. simpl.
    apply FU_pushShould; [reflexivity|].
    apply FU_fold_pushMust; [apply FU_metaMust|reflexivity].
Qed.

End NestedScopes.

(** *** The month buckets of a range (engine.ts, luxon) *)

Section MonthBuckets.
Import JS Luxon Engine Router Calendar.
Local Open Scope Z_scope.

Lemma allFrom_spec (p : Z -> bool) (n : nat) :
  forall t : Z,
    allFrom n t p = true ->
    forall i : Z, t <= i < t + Z.of_nat n -> p i = true.
Proof.
  induction n as [|n IH]; intros t H i Hi; [lia|].
  simpl in H. apply andb_true_iff in H. destruct H as [Ht Hrest].
  destruct (Z.eq_dec i t) as [->|Hne]; [exact Ht|].
  apply (IH (t + 1) Hrest). lia.
Qed.

(** The calendar repeats every 400 years, which are 146097 days. *)
Lemma daysFromCivil_period (y m d k : Z) :
  daysFromCivil (y + 400 * k) m d = daysFromCivil y m d + 146097 * k.
Proof.
  unfold daysFromCivil. cbv zeta.
  assert (He : forall x, (x + 400 * k) / 400 = x / 400 + k).
  { intros x. replace (x + 400 * k) with (x + k * 400) by lia.
    apply Z.div_add. lia. }
  destruct (m <=? 2).
  - replace (y + 400 * k - 1) with (y - 1 + 400 * k) by lia.
    rewrite He.
    replace (y - 1 + 400 * k - ((y - 1) / 400 + k) * 400)
      with (y - 1 - (y - 1) / 400 * 400) by lia.
    lia.
  - rewrite He.
    replace (y + 400 * k - (y / 400 + k) * 400)
      with (y - y / 400 * 400) by lia.
    lia.
Qed.

Lemma isLeapYear_period (y k : Z) : isLeapYear (y + 400 * k) = isLeapYear y.
Proof.
  unfold isLeapYear.
  replace ((y + 400 * k) mod 4) with (y mod 4)
    by (replace (y + 400 * k) with (y + (100 * k) * 4) by lia;
        now rewrite Z_mod_plus_full).
  replace ((y + 400 * k) mod 100) with (y mod 100)
    by (replace (y + 400 * k) with (y + (4 * k) * 100) by lia;
        now rewrite Z_mod_plus_full).
  replace ((y + 400 * k) mod 400) with (y mod 400)
    by (replace (y + 400 * k) with (y + k * 400) by lia;
        now rewrite Z_mod_plus_full).
  reflexivity.
Qed.

Lemma month_of_period (t k : Z) :
  (t + 4800 * k) / 12 = t / 12 + 400 * k
  /\ (t + 4800 * k) mod 12 = t mod 12.
Proof.
  replace (t + 4800 * k) with (t + (400 * k) * 12) by lia.
  split; [apply Z.div_add; lia|apply Z_mod_plus_full].
Qed.

Lemma firstDay_period (t k : Z) :
  firstDay (t + 4800 * k) = firstDay t + 146097 * k.
Proof.
  unfold firstDay. destruct (month_of_period t k) as [-> ->].
  apply daysFromCivil_period.
Qed.

Lemma monthLength_period (t k : Z) :
  monthLength (t + 4800 * k) = monthLength t.
Proof.
  unfold monthLength, daysInMonth. destruct (month_of_period t k) as [-> ->].
  now rewrite isLeapYear_period.
Qed.

(** Checked month by month over one period of 400 years. *)
Lemma months_chain_checked : allFrom (Z.to_nat 4800) 0 monthsChain = true.
Proof. vm_compute. reflexivity. Qed.

(** In every year, a month ends where the next one starts. *)
Lemma months_chain (t : Z) : firstDay (t + 1) = firstDay t + monthLength t.
Proof.
  pose proof (Z.div_mod t 4800 ltac:(lia)) as Ht.
  pose proof (Z.mod_pos_bound t 4800 ltac:(lia)) as Hr.
  set (r := t mod 4800) in *. set (k := t / 4800) in *.
  replace (t + 1) with (r + 1 + 4800 * k) by lia.
  replace t with (r + 4800 * k) by lia.
  rewrite !firstDay_period, monthLength_period.
  assert (H : monthsChain r = true).
  { apply (allFrom_spec monthsChain (Z.to_nat 4800) 0 months_chain_checked).
    lia. }
  unfold monthsChain in H. apply Z.eqb_eq in H. lia.
Qed.

Lemma monthLength_bounds (t : Z) : 28 <= monthLength t <= 31.
Proof.
  unfold monthLength, daysInMonth.
  repeat match goal with |- context [if ?b then _ else _] => destruct b end;
    lia.
Qed.

Lemma firstDay_later (t n : Z) :
  0 <= n -> firstDay t + monthLength t <= firstDay (t + 1 + n).
Proof.
  intros Hn. revert n Hn. apply natlike_ind.
  - rewrite Z.add_0_r, months_chain. lia.
  - intros n Hn IH. replace (t + 1 + Z.succ n) with (t + 1 + n + 1) by lia.
    rewrite months_chain. pose proof (monthLength_bounds (t + 1 + n)). lia.
Qed.

Lemma daysFromCivil_day (y m d : Z) :
  daysFromCivil y m d = daysFromCivil y m 1 + (d - 1).
Proof. unfold daysFromCivil. cbv zeta. lia. Qed.

Lemma monthIndex_parts (d : DateTime) :
  1 <= month d <= 12 ->
  monthIndex d / 12 = year d /\ monthIndex d mod 12 + 1 = month d.
Proof.
  intros Hm. unfold monthIndex.
  assert (Hq : (year d * 12 + (month d - 1)) / 12 = year d).
  { symmetry. apply (Z.div_unique _ 12 (year d) (month d - 1)); lia. }
  assert (Hr : (year d * 12 + (month d - 1)) mod 12 = month d - 1).
  { symmetry. apply (Z.mod_unique _ 12 (year d) (month d - 1)); lia. }
  rewrite Hq, Hr. lia.
Qed.

Lemma regular_ranges (d : DateTime) :
  regular d = true ->
  1 <= month d <= 12 /\ 1 <= day d <= daysInMonth (year d) (month d)
  /\ 0 <= hour d <= 23 /\ 0 <= minute d <= 59 /\ 0 <= second d <= 59
  /\ 0 <= millisecond d <= 999.
Proof.
  unfold regular. intros H.
  repeat (apply andb_true_iff in H; destruct H as [H ?]).
  repeat match goal with
         | H : (_ <=? _) = true |- _ => apply Z.leb_le in H
         end.
  lia.
Qed.

Lemma isValid_regular (d : DateTime) : isValid d = true -> regular d = true.
Proof.
  unfold isValid, regular. intros H.
  repeat (apply andb_true_iff in H; destruct H as [H ?]).
  repeat (apply andb_true_iff; split); assumption.
Qed.

Lemma days_of_regular (d : DateTime) :
  regular d = true ->
  firstDay (monthIndex d)
  <= daysFromCivil (year d) (month d) (day d)
  < firstDay (monthIndex d) + monthLength (monthIndex d).
Proof.
  intros Hr. destruct (regular_ranges d Hr) as (Hm & Hd & _).
  unfold firstDay, monthLength.
  destruct (monthIndex_parts d Hm) as [-> ->].
  rewrite (daysFromCivil_day _ _ (day d)). lia.
Qed.

(** An instant of a later month is a later instant. *)
Lemma toMillis_later_month (d1 d2 : DateTime) :
  regular d1 = true -> regular d2 = true ->
  monthIndex d1 < monthIndex d2 -> toMillis d1 < toMillis d2.
Proof.
  intros H1 H2 Hlt.
  pose proof (days_of_regular d1 H1) as D1.
  pose proof (days_of_regular d2 H2) as D2.
  pose proof (firstDay_later (monthIndex d1)
                (monthIndex d2 - monthIndex d1 - 1) ltac:(lia)) as Hf.
  replace (monthIndex d1 + 1 + (monthIndex d2 - monthIndex d1 - 1))
    with (monthIndex d2) in Hf by lia.
  destruct (regular_ranges d1 H1) as (_ & _ & ? & ? & ? & ?).
  destruct (regular_ranges d2 H2) as (_ & _ & ? & ? & ? & ?).
  unfold toMillis. lia.
Qed.

Lemma plusMonths_index (d : DateTime) (n : Z) :
  monthIndex (plusMonths d n) = monthIndex d + n.
Proof.
  unfold monthIndex, plusMonths. cbn [year month].
  pose proof (Z.div_mod (year d * 12 + (month d - 1) + n) 12 ltac:(lia)).
  lia.
Qed.

Lemma plusMonths_regular (d : DateTime) (n : Z) :
  regular d = true -> regular (plusMonths d n) = true.
Proof.
  intros Hr. destruct (regular_ranges d Hr) as (Hm & Hd & Hh & Hmi & Hs & Hms).
  unfold regular, plusMonths. cbn [year month day hour minute second millisecond].
  set (total := year d * 12 + (month d - 1) + n).
  pose proof (Z.mod_pos_bound total 12 ltac:(lia)) as Hmod.
  pose proof (monthLength_bounds total) as Hlen.
  unfold monthLength in Hlen.
  repeat (apply andb_true_iff; split); apply Z.leb_le; lia.
Qed.

(** The loop of [splitBy] stops before the fuel runs out, and makes at
    most one bucket per month of the range. *)
Lemma splitByMonthLoop_returns (start e : DateTime) :
  regular start = true -> regular e = true ->
  forall (fuel : nat) (s : DateTime) (idx : Z),
    (toMillis s < toMillis e -> 1 <= idx <= monthsApart start e + 1) ->
    monthsApart start e + 2 <= Z.of_nat fuel + idx ->
    exists l,
      splitByMonthLoop fuel start e s idx = Some l
      /\ Z.of_nat (List.length l) <= Z.max 0 (monthsApart start e + 2 - idx).
Proof.
  intros Hstart He. induction fuel as [|fuel IH]; intros s idx Hinv Hfuel.
  - simpl. destruct (toMillis s <? toMillis e) eqn:E.
    + apply Z.ltb_lt in E. specialize (Hinv E). lia.
    + exists []. split; [reflexivity|simpl; lia].
  - cbn [splitByMonthLoop]. destruct (toMillis s <? toMillis e) eqn:E.
    + apply Z.ltb_lt in E. specialize (Hinv E).
      set (added := plusMonths start idx).
      set (next := if toMillis added >? toMillis e then e else added).
      destruct (IH next (idx + 1)) as [l [Hl Hlen]].
      * intros Hnext. split; [lia|].
        unfold next in Hnext.
        destruct (toMillis added >? toMillis e) eqn:Eadd; [lia|].
        destruct (Z.le_gt_cases idx (monthsApart start e)) as [Hle|Hgt];
          [lia|].
        exfalso.
        assert (Hlater : toMillis e < toMillis added).
        { apply toMillis_later_month;
            [exact He|now apply plusMonths_regular|].
          unfold added. rewrite plusMonths_index.
          unfold monthsApart in *. lia. }
        lia.
      * lia.
      * exists ((s, next) :: l). rewrite Hl. split; [reflexivity|].
        simpl List.length. lia.
    + exists []. split; [reflexivity|simpl; lia].
Qed.

Lemma splitByMonth_regular (s e : DateTime) :
  regular s = true -> regular e = true ->
  exists buckets : list (DateTime * DateTime),
    splitByMonth (monthSpan (Some s) (Some e)) (Some s) (Some e)
    = Some buckets
    /\ Z.of_nat (List.length buckets) <= Z.max 0 (monthsApart s e + 1).
Proof.
  intros Hs He.
  unfold splitByMonth. destruct (toMillis e <? toMillis s) eqn:E.
  - exists []. split; [reflexivity|simpl; lia].
  - apply Z.ltb_ge in E.
    destruct (splitByMonthLoop_returns s e Hs He
                (monthSpan (Some s) (Some e)) s 1) as [l [Hl Hlen]].
    + intros Hlt. split; [lia|].
      destruct (Z.le_gt_cases 0 (monthsApart s e)) as [Hle|Hgt]; [lia|].
      exfalso.
      assert (toMillis e < toMillis s).
      { apply toMillis_later_month; [exact He|exact Hs|].
        unfold monthsApart in Hgt. lia. }
      lia.
    + unfold monthSpan, monthsApart, monthIndex. lia.
    + exists l. split; [exact Hl|]. lia.
Qed.

(** X20: between two valid instants [Interval.splitBy({month: 1})]
    terminates, within the number of steps that [getIndexNameRange] is
    modelled with, and yields at most one bucket more than there are
    calendar months from the start to the end: the number of index names
    of a search is bounded by the number of months the range touches. *)
Theorem splitByMonth_one_bucket_per_month (s e : DateTime) :
  isValid s = true -> isValid e = true ->
  exists buckets : list (DateTime * DateTime),
    splitByMonth (monthSpan (Some s) (Some e)) (Some s) (Some e)
    = Some buckets
    /\ Z.of_nat (List.length buckets) <= Z.max 0 (monthsApart s e + 1).
Proof.
  intros Hs He. apply splitByMonth_regular; now apply isValid_regular.
Qed.

Lemma splitByMonth_one_bucket_per_month_witness :
  exists buckets : list (DateTime * DateTime),
    splitByMonth
      (monthSpan (Some (mkDateTime 2024 7 1 0 0 0 0))
                 (Some (mkDateTime 2024 8 31 23 59 59 0)))
      (Some (mkDateTime 2024 7 1 0 0 0 0))
      (Some (mkDateTime 2024 8 31 23 59 59 0))
    = Some buckets
    /\ Z.of_nat (List.length buckets)
       <= Z.max 0 (monthsApart (mkDateTime 2024 7 1 0 0 0 0)
                               (mkDateTime 2024 8 31 23 59 59 0) + 1).
Proof.
  apply (splitByMonth_one_bucket_per_month
           (mkDateTime 2024 7 1 0 0 0 0) (mkDateTime 2024 8 31 23 59 59 0));
    reflexivity.
Defined.

(** Whatever the range resolves to, the split returns. *)
Lemma splitByMonth_returns (s e : option DateTime) :
  (forall d, s = Some d -> regular d = true) ->
  (forall d, e = Some d -> regular d = true) ->
  exists buckets, splitByMonth (monthSpan s e) s e = Some buckets.
Proof.
  intros Hs He. destruct s as [s|]; [|now exists []].
  destruct e as [e|]; [|now exists []].
  destruct (splitByMonth_regular s e) as [l [Hl _]];
    [now apply Hs | now apply He |].
  now exists l.
Qed.

(** The range resolves to dates of the calendar, or to none. *)
Lemma getIndexNameRange_returns (fromISO : reader) (cfg : config)
    (clock : Clock) (company : string) (start_ end_ : option string) :
  (forall s d, fromISO s = Some d -> regular d = true) ->
  (forall n, regular (reading clock n) = true) ->
  exists names : string,
    getIndexNameRange fromISO cfg clock company start_ end_ = Some names.
Proof.
  intros Hr Hc. unfold getIndexNameRange.
  set (resolvedStart :=
         match start_ with
         | Some s =>
             if truthy_str s then (fromISO s, clock)
             else let '(t, c) := now clock in
                  (Some (minusMonths t (_defaultStartMonthsAgo cfg)), c)
         | None =>
             let '(t, c) := now clock in
             (Some (minusMonths t (_defaultStartMonthsAgo cfg)), c)
         end).
  assert (Hstart : (forall d, fst resolvedStart = Some d -> regular d = true)
                   /\ reading (snd resolvedStart) = reading clock).
  { unfold resolvedStart, now.
    destruct start_ as [s|]; [destruct (truthy_str s)|]; cbn [fst snd reading];
      split; try reflexivity; intros d Hd.
    - now apply Hr with s.
    - inversion Hd; subst. now apply plusMonths_regular.
    - inversion Hd; subst. now apply plusMonths_regular. }
  destruct resolvedStart as [startDate clock1]. cbn [fst snd] in Hstart.
  destruct Hstart as [Hstart Hreading].
  set (endDate :=
         match end_ with
         | Some s => if truthy_str s then fromISO s else Some (fst (now clock1))
         | None => Some (fst (now clock1))
         end).
  assert (Hend : forall d, endDate = Some d -> regular d = true).
  { unfold endDate, now. rewrite Hreading.
    destruct end_ as [s|]; [destruct (truthy_str s)|]; cbn [fst];
      intros d Hd.
    - now apply Hr with s.
    - inversion Hd; subst. apply Hc.
    - inversion Hd; subst. apply Hc. }
  destruct (splitByMonth_returns startDate endDate Hstart Hend) as [l ->].
  now eexists.
Qed.

(** An interval with an invalid end splits into nothing. *)
Lemma splitByMonth_invalid_end (fuel : nat) (s : option DateTime) :
  splitByMonth fuel s None = Some [].
Proof. now destruct s. Qed.

(** X21: [getIndexNameRange] always returns, whatever [start] and [end]
    are given and whatever the engine was configured with: the instants
    that luxon reads and that the clock shows are dates of the calendar,
    and the split of the range into months ends.  A given [start] or [end]
    from which luxon reads no timestamp makes the interval invalid: the
    list of index names is then the empty text. *)
Theorem getIndexNameRange_always_returns (fromISO : reader) (cfg : config)
    (clock : Clock) (company : string) (start_ end_ : option string) :
  (forall s d, fromISO s = Some d -> regular d = true) ->
  (forall n, regular (reading clock n) = true) ->
  exists names : string,
    getIndexNameRange fromISO cfg clock company start_ end_ = Some names
    /\ ((exists s, Spec.given start_ = Some s /\ fromISO s = None) ->
        names = "")
    /\ ((exists s, Spec.given end_ = Some s /\ fromISO s = None) ->
        names = "").
Proof.
  intros Hr Hc.
  destruct (getIndexNameRange_returns fromISO cfg clock company start_ end_
              Hr Hc) as [names H].
  exists names. split; [exact H|]. unfold Spec.given.
  split; intros (s & Hg & Hp); unfold getIndexNameRange in H.
  - destruct start_ as [s'|]; [|discriminate].
    destruct (truthy_str s') eqn:Ht; [|discriminate].
    injection Hg as ->. rewrite Hp in H. simpl in H. now inversion H.
  - destruct end_ as [e'|]; [|discriminate].
    destruct (truthy_str e') eqn:Ht; [|discriminate].
    injection Hg as ->. rewrite Hp in H.
    destruct (match start_ with
              | Some s0 =>
                  if truthy_str s0 then (fromISO s0, clock)
                  else let '(t, c) := now clock in
                       (Some (minusMonths t (_defaultStartMonthsAgo cfg)), c)
              | None =>
                  let '(t, c) := now clock in
                  (Some (minusMonths t (_defaultStartMonthsAgo cfg)), c)
              end) as [startDate clock1].
    rewrite splitByMonth_invalid_end in H. simpl in H. now inversion H.
Qed.

Lemma getIndexNameRange_always_returns_witness :
  exists names : string,
    getIndexNameRange readUTC default Spec.sampleClock "c1"
      (Some "not a date") None
    = Some names
    /\ ((exists s, Spec.given (Some "not a date") = Some s
                   /\ readUTC s = None) ->
        names = "")
    /\ ((exists s, Spec.given None = Some s /\ readUTC s = None) ->
        names = "").
Proof.
  apply (getIndexNameRange_always_returns readUTC default Spec.sampleClock
           "c1" (Some "not a date") None).
  - intros s d H. apply isValid_regular. now apply readUTC_valid with s.
  - intros n. reflexivity.
Defined.

(** A range given by its dates alone, as luxon reads them: the reader
    below knows the two texts of the range, and the names are those of the
    months the range ends in. *)
Example getIndexNameRange_dates_alone :
  getIndexNameRange
    (fun text =>
       if String.eqb text "2024-07-01" then Some (mkDateTime 2024 7 1 0 0 0 0)
       else if String.eqb text "2024-07-15"
            then Some (mkDateTime 2024 7 15 0 0 0 0)
            else None)
    default Spec.sampleClock "c1" (Some "2024-07-01") (Some "2024-07-15")
  = Some "actions_c1_2024_07".
Proof. reflexivity. Qed.

End MonthBuckets.

(** *** Fresh identifiers in a batch (engine.ts) *)

Section FreshIdentifiers.
Import JS Engine Schema Facade Spec FacadeSpec.

Lemma idOrFresh_lacksId (action : json) (fresh : string) :
  lacksId action = true -> idOrFresh action fresh = JStr fresh.
Proof.
  unfold lacksId, idOrFresh. destruct (stringProp action "id") as [s|];
    [|reflexivity].
  intros H. apply negb_true_iff in H. now rewrite H.
Qed.

Lemma createMany_resolved_valid (cfg : config) (w w' : world)
    (actions bodies : list json) :
  createMany cfg w actions = (Resolved bodies, w') ->
  forallb OpenSearchActionSchema actions = true.
Proof.
  intros H. destruct (forallb OpenSearchActionSchema actions) eqn:E;
    [reflexivity|].
  destruct (collectBulk_invalid cfg actions w [] [] E) as [Hnone _].
  unfold createMany in H.
  destruct (collectBulk cfg w actions [] []) as [[[bulk db]|] w1];
    simpl in Hnone; [discriminate|discriminate].
Qed.

(** X22: in a batch of actions that come without an [id], the
    identifiers of the documents are pairwise different, provided the
    generator does not repeat itself over the draws of the batch: one
    identifier is drawn per action, in order. *)
Theorem createMany_fresh_ids_differ (cfg : config) (w w' : world)
    (actions bodies : list json) :
  (forall i j : nat,
      i < List.length actions -> j < List.length actions ->
      uuid w (drawn w + i) = uuid w (drawn w + j) -> i = j) ->
  forallb lacksId actions = true ->
  createMany cfg w actions = (Resolved bodies, w') ->
  NoDup (map (fun body => prop body "id") bodies).
Proof.
  intros Hinj Hlack Hres.
  pose proof (createMany_resolved_valid cfg w w' actions bodies Hres) as Hv.
  destruct (collectBulk_valid cfg actions w [] [] Hv)
    as (bulk & db & w1 & Hcb & _ & _ & _ & Hlen & Hnth).
  unfold createMany in Hres. rewrite Hcb in Hres. cbn [app] in Hres.
  unfold send in Hres. destruct (accepts w1 (BulkRequest bulk));
    inversion Hres; subst bodies.
  assert (Hid : forall i, i < List.length actions ->
                  nth_error (map (fun body => prop body "id") db) i
                  = Some (Some (JStr (uuid w (drawn w + i))))).
  { intros i Hi. destruct (nth_error actions i) as [a|] eqn:Ea;
      [|apply nth_error_None in Ea; lia].
    destruct (Hnth i a Ea) as [Hb _].
    rewrite nth_error_map, Hb. cbn [option_map].
    rewrite withId_id, idOrFresh_lacksId; [reflexivity|].
    rewrite forallb_forall in Hlack. apply Hlack.
    now apply nth_error_In with i. }
  apply NoDup_nth_error. intros i j Hi Heq.
  rewrite length_map, Hlen in Hi.
  assert (Hj : j < List.length actions).
  { rewrite <- Hlen, <- (length_map (fun body => prop body "id") db).
    apply nth_error_Some. rewrite <- Heq, (Hid i Hi). discriminate. }
  rewrite (Hid i Hi), (Hid j Hj) in Heq. inversion Heq as [Hu].
  now apply Hinj.
Qed.

Lemma createMany_fresh_ids_differ_witness :
  NoDup (map (fun body => prop body "id")
             (match fst (createMany default sampleWorld
                           [minimalAction; minimalAction]) with
              | Resolved l => l
              | _ => []
              end)).
Proof.
  apply (createMany_fresh_ids_differ default sampleWorld
           (snd (createMany default sampleWorld [minimalAction; minimalAction]))
           [minimalAction; minimalAction]).
  - intros [|[|i]] [|[|j]] Hi Hj H; simpl in Hi, Hj; try lia;
      try reflexivity; vm_compute in H; discriminate.
  - reflexivity.
  - reflexivity.
Defined.

End FreshIdentifiers.

(** *** Stored documents are stable (engine.ts) *)

Section StoredDocuments.
Import JS Utils Codec Spec.

Ltac split_andb :=
  repeat match goal with
         | H : (_ && _)%bool = true |- _ =>
             apply andb_true_iff in H; destruct H
         end.

Lemma flatten_stringified (m : option (obj json)) :
  wfMap m = true -> ordinaryMap m = true ->
  transformObjectToArray (option_map stringifiedMap m)
  = transformObjectToArray m.
Proof.
  destruct m as [props|]; [|reflexivity]. intros Hwf Ho.
  destruct (wfMap_parts props Hwf) as [_ Hall].
  pose proof (ordinaryMap_parts props Ho) as Hp.
  unfold option_map, transformObjectToArray, stringifiedMap. f_equal.
  rewrite map_map. apply map_ext_in. intros [k v] Hin. simpl.
  rewrite (stringify_leaf_wf v (Hall (k, v) Hin)); [reflexivity|].
  now apply (Hp (k, v) Hin).
Qed.

Lemma serialize_image_agent (g : Agent) :
  wfAgent g = true -> ordinaryAgent g = true ->
  serialize_agent (imageAgent g) = serialize_agent g.
Proof.
  intros H Ho. unfold serialize_agent, imageAgent. simpl.
  now rewrite flatten_stringified.
Qed.

Lemma serialize_image_agents (l : list Agent) :
  forallb wfAgent l = true -> forallb ordinaryAgent l = true ->
  map serialize_agent (map imageAgent l) = map serialize_agent l.
Proof.
  intros H Ho. rewrite map_map. apply map_ext_in. intros g Hg.
  rewrite forallb_forall in H, Ho. apply serialize_image_agent; auto.
Qed.

Lemma flatten_image_entry (kv : string * json) :
  wfJson (snd kv) = true -> ordinaryJson (snd kv) = true ->
  flatten_request_entry (imageRequestEntry kv) = flatten_request_entry kv.
Proof.
  destruct kv as [k v]. cbn [snd]. intros Hwf Ho.
  destruct v as [|b|n|s|elems|inner];
    try (unfold imageRequestEntry; cbn [fst snd flatten_request_entry];
         now rewrite <- (stringify_leaf_wf _ Hwf Ho)).
  rewrite imageRequestEntry_nested, (flatten_nested k inner Hwf Ho).
  unfold flatten_request_entry. rewrite map_map. apply map_ext.
  intros [nk nv]. reflexivity.
Qed.

Lemma serialize_image_request (r : obj json) :
  wfJson (JObj r) = true -> forallb ordinaryRequestEntry r = true ->
  serialize_request (map imageRequestEntry r) = serialize_request r.
Proof.
  intros Hwf Ho. destruct (wfMap_parts r Hwf) as [_ Hall].
  rewrite forallb_forall in Ho.
  unfold serialize_request. f_equal. clear Hwf.
  induction r as [|kv r IH]; [reflexivity|]. cbn [map flat_map].
  rewrite flatten_image_entry.
  - rewrite IH; [reflexivity| |].
    + intros kv' Hin. apply Ho. now right.
    + intros kv' Hin. apply Hall. now right.
  - apply Hall. now left.
  - specialize (Ho kv (or_introl eq_refl)).
    unfold ordinaryRequestEntry in Ho. split_andb. assumption.
Qed.

Lemma serialize_image_response (r : Response) :
  wfMap (rs_body r) && wfMap (rs_headers r) = true ->
  ordinaryMap (rs_body r) && ordinaryMap (rs_headers r) = true ->
  serialize_response (imageResponse r) = serialize_response r.
Proof.
  intros H Ho. split_andb. unfold serialize_response, imageResponse. simpl.
  now rewrite !flatten_stringified.
Qed.

Lemma serialize_image_before_after (x : option json) :
  wfOpt wfJson x = true -> wfOpt ordinaryJson x = true ->
  beforeAfterKept x = true ->
  serialize_before_after (option_map (fun v => JStr (jsonText v)) x)
  = serialize_before_after x.
Proof.
  destruct x as [v|]; [|reflexivity]. simpl. intros Hwf Ho Hk.
  now rewrite Hk, (truthy_jsonText v Hk), stringify_leaf_wf.
Qed.

Lemma serialize_image_change (c : Change) :
  wfChange c = true -> ordinaryChange c = true ->
  beforeAfterKept (ch_before c) && beforeAfterKept (ch_after c) = true ->
  serialize_change (imageChange c) = serialize_change c.
Proof.
  unfold wfChange, ordinaryChange. intros Hwf Ho Hk. split_andb.
  unfold serialize_change, imageChange. simpl.
  now rewrite !serialize_image_before_after, flatten_stringified.
Qed.

Lemma serialize_image_changes (l : list Change) :
  forallb wfChange l = true -> forallb ordinaryChange l = true ->
  forallb (fun c => beforeAfterKept (ch_before c)
                    && beforeAfterKept (ch_after c)) l = true ->
  map serialize_change (map imageChange l) = map serialize_change l.
Proof.
  intros Hwf Ho Hk. rewrite map_map. apply map_ext_in. intros c Hc.
  rewrite forallb_forall in Hwf, Ho, Hk.
  apply serialize_image_change; auto.
Qed.

Lemma serialize_image_cost (c : Cost) :
  wfMap (co_meta c) = true -> ordinaryMap (co_meta c) = true ->
  serialize_cost (imageCost c) = serialize_cost c.
Proof.
  intros H Ho. unfold serialize_cost, imageCost. simpl.
  now rewrite flatten_stringified.
Qed.

(** What was read back is stored as it was. *)
Lemma serialize_image (a : Action) :
  wfAction a = true -> ordinaryAction a = true -> nothingDropped a = true ->
  serialize (imageAction a) = serialize a.
Proof.
  unfold wfAction, ordinaryAction, nothingDropped. intros Hwf Ho Hk.
  split_andb.
  destruct a as [i ts co cl ap en fw se tr ac ags tgs rq rs chs cst mt].
  unfold serialize, imageAction.
  cbn -[serialize_request transformObjectToArray stringifiedMap
        imageRequestEntry] in *.
  f_equal.
  - now apply serialize_image_agents.
  - destruct tgs as [l|]; [|reflexivity]. cbn [option_map wfOpt] in *.
    f_equal. now apply serialize_image_agents.
  - destruct rq as [r|]; [|reflexivity]. cbn [option_map wfOpt wfMap] in *.
    f_equal. now apply serialize_image_request.
  - destruct rs as [r|]; [|reflexivity]. cbn [option_map wfOpt] in *.
    f_equal. now apply serialize_image_response.
  - destruct chs as [l|]; [|reflexivity]. cbn [option_map wfOpt] in *.
    f_equal. now apply serialize_image_changes.
  - destruct cst as [c|]; [|reflexivity]. cbn [option_map wfOpt] in *.
    f_equal. now apply serialize_image_cost.
  - now apply flatten_stringified.
Qed.

(** X23: the stored form is stable.  For an action whose maps are
    objects with ordinary keys and values (no key [__proto__], no nested
    [request] object named like a property that every object inherits,
    numbers that are integers of magnitude below [10^21]) and from which
    [serialize] drops nothing, reading the stored document back and
    serializing the result gives the stored document again, field by
    field: [serialize(deserialize(serialize(a)))] is [serialize(a)],
    although [deserialize(serialize(a))] is not [a]. *)
Theorem serialize_deserialize_serialize (a : Action) :
  wfAction a = true -> ordinaryAction a = true -> nothingDropped a = true ->
  exists a' : Action,
    deserialize (serialize a) = Some a' /\ serialize a' = serialize a.
Proof.
  intros Hwf Ho Hk. exists (imageAction a).
  split; [now apply deserialize_serialize|now apply serialize_image].
Qed.

Lemma serialize_deserialize_serialize_witness :
  exists a' : Action,
    deserialize (serialize sampleAction) = Some a'
    /\ serialize a' = serialize sampleAction.
Proof.
  apply (serialize_deserialize_serialize sampleAction); reflexivity.
Defined.

End StoredDocuments.

(** *** The constructor and the search request (engine.ts) *)

Section SearchRequests.
Import JS Luxon Engine Compiler Setup Search.
Local Open Scope Z_scope.

Lemma overrideString_truthy (initial : string) (o : option string) :
  truthy_str initial = true -> truthy_str (overrideString initial o) = true.
Proof.
  intros H. unfold overrideString. destruct o as [s|]; [|exact H].
  destruct (truthy_str s) eqn:E; [exact E|exact H].
Qed.

Lemma overrideNumber_nonzero (initial : Z) (o : option Z) :
  initial <> 0 -> overrideNumber initial o <> 0.
Proof.
  intros H. unfold overrideNumber. destruct o as [n|]; [|exact H].
  unfold truthy_num. destruct (n =? 0) eqn:E; simpl; [exact H|].
  now apply Z.eqb_neq.
Qed.

Lemma construct_page_size (o : options) :
  _defaultPageSize (config (construct o)) <> 0
  /\ _defaultStartMonthsAgo (config (construct o)) <> 0.
Proof.
  unfold construct. cbn [config _defaultPageSize _defaultStartMonthsAgo].
  split; apply overrideNumber_nonzero; discriminate.
Qed.

(** X24: whatever options the constructor is given, no field of the
    instance ends up falsy: an empty pattern or name and a zero number of
    shards, of replicas, of months or of page size leave the default in
    place (zero replicas cannot be configured); only
    [autoUpdateIndexMappings] is taken as given, [false] included. *)
Theorem construct_never_stores_a_falsy_option (o : options) :
  truthy_str (_indexPattern (config (construct o))) = true
  /\ _defaultStartMonthsAgo (config (construct o)) <> 0
  /\ _defaultPageSize (config (construct o)) <> 0
  /\ truthy_str (Maintenance._indexTemplateName (maintenance (construct o)))
     = true
  /\ truthy_str (Maintenance._indexTemplatePattern (maintenance (construct o)))
     = true
  /\ Maintenance._indexTemplateNumShards (maintenance (construct o)) <> 0
  /\ Maintenance._indexTemplateNumReplicas (maintenance (construct o)) <> 0
  /\ _autoUpdateIndexMappings (construct o)
     = match autoUpdateIndexMappings o with Some b => b | None => true end.
Proof.
  unfold construct.
  cbn [config maintenance _autoUpdateIndexMappings _indexPattern
       _defaultStartMonthsAgo _defaultPageSize
       Maintenance._indexTemplateName Maintenance._indexTemplatePattern
       Maintenance._indexTemplateNumShards
       Maintenance._indexTemplateNumReplicas].
  repeat split;
    try (apply overrideString_truthy; reflexivity);
    try (apply overrideNumber_nonzero; discriminate).
Qed.

(** The path of [getIndexNameRange] through the clock. *)
Lemma clockAfterQuery_reading (clock : Clock) (filters : FindActionFilters) :
  reading (clockAfterQuery clock filters) = reading clock.
Proof.
  unfold clockAfterQuery, now.
  destruct (truthy_opt (start filters)), (truthy_opt (end_ filters));
    reflexivity.
Qed.

Lemma numberOr_nonzero (o : option Z) (fallback : Z) :
  fallback <> 0 -> numberOr o fallback <> 0.
Proof.
  intros H. unfold numberOr. destruct o as [n|]; [|exact H].
  unfold truthy_num. destruct (n =? 0) eqn:E; simpl; [exact H|].
  now apply Z.eqb_neq.
Qed.

(** X25: an engine built by the constructor, whatever its options, always
    has a search request to send, and never asks for a page of size zero:
    [size] is [options.limit] when that is a number other than zero, and
    the page size of the instance when [limit] is absent or zero, which
    the constructor keeps non-zero; [from] is [size] times the number of
    pages before the one asked for, and zero when [page] is absent or
    zero; unavailable indices are ignored.  The hypotheses say that the
    instants luxon reads and the clock shows are dates of the calendar. *)
Theorem findMany_never_asks_for_an_empty_page (fromISO : reader)
    (o : options) (clock : Clock) (opts : FindActionOptions)
    (filters : FindActionFilters) :
  (forall s d, fromISO s = Some d -> Calendar.regular d = true) ->
  (forall n, Calendar.regular (reading clock n) = true) ->
  exists req : searchRequest,
    findMany fromISO (config (construct o)) clock opts filters = Some req
    /\ size req <> 0
    /\ (forall n, limit opts = Some n -> n <> 0 -> size req = n)
    /\ (limit opts = None \/ limit opts = Some 0 ->
        size req = _defaultPageSize (config (construct o)))
    /\ (forall p, page opts = Some p -> p <> 0 ->
        from req = (p - 1) * size req)
    /\ (page opts = None \/ page opts = Some 0 -> from req = 0)
    /\ ignore_unavailable req = true.
Proof.
  intros Hr Hc. unfold findMany.
  destruct (getIndexNameRange_returns fromISO (config (construct o))
              (clockAfterQuery clock filters) (companyId filters)
              (start filters) (end_ filters)) as [names ->].
  - exact Hr.
  - intros n. rewrite clockAfterQuery_reading. apply Hc.
  - eexists. split; [reflexivity|].
    cbn [size from ignore_unavailable]. repeat split.
    + apply numberOr_nonzero.
      destruct (construct_page_size o) as [H _]. exact H.
    + intros n -> Hn. unfold numberOr, truthy_num.
      apply Z.eqb_neq in Hn. now rewrite Hn.
    + intros [-> | ->]; reflexivity.
    + intros p -> Hp. unfold numberOr at 1, truthy_num.
      apply Z.eqb_neq in Hp. now rewrite Hp.
    + intros [-> | ->]; reflexivity.
Qed.

Lemma findMany_never_asks_for_an_empty_page_witness :
  exists req : searchRequest,
    findMany readUTC (config (construct noOptions)) Spec.sampleClock
             (Compiler.mkOptions (Some 3) (Some 10) None None)
             (Spec.onlyCompany "c1")
    = Some req
    /\ size req <> 0
    /\ (forall n, Some 10 = Some n -> n <> 0 -> size req = n)
    /\ (Some 10 = None \/ Some 10 = Some 0 ->
        size req = _defaultPageSize (config (construct noOptions)))
    /\ (forall p, Some 3 = Some p -> p <> 0 -> from req = (p - 1) * size req)
    /\ (Some 3 = None \/ Some 3 = Some 0 -> from req = 0)
    /\ ignore_unavailable req = true.
Proof.
  apply (findMany_never_asks_for_an_empty_page readUTC noOptions
           Spec.sampleClock
           (Compiler.mkOptions (Some 3) (Some 10) None None)
           (Spec.onlyCompany "c1")).
  - intros s d H. apply isValid_regular. now apply readUTC_valid with s.
  - intros n. reflexivity.
Defined.

(** The third page of ten, and the defaults of an engine built without
    options. *)
Example findMany_third_page_of_ten :
  option_map (fun req => (from req, size req, sort req))
    (findMany readUTC (config (construct noOptions)) Spec.sampleClock
       (Compiler.mkOptions (Some 3) (Some 10) None None)
       (Spec.onlyCompany "c1"))
  = Some (20, 10, ("timestamp", "desc"))
  /\ option_map (fun req => (from req, size req))
       (findMany readUTC (config (construct noOptions)) Spec.sampleClock
          (Compiler.mkOptions None None None None) (Spec.onlyCompany "c1"))
     = Some (0, 25).
Proof. split; reflexivity. Qed.

End SearchRequests.

(** *** Write index and search index (engine.ts) *)

Section IndexNames.
Import JS Luxon Engine Router Calendar Naming.
Local Open Scope Z_scope.

Lemma years_print_alike : allFrom (Z.to_nat 9000) 1000 yearPrintsAlike = true.
Proof. vm_compute. reflexivity. Qed.

Lemma months_print_alike : allFrom 12 1 monthPrintsAlike = true.
Proof. vm_compute. reflexivity. Qed.

(** X26: the index an action is written to and the index a search names
    for a month are built alike: for a timestamp in the ISO form that
    [toISO] prints, of year 1000 or later, [getIndexName] gives the name
    that [getIndexNameRange] gives to a bucket ending in the month of the
    timestamp, whatever the index pattern. *)
Theorem getIndexName_agrees_with_range_name (cfg : config) (d : DateTime)
    (company : string) :
  isValid d = true -> 1000 <= year d -> truthy_str company = true ->
  getIndexName cfg (toISO d) (Some company)
  = fillPattern cfg company (toFormat_yyyy d) (toFormat_LL d).
Proof.
  intros Hv Hy Hc. unfold getIndexName.
  rewrite (readUTC_toISO d Hv), Hc.
  pose proof (isValid_regular d Hv) as Hr.
  destruct (regular_ranges d Hr) as (Hm & _).
  assert (Hyear : year d <= 9999).
  { unfold isValid in Hv.
    repeat (apply andb_true_iff in Hv; destruct Hv as [Hv ?]).
    match goal with
    | H : (year d <=? 9999) = true |- _ => now apply Z.leb_le in H
    end. }
  pose proof (allFrom_spec yearPrintsAlike _ _ years_print_alike (year d)
                ltac:(lia)) as Py.
  pose proof (allFrom_spec monthPrintsAlike _ _ months_print_alike (month d)
                ltac:(lia)) as Pm.
  unfold yearPrintsAlike in Py. unfold monthPrintsAlike in Pm.
  apply String.eqb_eq in Py, Pm.
  unfold toFormat_yyyy, toFormat_LL. now rewrite <- Py, <- Pm.
Qed.

Lemma getIndexName_agrees_with_range_name_witness :
  getIndexName default (toISO (mkDateTime 2024 7 15 10 0 0 0)) (Some "c1")
  = fillPattern default "c1"
      (toFormat_yyyy (mkDateTime 2024 7 15 10 0 0 0))
      (toFormat_LL (mkDateTime 2024 7 15 10 0 0 0)).
Proof.
  apply (getIndexName_agrees_with_range_name default
           (mkDateTime 2024 7 15 10 0 0 0) "c1").
  - reflexivity.
  - simpl. lia.
  - reflexivity.
Defined.

End IndexNames.

(** *** Undeclared properties and the size of a query *)

Section SchemaAndSize.
Import JS Luxon Engine Compiler Schema SchemaSpec.

Lemma required_set_other (o : obj json) (k k' : string) (v : json)
    (check : json -> bool) :
  k' <> k -> required (obj_set o k v) k' check = required o k' check.
Proof. intros H. unfold required. now rewrite obj_get_set_other. Qed.

Lemma optional_set_other (o : obj json) (k k' : string) (v : json)
    (check : json -> bool) :
  k' <> k -> optional (obj_set o k v) k' check = optional o k' check.
Proof. intros H. unfold optional. now rewrite obj_get_set_other. Qed.

(** X27: the schema looks at the declared properties only: adding or
    replacing a property of any other name, with any value, changes
    nothing to whether an action is accepted. *)
Theorem OpenSearchActionSchema_ignores_undeclared (o : obj json)
    (k : string) (v : json) :
  ~ In k declaredKeys ->
  OpenSearchActionSchema (JObj (obj_set o k v))
  = OpenSearchActionSchema (JObj o).
Proof.
  intros Hk. unfold OpenSearchActionSchema. cbn [z_object].
  assert (Hne : forall k', In k' declaredKeys -> k' <> k).
  { intros k' Hin ->. now apply Hk. }
  rewrite !required_set_other, !optional_set_other
    by (apply Hne; simpl; tauto).
  reflexivity.
Qed.

Lemma OpenSearchActionSchema_ignores_undeclared_witness :
  OpenSearchActionSchema
    (JObj (obj_set [("timestamp", JStr "2024-07-01T00:00:00Z");
                    ("action", JObj [("type", JStr "HTTP");
                                     ("verb", JStr "GET")]);
                    ("agents", JArr [])]
                   "severity" (JNum 3)))
  = OpenSearchActionSchema
      (JObj [("timestamp", JStr "2024-07-01T00:00:00Z");
             ("action", JObj [("type", JStr "HTTP"); ("verb", JStr "GET")]);
             ("agents", JArr [])]).
Proof.
  apply (OpenSearchActionSchema_ignores_undeclared
           [("timestamp", JStr "2024-07-01T00:00:00Z");
            ("action", JObj [("type", JStr "HTTP"); ("verb", JStr "GET")]);
            ("agents", JArr [])]
           "severity" (JNum 3)).
  simpl. intros H. repeat destruct H as [H|H]; try discriminate. exact H.
Defined.

Lemma length_pushIfAny (xs : list Query) (q : Query) :
  List.length (pushIfAny [] xs q) <= 1.
Proof. destruct xs; simpl; lia. Qed.

Lemma length_whenSet {A : Type} (o : option A) (f : A -> list Query) :
  (forall a, List.length (f a) <= 1) -> List.length (whenSet o f) <= 1.
Proof. intros H. destruct o; simpl; [apply H|lia]. Qed.

Lemma length_scalarSetClause (filters : FindActionFilters) (key : string) :
  List.length (scalarSetClause filters key) <= 1.
Proof.
  unfold scalarSetClause. destruct (scalarField filters key) as [[s|l]|];
    simpl; [destruct (truthy_str s); simpl| |]; lia.
Qed.

(** X28: the compiled list has the two clauses that are always there and
    at most one clause for each of the fourteen filters, however many
    candidates a filter lists: between 2 and 16 clauses. *)
Theorem buildFindManyQuery_one_clause_per_filter (fromISO : reader)
    (cfg : config) (clock : Clock) (options : FindActionOptions)
    (filters : FindActionFilters) :
  2 <= List.length (buildFindManyQuery fromISO cfg clock options filters)
    <= 16.
Proof.
  unfold buildFindManyQuery. rewrite !length_app. cbn [flat_map].
  rewrite !length_app. cbn [List.length].
  pose proof (length_scalarSetClause filters "id").
  pose proof (length_scalarSetClause filters "clientId").
  pose proof (length_scalarSetClause filters "app").
  pose proof (length_scalarSetClause filters "environment").
  pose proof (length_scalarSetClause filters "sessionId").
  pose proof (length_scalarSetClause filters "traceIds").
  pose proof (length_whenSet (framework filters) frameworkClause
                (fun fs => length_pushIfAny _ _)).
  pose proof (length_whenSet (action filters) actionClause
                (fun acts => length_pushIfAny _ _)).
  pose proof (length_whenSet (agents filters) (entityClause "agents")
                (fun es => length_pushIfAny _ _)).
  pose proof (length_whenSet (targets filters) (entityClause "targets")
                (fun es => length_pushIfAny _ _)).
  pose proof (length_whenSet (request filters) requestClause
                (fun rs => length_pushIfAny _ _)).
  pose proof (length_whenSet (response filters) responseClause
                (fun r => length_pushIfAny _ _)).
  pose proof (length_whenSet (changes filters) changesClause
                (fun cs => length_pushIfAny _ _)).
  pose proof (length_whenSet (meta filters) metaClause
                (fun ms => length_pushIfAny _ _)).
  lia.
Qed.

End SchemaAndSize.
